(** * Language flashcards: the spaced-repetition core of [main.py]

    A shallow embedding of the scheduling engine of the flashcard
    application (card model, interval progression, due-card selection,
    quiz generation, snapshot persistence, study statistics) and the
    properties its specification states about it.

    Conventions of the embedding:
    - Python [int] is [Z]; Python [str] is [string]; a Python [list] is a
      [list]; a [dict] with string keys is a [gmap string _].
    - A function that can raise returns a [result]; a function that mutates
      its argument returns the mutated object next to its result, so that
      the state left behind by a raised exception is visible.
    - The clock ([datetime.now()]), the random generator and the snapshot
      file are explicit arguments.
    - The script as Streamlit runs it (session state, form, tabs, reruns)
      is an [action] on a [world] of session state, file and generator;
      what the widgets return is an argument of the run.
    - Where a library call is described only on a part of its arguments
      ([datetime.fromisoformat]) or a value cannot be held by the typed
      records of the embedding (a snapshot field of another JSON type), the
      outcome is [Raise Unmodelled]: nothing is said about the program
      there. *)

From Stdlib Require Import ZArith Ascii String List Lia.
From Stdlib Require Import Floats.SpecFloat.
From stdpp Require Import base option list strings gmap.

Set Warnings "-register-all".
Local Open Scope Z_scope.

(* ===================================================================== *)
(** * Part I: the program                                                 *)
(* ===================================================================== *)

(** ** Exceptions and results *)

(** Python exceptions: the built-in ones that the modelled code can raise,
    and the instances of a class that a program defines itself.
    [Unmodelled] is no exception of Python: it marks an outcome that this
    development does not describe, where the program may return as well as
    raise. *)
Inductive exn : Type :=
| FileNotFoundError
| PermissionError
| JSONDecodeError
| KeyError (key : string)
| TypeError
| ValueError
| IndexError
| AttributeError
| StopIteration
| OverflowError
| ZeroDivisionError
| Custom (class_name : string)
| Unmodelled.

(** The error classes that the specification names. The program defines no
    exception class of its own. *)
Definition NotFoundError : exn := Custom "NotFoundError".
Definition ValidationError : exn := Custom "ValidationError".

Inductive result (A : Type) : Type :=
| Return (a : A)
| Raise (e : exn).
Arguments Return {A} a.
Arguments Raise {A} e.

(** [result] is a monad in the notation of stdpp: [x ← m; k] runs [m] and
    either passes its value to [k] or propagates its exception. *)
#[global] Instance result_ret : MRet result := fun A a => Return a.
#[global] Instance result_bind : MBind result := fun A B k m =>
  match m with
  | Return a => k a
  | Raise e => Raise e
  end.

(** [[f(x) for x in l]]: the elements are evaluated in order and the first
    exception ends the comprehension. *)
Fixpoint comprehension {A B : Type} (f : A -> result B) (l : list A)
  : result (list B) :=
  match l with
  | [] => Return []
  | x :: l' => y ← f x; ys ← comprehension f l'; Return (y :: ys)
  end.

Definition raises {A : Type} (m : result A) : Prop := exists e, m = Raise e.
Definition returns {A : Type} (m : result A) : Prop := exists a, m = Return a.

(** [len(l)]. *)
Definition len {A : Type} (l : list A) : Z := Z.of_nat (length l).

(** [l[i]] on a Python list: a negative index counts from the end, an index
    outside [-len, len) raises [IndexError]. *)
Definition list_getitem {A : Type} (l : list A) (i : Z) : result A :=
  let n := len l in
  let j := if i <? 0 then i + n else i in
  if (0 <=? j) && (j <? n)
  then match l !! Z.to_nat j with
       | Some x => Return x
       | None => Raise IndexError
       end
  else Raise IndexError.

(** ** The [datetime] library, as far as the program uses it *)

(** A naive [datetime]: the calendar fields that CPython stores.
    [datetime_check] is the range check of the constructor, which every
    value of the Python class has passed. *)
Record datetime : Type := mk_datetime {
  year : Z; month : Z; day : Z;
  hour : Z; minute : Z; second : Z; microsecond : Z
}.

Record timedelta : Type := mk_timedelta { days : Z }.

Definition MINYEAR : Z := 1.
Definition MAXYEAR : Z := 9999.

Definition is_leap (y : Z) : bool :=
  (y mod 4 =? 0) && (negb (y mod 100 =? 0) || (y mod 400 =? 0)).

Definition DAYS_IN_MONTH : list Z :=
  [-1; 31; 28; 31; 30; 31; 30; 31; 31; 30; 31; 30; 31].
Definition DAYS_BEFORE_MONTH : list Z :=
  [-1; 0; 31; 59; 90; 120; 151; 181; 212; 243; 273; 304; 334].

Definition table (t : list Z) (i : Z) : Z := nth (Z.to_nat i) t 0.

Definition days_in_month (y m : Z) : Z :=
  if (m =? 2) && is_leap y then 29 else table DAYS_IN_MONTH m.

Definition days_before_year (y : Z) : Z :=
  let y := y - 1 in y * 365 + y / 4 - y / 100 + y / 400.

Definition days_before_month (y m : Z) : Z :=
  table DAYS_BEFORE_MONTH m + (if (2 <? m) && is_leap y then 1 else 0).

Definition ymd2ord (y m d : Z) : Z :=
  days_before_year y + days_before_month y m + d.

Definition DI400Y : Z := 146097.
Definition DI100Y : Z := 36524.
Definition DI4Y : Z := 1461.

(** Ordinal to (year, month, day), 1 being 0001-01-01. *)
Definition ord2ymd (n : Z) : Z * Z * Z :=
  let n := n - 1 in
  let n400 := n / DI400Y in let n := n mod DI400Y in
  let y := n400 * 400 + 1 in
  let n100 := n / DI100Y in let n := n mod DI100Y in
  let n4 := n / DI4Y in let n := n mod DI4Y in
  let n1 := n / 365 in let n := n mod 365 in
  let y := y + n100 * 100 + n4 * 4 + n1 in
  if (n1 =? 4) || (n100 =? 4) then (y - 1, 12, 31)
  else
    let leapyear := (n1 =? 3) && (negb (n4 =? 24) || (n100 =? 3)) in
    let m := Z.shiftr (n + 50) 5 in
    let preceding :=
      table DAYS_BEFORE_MONTH m + (if (2 <? m) && leapyear then 1 else 0) in
    if n <? preceding
    then
      let m := m - 1 in
      let preceding :=
        preceding
        - (table DAYS_IN_MONTH m + (if (m =? 2) && leapyear then 1 else 0)) in
      (y, m, n - preceding + 1)
    else (y, m, n - preceding + 1).

Definition datetime_check (d : datetime) : bool :=
  (MINYEAR <=? year d) && (year d <=? MAXYEAR)
  && (1 <=? month d) && (month d <=? 12)
  && (1 <=? day d) && (day d <=? days_in_month (year d) (month d))
  && (0 <=? hour d) && (hour d <? 24)
  && (0 <=? minute d) && (minute d <? 60)
  && (0 <=? second d) && (second d <? 60)
  && (0 <=? microsecond d) && (microsecond d <? 1000000).

Definition toordinal (d : datetime) : Z := ymd2ord (year d) (month d) (day d).

(** The ordinal of 9999-12-31, the last day of [datetime]. *)
Definition MAXORDINAL : Z := 3652059.

(** [d + timedelta(days=n)]: the date moves by [n] days, the time of day is
    kept; a date before 0001-01-01 or after 9999-12-31 is an
    [OverflowError]. *)
Definition datetime_add (d : datetime) (t : timedelta) : result datetime :=
  let n := toordinal d + days t in
  if (1 <=? n) && (n <=? MAXORDINAL)
  then
    let '(y, m, dd) := ord2ymd n in
    Return (mk_datetime y m dd (hour d) (minute d) (second d) (microsecond d))
  else Raise OverflowError.

(** Comparison of naive datetimes: lexicographic on the fields. *)
Definition datetime_cmp (a b : datetime) : comparison :=
  match year a ?= year b with Eq =>
  match month a ?= month b with Eq =>
  match day a ?= day b with Eq =>
  match hour a ?= hour b with Eq =>
  match minute a ?= minute b with Eq =>
  match second a ?= second b with Eq =>
    microsecond a ?= microsecond b
  | c => c end | c => c end | c => c end | c => c end | c => c end | c => c end.

Definition datetime_le (a b : datetime) : bool :=
  match datetime_cmp a b with Gt => false | _ => true end.

(** The instant of a datetime, in microseconds on the proleptic Gregorian
    time line; not part of the library, used to state what the comparison
    and the addition mean. *)
Definition timestamp (d : datetime) : Z :=
  (((toordinal d * 24 + hour d) * 60 + minute d) * 60 + second d) * 1000000
  + microsecond d.

Definition leap_day (y : Z) : Z := if is_leap y then 1 else 0.

(** The last step of [ord2ymd] on its own: month and day of the day
    numbered [n] (from 0) of a year, and the check that they are a date of
    that year with that number. *)
Definition month_day (leapyear : bool) (n : Z) : Z * Z :=
  let m := Z.shiftr (n + 50) 5 in
  let preceding :=
    table DAYS_BEFORE_MONTH m + (if (2 <? m) && leapyear then 1 else 0) in
  if n <? preceding
  then
    let m := m - 1 in
    let preceding :=
      preceding
      - (table DAYS_IN_MONTH m + (if (m =? 2) && leapyear then 1 else 0)) in
    (m, n - preceding + 1)
  else (m, n - preceding + 1).

Definition month_day_ok (leapyear : bool) (n : Z) : bool :=
  let '(m, d) := month_day leapyear n in
  (1 <=? m) && (m <=? 12) && (1 <=? d)
  && (d <=? (if (m =? 2) && leapyear then 29 else table DAYS_IN_MONTH m))
  && (table DAYS_BEFORE_MONTH m + (if (2 <? m) && leapyear then 1 else 0) + d
      =? n + 1).

(** [f] holds of the [k] integers from [i] on. *)
Fixpoint all_from (f : Z -> bool) (k : nat) (i : Z) : bool :=
  match k with
  | O => true
  | S k' => if f i then all_from f k' (i + 1) else false
  end.

(** *** ISO-8601 text *)

Definition digit_char (n : Z) : ascii := ascii_of_nat (48 + Z.to_nat n).

Definition digit_value (c : ascii) : option Z :=
  let n := Z.of_nat (nat_of_ascii c) in
  if (48 <=? n) && (n <=? 57) then Some (n - 48) else None.

(** [w] decimal digits of [n], most significant first, put before [rest]
    (the ["%0wd"] of the formatter, for [0 <= n < 10^w]). *)
Fixpoint put_digits (w : nat) (n : Z) (rest : string) : string :=
  match w with
  | O => rest
  | S w' => put_digits w' (n / 10) (String (digit_char (n mod 10)) rest)
  end.

Fixpoint get_digits (w : nat) (acc : Z) (s : string) : option (Z * string) :=
  match w with
  | O => Some (acc, s)
  | S w' =>
      match s with
      | String c s' =>
          match digit_value c with
          | Some v => get_digits w' (10 * acc + v) s'
          | None => None
          end
      | EmptyString => None
      end
  end.

Definition expect (c : ascii) (s : string) : option string :=
  match s with
  | String c' s' => if Ascii.eqb c c' then Some s' else None
  | EmptyString => None
  end.

(** [datetime.isoformat()]: [YYYY-MM-DDTHH:MM:SS], followed by [.ffffff]
    when the microsecond field is not zero. *)
Definition isoformat (d : datetime) : string :=
  put_digits 4 (year d) (String "-" (
  put_digits 2 (month d) (String "-" (
  put_digits 2 (day d) (String "T" (
  put_digits 2 (hour d) (String ":" (
  put_digits 2 (minute d) (String ":" (
  put_digits 2 (second d) (
    if microsecond d =? 0 then EmptyString
    else String "." (put_digits 6 (microsecond d) EmptyString)))))))))))).

(** The fraction of a second: nothing, or a dot and 3 or 6 digits. *)
Definition parse_fraction (s : string) : option Z :=
  match s with
  | EmptyString => Some 0
  | String c s' =>
      if Ascii.eqb c "." then
        match get_digits 6 0 s' with
        | Some (us, EmptyString) => Some us
        | Some (_, String _ _) => None
        | None =>
            match get_digits 3 0 s' with
            | Some (ms, EmptyString) => Some (ms * 1000)
            | _ => None
            end
        end
      else None
  end.

Definition parse_isoformat (s : string) : option datetime :=
  '(y, s) ← get_digits 4 0 s; s ← expect "-" s;
  '(m, s) ← get_digits 2 0 s; s ← expect "-" s;
  '(d, s) ← get_digits 2 0 s;
  match s with
  | EmptyString => None
  | String _ s =>
      '(hh, s) ← get_digits 2 0 s; s ← expect ":" s;
      '(mm, s) ← get_digits 2 0 s; s ← expect ":" s;
      '(ss, s) ← get_digits 2 0 s;
      us ← parse_fraction s;
      Some (mk_datetime y m d hh mm ss us)
  end.

(** The date of [d] exists. *)
Definition date_check (d : datetime) : bool :=
  (MINYEAR <=? year d) && (year d <=? MAXYEAR)
  && (1 <=? month d) && (month d <=? 12)
  && (1 <=? day d) && (day d <=? days_in_month (year d) (month d)).

(** The time [24:00:00], which some versions of CPython read as the
    midnight that ends the day. *)
Definition end_of_day (d : datetime) : bool :=
  (hour d =? 24) && (minute d =? 0) && (second d =? 0) && (microsecond d =? 0).

(** [datetime.fromisoformat], on the texts of the form that [isoformat]
    writes for a naive datetime (date, one separator character, time to the
    second and an optional fraction of 3 or 6 digits). The fields are
    range-checked as by the constructor: a date that does not exist or a
    time out of range is a [ValueError]. What CPython does on other texts
    (dates alone, abbreviated times, UTC offsets, week dates) and on
    [24:00:00] depends on its version and is not described. *)
Definition fromisoformat (s : string) : result datetime :=
  match parse_isoformat s with
  | Some d =>
      if datetime_check d then Return d
      else if date_check d && end_of_day d then Raise Unmodelled
      else Raise ValueError
  | None => Raise Unmodelled
  end.

(** ** JSON values and the snapshot file *)

(** What [json.load] can return: [None], [bool], [int], [float], [str],
    [list] and [dict] with string keys. *)
Inductive json : Type :=
| JNull
| JBool (b : bool)
| JInt (z : Z)
| JFloat (f : spec_float)
| JStr (s : string)
| JList (l : list json)
| JObj (o : gmap string json).

(** The text of a file, up to what [json.load] makes of it: either it is not
    a JSON document, or it is the encoding of a JSON value. [json.dump]
    writes the encoding of the value it is given. *)
Inductive text : Type :=
| Garbled
| Encoded (j : json).

(** The state of [flashcards.json] as the process finds it. The file is
    not there, and the process may create it ([Absent]) or may not
    ([Uncreatable], in a directory it cannot write); or it is there with
    some text, and the process may read and write it ([Holds]), only read
    it ([ReadOnly]), only write it ([WriteOnly]) or neither ([Denied]). *)
Inductive file : Type :=
| Absent
| Denied
| Holds (t : text)
| ReadOnly (t : text)
| WriteOnly (t : text)
| Uncreatable.

(** [open(name, 'r')] and reading the text. *)
Definition open_read (f : file) : result text :=
  match f with
  | Absent | Uncreatable => Raise FileNotFoundError
  | Denied | WriteOnly _ => Raise PermissionError
  | Holds t | ReadOnly t => Return t
  end.

(** [open(name, 'w')] followed by writing [t]: the file is created or
    overwritten when the process may do so; otherwise the call raises and
    the file is as it was. *)
Definition open_write (f : file) (t : text) : file * result unit :=
  match f with
  | Absent | Holds _ => (Holds t, Return tt)
  | WriteOnly _ => (WriteOnly t, Return tt)
  | Denied | ReadOnly _ | Uncreatable => (f, Raise PermissionError)
  end.

Definition json_load (t : text) : result json :=
  match t with
  | Garbled => Raise JSONDecodeError
  | Encoded j => Return j
  end.

Definition json_dump (j : json) : text := Encoded j.

(** [for x in j]: a list yields its elements, a dict its keys, a string its
    characters; nothing else is iterable. *)
Fixpoint characters (s : string) : list json :=
  match s with
  | EmptyString => []
  | String c s' => JStr (String c EmptyString) :: characters s'
  end.

Definition json_iter (j : json) : result (list json) :=
  match j with
  | JList l => Return l
  | JObj o => Return (JStr <$> (map_to_list o).*1)
  | JStr s => Return (characters s)
  | _ => Raise TypeError
  end.

(** [data[key]]: only a dict can be indexed by a string. *)
Definition json_getitem (data : json) (key : string) : result json :=
  match data with
  | JObj o =>
      match o !! key with
      | Some v => Return v
      | None => Raise (KeyError key)
      end
  | _ => Raise TypeError
  end.

(** [data.get(key, default)]: a method of dicts only. *)
Definition json_get (data : json) (key : string) (dflt : json) : result json :=
  match data with
  | JObj o => Return (default dflt (o !! key))
  | _ => Raise AttributeError
  end.

(** ** Flashcards *)

(** Spaced repetition intervals (in days). *)
Definition INTERVALS : list Z := [1; 3; 7; 14; 30; 90].

Record Flashcard : Type := mk_Flashcard {
  word : string;
  translation : string;
  level : Z;
  next_review : datetime;
  reviews : Z;
  correct : Z
}.

(** Attribute assignments [card.attr = v]. *)
Definition set_level (v : Z) (c : Flashcard) : Flashcard :=
  mk_Flashcard (word c) (translation c) v (next_review c) (reviews c) (correct c).
Definition set_next_review (v : datetime) (c : Flashcard) : Flashcard :=
  mk_Flashcard (word c) (translation c) (level c) v (reviews c) (correct c).
Definition set_reviews (v : Z) (c : Flashcard) : Flashcard :=
  mk_Flashcard (word c) (translation c) (level c) (next_review c) v (correct c).
Definition set_correct (v : Z) (c : Flashcard) : Flashcard :=
  mk_Flashcard (word c) (translation c) (level c) (next_review c) (reviews c) v.

(** [Flashcard.__init__(word, translation, level=0, next_review=None)];
    [now] is what [datetime.now()] reads. A datetime is never falsy, so
    [next_review or datetime.now()] is the argument when one is given. *)
Definition Flashcard_init (word translation : string) (level : Z)
    (next_review : option datetime) (now : datetime) : Flashcard :=
  mk_Flashcard word translation level (default now next_review) 0 0.

(** [Flashcard(word, translation)], as the sidebar form creates a card. *)
Definition new_card (word translation : string) (now : datetime) : Flashcard :=
  Flashcard_init word translation 0 None now.

Definition to_dict (self : Flashcard) : gmap string json :=
  <["word" := JStr (word self)]> (
  <["translation" := JStr (translation self)]> (
  <["level" := JInt (level self)]> (
  <["next_review" := JStr (isoformat (next_review self))]> (
  <["reviews" := JInt (reviews self)]> (
  <["correct" := JInt (correct self)]> ∅))))).

(** The attributes of a card are typed in this embedding ([str] and
    [int]), where Python stores whatever value the record holds. A value of
    another type cannot be held by a [Flashcard]: the card that the program
    builds from it is not described. *)
Definition as_str (j : json) : result string :=
  match j with JStr s => Return s | _ => Raise Unmodelled end.
Definition as_int (j : json) : result Z :=
  match j with JInt z => Return z | _ => Raise Unmodelled end.

(** The argument of [datetime.fromisoformat] has to be a [str]. *)
Definition fromisoformat_arg (j : json) : result string :=
  match j with JStr s => Return s | _ => Raise TypeError end.

(** [Flashcard.from_dict(data)]. The four subscripts, the call of
    [fromisoformat] and the two [get] are evaluated in the order of the
    source, so that the exception of the first one that fails is the one
    raised; the values read are given their types at the end, nothing in the
    program failing on them. *)
Definition from_dict (now : datetime) (data : json) : result Flashcard :=
  w ← json_getitem data "word";
  t ← json_getitem data "translation";
  l ← json_getitem data "level";
  s ← json_getitem data "next_review"; s ← fromisoformat_arg s;
  d ← fromisoformat s;
  r ← json_get data "reviews" (JInt 0);
  c ← json_get data "correct" (JInt 0);
  w ← as_str w; t ← as_str t; l ← as_int l; r ← as_int r; c ← as_int c;
  let card := Flashcard_init w t l None now in
  let card := set_next_review d card in
  let card := set_reviews r card in
  let card := set_correct c card in
  Return card.

Definition save_cards (cards : list Flashcard) (f : file) : file * result unit :=
  open_write f (json_dump (JList (JObj <$> (to_dict <$> cards)))).

(** The [try] body of [load_cards], and the function with its handler: only
    [FileNotFoundError] is caught. *)
Definition load_cards_body (now : datetime) (f : file) : result (list Flashcard) :=
  t ← open_read f;
  j ← json_load t;
  items ← json_iter j;
  comprehension (from_dict now) items.

Definition load_cards (now : datetime) (f : file) : result (list Flashcard) :=
  match load_cards_body now f with
  | Raise FileNotFoundError => Return []
  | r => r
  end.

(** [update_card_status(card, correct)] mutates [card]: the result is the
    card as the call leaves it and what the call returns. The index into
    [INTERVALS] and the sum are evaluated after the counters and the level
    are assigned, so an [IndexError] or an [OverflowError] leaves them
    updated and [next_review] as it was. *)
Definition update_card_status (card : Flashcard) (was_correct : bool)
    (now : datetime) : Flashcard * result unit :=
  let card := set_reviews (reviews card + 1) card in
  let card :=
    if was_correct
    then
      let card := set_correct (correct card + 1) card in
      set_level (Z.min (len INTERVALS - 1) (level card + 1)) card
    else set_level (Z.max 0 (level card - 1)) card in
  match d ← list_getitem INTERVALS (level card);
        datetime_add now (mk_timedelta d) with
  | Return next => (set_next_review next card, Return tt)
  | Raise e => (card, Raise e)
  end.

(** ** The [random] library, as far as the program uses it *)

(** The generator is an explicit source of draws: [randbelow n] takes the
    next draw and reduces it below [n]; an exhausted source keeps drawing 0.
    Every behaviour of the real generator is the behaviour of some source. *)
Definition rng : Type := list nat.

Definition randbelow (n : nat) (g : rng) : nat * rng :=
  match g with
  | [] => (0%nat, [])
  | x :: g' => ((x mod n)%nat, g')
  end.

(** Selection without replacement from a pool: the drawn element is taken
    and the last element of the pool moves into its place. (CPython selects
    this way in populations of up to 21 elements and, in larger ones, by
    drawing positions again until they are fresh; either way the sample is
    [k] elements at distinct positions.) *)
Fixpoint sample_pool {A : Type} (k : nat) (pool : list A) (g : rng)
  : list A * rng :=
  match k with
  | O => ([], g)
  | S k' =>
      let n := length pool in
      let '(j, g) := randbelow n g in
      match pool !! j, pool !! (n - 1)%nat with
      | Some x, Some y =>
          let '(r, g) := sample_pool k' (take (n - 1) (<[j := y]> pool)) g in
          (x :: r, g)
      | _, _ => ([], g)
      end
  end.

(** [random.sample(population, k)]. *)
Definition random_sample {A : Type} (population : list A) (k : Z) (g : rng)
  : result (list A * rng) :=
  if (0 <=? k) && (k <=? len population)
  then Return (sample_pool (Z.to_nat k) population g)
  else Raise ValueError.

(** [x[i], x[j] = x[j], x[i]]. *)
Definition swap {A : Type} (i j : nat) (x : list A) : list A :=
  match x !! i, x !! j with
  | Some a, Some b => <[j := a]> (<[i := b]> x)
  | _, _ => x
  end.

(** The loop of [random.shuffle], for [i] from [len(x) - 1] down to 1. *)
Fixpoint shuffle_loop {A : Type} (i : nat) (x : list A) (g : rng)
  : list A * rng :=
  match i with
  | O => (x, g)
  | S i' =>
      let '(j, g) := randbelow (i + 1) g in
      shuffle_loop i' (swap i j x) g
  end.

Definition random_shuffle {A : Type} (x : list A) (g : rng) : list A * rng :=
  shuffle_loop (length x - 1) x g.

(** ** Quiz generation *)

(** [next(it)] on a generator: its first element, [StopIteration] if it has
    none. *)
Definition next {A : Type} (it : list A) : result A :=
  match it with
  | x :: _ => Return x
  | [] => Raise StopIteration
  end.

Definition create_quiz (cards : list Flashcard) (current_word : string)
    (g : rng) : result (list string * string * rng) :=
  correct_card ← next (filter (λ card, word card = current_word) cards);
  let options := [translation correct_card] in
  let available_cards := filter (λ card, word card ≠ current_word) cards in
  '(drawn, g) ← random_sample (translation <$> available_cards)
                   (Z.min 3 (len available_cards)) g;
  let options := options ++ drawn in
  let '(options, g) := random_shuffle options g in
  Return (options, translation correct_card, g).

(** ** The page: adding a card, statistics, due cards *)

(** A string is truthy when it is not empty. *)
Definition truthy (s : string) : bool :=
  match s with
  | EmptyString => false
  | String _ _ => true
  end.

(** What the page shows in response to an action. *)
Inductive message : Type :=
| success (body : string)
| error (body : string).

(** The handler of the "Add Card" button, on the card list of this run and
    the snapshot file: the list and the file it leaves, the messages it
    shows and whether it returned or raised. *)
Definition add_card (word translation : string) (now : datetime)
    (cards : list Flashcard) (f : file)
  : list Flashcard * file * list message * result unit :=
  if truthy word && truthy translation
  then
    let cards := cards ++ [new_card word translation now] in
    match save_cards cards f with
    | (f, Return _) => (cards, f, [success "Card added successfully!"], Return tt)
    | (f, Raise e) => (cards, f, [], Raise e)
    end
  else (cards, f, [], Return tt).

(** Python [float] and numpy [float64]: IEEE 754 binary64. *)
Definition float : Type := spec_float.
Definition prec : Z := 53.
Definition emax : Z := 1024.

(** [float(z)], correctly rounded. *)
Definition float_of_int (z : Z) : float := binary_normalize prec emax z 0 false.

(** The integer [z] as an exact dyadic number. *)
Definition exact_int (z : Z) : float :=
  match z with
  | Z0 => S754_zero false
  | Zpos p => S754_finite false p 0
  | Zneg p => S754_finite true p 0
  end.

(** [a / b] on [int]s: the correctly rounded quotient of the two integers,
    whatever their size; [ZeroDivisionError] when [b] is 0 and
    [OverflowError] when the quotient is beyond the range of [float]. *)
Definition int_truediv (a b : Z) : result float :=
  if b =? 0 then Raise ZeroDivisionError
  else
    match SFdiv prec emax (exact_int a) (exact_int b) with
    | S754_infinity _ => Raise OverflowError
    | q => Return q
    end.

(** Arithmetic on floats does not raise: it overflows to an infinity. *)
Definition float_add : float -> float -> float := SFadd prec emax.
Definition float_mul : float -> float -> float := SFmul prec emax.
Definition float_div : float -> float -> float := SFdiv prec emax.

Definition zero : float := S754_zero false.
Definition negative_zero : float := S754_zero true.

(** *** The sum of a [float64] array in numpy *)

(** numpy adds the elements of an array pairwise: up to 7 elements one
    after the other; up to [PW_BLOCKSIZE] elements into eight accumulators,
    which take the elements of every full group of eight and are then added
    up as a tree, the elements after the last full group being added to the
    result one after the other; a longer array in two halves, the first of
    a length that is a multiple of eight. *)
Definition PW_BLOCKSIZE : nat := 128.

(** The loop over the full groups of eight after the first: [r] are the
    accumulators; the result is the accumulators and the elements left. *)
Fixpoint accumulate (r : list float) (a : list float) {struct a}
  : list float * list float :=
  match a with
  | a0 :: a1 :: a2 :: a3 :: a4 :: a5 :: a6 :: a7 :: rest =>
      accumulate (zip_with float_add r [a0; a1; a2; a3; a4; a5; a6; a7]) rest
  | _ => (r, a)
  end.

Definition add_up (r : list float) : float :=
  match r with
  | [r0; r1; r2; r3; r4; r5; r6; r7] =>
      float_add
        (float_add (float_add r0 r1) (float_add r2 r3))
        (float_add (float_add r4 r5) (float_add r6 r7))
  | _ => fold_left float_add r negative_zero
  end.

(** An array of 8 to [PW_BLOCKSIZE] elements. *)
Definition sum_block (a : list float) : float :=
  let '(r, rest) := accumulate (take 8 a) (drop 8 a) in
  fold_left float_add rest (add_up r).

(** [depth] bounds the number of times that the array is halved. *)
Fixpoint pairwise_sum_halving (depth : nat) (a : list float) : float :=
  let n := length a in
  if (n <? 8)%nat then fold_left float_add a negative_zero
  else if (n <=? PW_BLOCKSIZE)%nat then sum_block a
  else
    match depth with
    | O => sum_block a
    | S depth =>
        let n2 := (n / 2 - (n / 2) mod 8)%nat in
        float_add (pairwise_sum_halving depth (take n2 a))
                  (pairwise_sum_halving depth (drop n2 a))
    end.

(** An array of [n] elements is halved fewer than [n] times. *)
Definition pairwise_sum (a : list float) : float :=
  pairwise_sum_halving (length a) a.

(** [np.add.reduce]: the sum is added to the identity of the addition. *)
Definition np_sum (l : list float) : float := float_add zero (pairwise_sum l).

(** [np.mean(l)]: the sum divided by the count. *)
Definition np_mean (l : list float) : float :=
  float_div (np_sum l) (float_of_int (len l)).

(** *** The statistics of the sidebar *)

(** The accuracy of one card, as the statistics take it:
    [card.correct/card.reviews if card.reviews > 0 else 0]. *)
Definition card_accuracy (card : Flashcard) : result float :=
  if 0 <? reviews card
  then int_truediv (correct card) (reviews card)
  else Return (float_of_int 0).

(** Line 104: the list of the accuracies is built first, card by card. *)
Definition average_accuracy (cards : list Flashcard) : result float :=
  accuracies ← comprehension card_accuracy cards;
  Return (float_mul (np_mean accuracies) (float_of_int 100)).

(** What lines 102 to 105 compute, in this order; the third can raise. *)
Record statistics : Type := mk_statistics {
  total_cards : Z;
  total_reviews : Z;
  avg_accuracy : result float
}.

Definition sum_Z (l : list Z) : Z := fold_left Z.add l 0.

(** The "Study Statistics" block of the sidebar; nothing is computed for an
    empty card list. *)
Definition study_statistics (cards : list Flashcard) : option statistics :=
  match cards with
  | [] => None
  | _ =>
      Some (mk_statistics
              (len cards)
              (sum_Z (reviews <$> cards))
              (average_accuracy cards))
  end.

(** One bar of the "Word-wise Performance" chart: the word and
    [(card.correct/card.reviews)*100 if card.reviews > 0 else 0]. *)
Definition bar (card : Flashcard) : result (string * float) :=
  accuracy ← (if 0 <? reviews card
              then q ← int_truediv (correct card) (reviews card);
                   Return (float_mul q (float_of_int 100))
              else Return (float_of_int 0));
  Return (word card, accuracy).

(** The bars of the chart, one per card. The chart is drawn inside the
    statistics block, when the total of the reviews is positive; [None]
    when it is not drawn. *)
Definition performance_chart (cards : list Flashcard)
  : result (option (list (string * float))) :=
  match cards with
  | [] => Return None
  | _ =>
      let total_reviews := sum_Z (reviews <$> cards) in
      if 0 <? total_reviews
      then bars ← comprehension bar cards; Return (Some bars)
      else Return None
  end.

(** Lines 101 to 121: the metrics, then the chart. *)
Definition statistics_block (cards : list Flashcard) : result unit :=
  match study_statistics cards with
  | None => Return tt
  | Some st => _ ← avg_accuracy st; _ ← performance_chart cards; Return tt
  end.

(** ** Due cards *)

(** The comprehension of line 128,
    [[card for card in cards if card.next_review <= datetime.now()]],
    evaluates [datetime.now()] once for every card: [now i] is what the
    clock reads when the card at position [i] is tested. The objects that
    it selects are known by their positions in [cards]. *)
Definition due_objects (cards : list Flashcard) (now : nat -> datetime)
  : list (nat * Flashcard) :=
  filter (λ ic, datetime_le (next_review ic.2) (now ic.1) = true) (imap pair cards).

Definition due_cards (cards : list Flashcard) (now : nat -> datetime)
  : list Flashcard :=
  (due_objects cards now).*2.

(** A sequence of review outcomes applied to one card object, each at its
    own clock reading; the object keeps the state every call leaves. *)
Definition review (card : Flashcard) (outcome : bool * datetime) : Flashcard :=
  (update_card_status card outcome.1 outcome.2).1.

Definition reviews_of (card : Flashcard) (outcomes : list (bool * datetime))
  : Flashcard :=
  fold_left review outcomes card.

(** ** The script: session state, the three tabs, a run *)

(** What [st.session_state] holds under a key. *)
Inductive value : Type :=
| VNone
| VInt (z : Z)
| VCard (card : Flashcard)
| VList (l : list value)
| VDict (d : gmap string value).

(** [if key not in st.session_state: st.session_state.key = v]. *)
Definition set_if_absent (key : string) (v : value) (s : gmap string value)
  : gmap string value :=
  match s !! key with
  | Some _ => s
  | None => <[key := v]> s
  end.

(** Lines 10 to 21, which every run of the script starts with. *)
Definition init_session_state (s : gmap string value) : gmap string value :=
  let s := set_if_absent "current_card" VNone s in
  let s := set_if_absent "cards_due" (VList []) s in
  let s := set_if_absent "progress" (VDict ∅) s in
  let s := set_if_absent "quiz_score" (VInt 0) s in
  let s := set_if_absent "total_reviews" (VInt 0) s in
  set_if_absent "view_index" (VInt 0) s.

(** What ends a run before its last line: an exception of the functions
    above, or the exception with which [st.rerun()] leaves the script. *)
Inductive stop : Type :=
| Exception (e : exn)
| RerunException.

Inductive ended (A : Type) : Type :=
| Finished (a : A)
| Stopped (why : stop).
Arguments Finished {A} a.
Arguments Stopped {A} why.

(** What a run works on beside its local variables: the session state, the
    snapshot file and the random generator. *)
Record world : Type := mk_world {
  session : gmap string value;
  disk : file;
  entropy : rng
}.

(** A piece of the script: it changes the world and finishes with a value
    or stops; what it changed before it stopped stays changed. Drawing
    calls ([st.title], [st.header], [st.metric], [st.success], ...) change
    nothing of the world and are left out. *)
Definition action (A : Type) : Type := world -> world * ended A.

#[global] Instance action_ret : MRet action := fun A a w => (w, Finished a).
#[global] Instance action_bind : MBind action := fun A B k m w =>
  match m w with
  | (w, Finished a) => k a w
  | (w, Stopped why) => (w, Stopped why)
  end.

Definition lift {A : Type} (r : result A) : action A := fun w =>
  match r with
  | Return a => (w, Finished a)
  | Raise e => (w, Stopped (Exception e))
  end.

(** [st.session_state.key], read and assigned. *)
Definition getattr (key : string) : action value := fun w =>
  lift (match session w !! key with
        | Some v => Return v
        | None => Raise AttributeError
        end) w.

Definition setattr (key : string) (v : value) : action unit := fun w =>
  (mk_world (<[key := v]> (session w)) (disk w) (entropy w), Finished tt).

(** [st.rerun()]. *)
Definition rerun : action unit := fun w => (w, Stopped RerunException).

(** An [int] is expected where a value is added to or indexes a list, a
    card where its attributes are read. *)
Definition value_int (v : value) : result Z :=
  match v with VInt z => Return z | _ => Raise TypeError end.
Definition value_card (v : value) : result Flashcard :=
  match v with VCard c => Return c | _ => Raise AttributeError end.

(** [st.session_state.key += n]. *)
Definition iadd (key : string) (n : Z) : action unit :=
  v ← getattr key; z ← lift (value_int v); setattr key (VInt (z + n)).

(** [a / b] on [int]s. *)
Definition truediv (a b : Z) : action float := lift (int_truediv a b).

(** [random.choice(seq)]. *)
Definition random_choice {A : Type} (seq : list A) (g : rng) : result (A * rng) :=
  match seq with
  | [] => Raise IndexError
  | _ =>
      let '(i, g) := randbelow (length seq) g in
      x ← list_getitem seq (Z.of_nat i); Return (x, g)
  end.

Definition choice {A : Type} (seq : list A) : action A := fun w =>
  match random_choice seq (entropy w) with
  | Return (x, g) => (mk_world (session w) (disk w) g, Finished x)
  | Raise e => (w, Stopped (Exception e))
  end.

(** The functions of the program, on the file and the generator of the run. *)
Definition load (now : datetime) : action (list Flashcard) := fun w =>
  lift (load_cards now (disk w)) w.

Definition save (cards : list Flashcard) : action unit := fun w =>
  let '(f, r) := save_cards cards (disk w) in
  lift r (mk_world (session w) f (entropy w)).

Definition add (word translation : string) (now : datetime)
    (cards : list Flashcard) : action (list Flashcard) := fun w =>
  let '(cards, f, _, r) := add_card word translation now cards (disk w) in
  lift (_ ← r; Return cards) (mk_world (session w) f (entropy w)).

Definition quiz (cards : list Flashcard) (current_word : string)
  : action (list string * string) := fun w =>
  match create_quiz cards current_word (entropy w) with
  | Return (options, correct_answer, g) =>
      (mk_world (session w) (disk w) g, Finished (options, correct_answer))
  | Raise e => (w, Stopped (Exception e))
  end.

(** What the widgets return in one run: the texts typed into the form, for
    every button whether it was clicked, and the option that the radio
    group has selected among those it is given. Every combination is a
    value of this type, so what holds for all values holds for every run.
    Streamlit produces those in which at most one button is clicked
    ([one_click] below): a button returns [True] only in the run that its
    own click started. *)
Record widgets : Type := mk_widgets {
  word_input : string;
  translation_input : string;
  add_card_button : bool;
  show_translation_button : bool;
  remembered_button : bool;
  forgot_button : bool;
  radio : list string -> string;
  submit_answer_button : bool;
  next_question_button : bool;
  previous_button : bool;
  next_button : bool
}.

(** What [datetime.now()] reads at each of its call sites in one run: in
    [load_cards] (through [Flashcard.__init__]), in the form, in the
    selection of the due cards (once for every card, by position), in
    [update_card_status]. *)
Record clock : Type := mk_clock {
  at_load : datetime;
  at_add : datetime;
  at_due : nat -> datetime;
  at_review : datetime
}.

(** The handler of the two review buttons. [card] is the object that the
    session holds as its current card; when it was picked in this run, it is
    also the object at [position] in [cards], and the list sees what
    [update_card_status] assigns. The cards of a run are created by its
    [load_cards()], so a card that the session has kept from an earlier run
    is none of them. *)
Definition review_button (card : Flashcard) (position : option nat)
    (was_correct : bool) (cards : list Flashcard) (now : datetime) : action unit :=
  let '(card, r) := update_card_status card was_correct now in
  _ ← setattr "current_card" (VCard card);
  let cards :=
    match position with
    | Some i => <[i := card]> cards
    | None => cards
    end in
  _ ← lift r;
  _ ← save cards;
  _ ← setattr "current_card" VNone;
  rerun.

(** The "Review Cards" tab. *)
Definition review_tab (ui : widgets) (t : clock) (cards : list Flashcard)
  : action unit :=
  match due_objects cards (at_due t) with
  | [] => mret tt
  | due =>
      current ← getattr "current_card";
      position ← match current with
                 | VNone =>
                     ic ← choice due;
                     _ ← setattr "current_card" (VCard ic.2);
                     mret (Some ic.1)
                 | _ => mret None
                 end;
      v ← getattr "current_card";
      card ← lift (value_card v);
      if show_translation_button ui
      then
        _ ← (if remembered_button ui
             then review_button card position true cards (at_review t)
             else mret tt);
        _ ← (if forgot_button ui
             then review_button card position false cards (at_review t)
             else mret tt);
        mret tt
      else mret tt
  end.

(** The body of [if st.button("Submit Answer"):]. *)
Definition submit_answer (ui : widgets) (user_answer correct_answer : string)
  : action unit :=
  _ ← (if decide (user_answer = correct_answer)
       then iadd "quiz_score" 1
       else mret tt);
  _ ← iadd "total_reviews" 1;
  _ ← setattr "current_card" VNone;
  score ← getattr "quiz_score";
  total ← getattr "total_reviews";
  q ← lift (value_int score);
  n ← lift (value_int total);
  accuracy ← truediv q n;
  let accuracy := float_mul accuracy (float_of_int 100) in
  if next_question_button ui then rerun else mret tt.

(** The "Quiz Mode" tab. *)
Definition quiz_tab (ui : widgets) (cards : list Flashcard) : action unit :=
  match cards with
  | [] => mret tt
  | _ =>
      current ← getattr "current_card";
      _ ← match current with
          | VNone => c ← choice cards; setattr "current_card" (VCard c)
          | _ => mret tt
          end;
      v ← getattr "current_card";
      card ← lift (value_card v);
      '(options, correct_answer) ← quiz cards (word card);
      let user_answer := radio ui options in
      if submit_answer_button ui
      then submit_answer ui user_answer correct_answer
      else mret tt
  end.

(** The bodies of [if st.button("Previous"):] and [if st.button("Next"):]. *)
Definition previous_card : action unit :=
  v ← getattr "view_index";
  i ← lift (value_int v);
  _ ← setattr "view_index" (VInt (Z.max 0 (i - 1)));
  rerun.

Definition next_card (cards : list Flashcard) : action unit :=
  v ← getattr "view_index";
  i ← lift (value_int v);
  _ ← setattr "view_index" (VInt (Z.min (len cards - 1) (i + 1)));
  rerun.

(** The "View Flashcards" tab. *)
Definition view_tab (ui : widgets) (cards : list Flashcard) : action unit :=
  match cards with
  | [] => mret tt
  | _ =>
      v ← getattr "view_index";
      i ← lift (value_int v);
      card ← lift (list_getitem cards i);
      _ ← (if previous_button ui then previous_card else mret tt);
      _ ← (if next_button ui then next_card cards else mret tt);
      mret tt
  end.

(** [main()]: the cards are loaded, the form is handled, the statistics
    are computed and drawn, then the three tabs run in their order. *)
Definition main (ui : widgets) (t : clock) : action unit :=
  cards ← load (at_load t);
  cards ← (if add_card_button ui
           then add (word_input ui) (translation_input ui) (at_add t) cards
           else mret cards);
  _ ← lift (statistics_block cards);
  _ ← review_tab ui t cards;
  _ ← quiz_tab ui cards;
  view_tab ui cards.

(** One run of the script. *)
Definition script (ui : widgets) (t : clock) : action unit := fun w =>
  main ui t (mk_world (init_session_state (session w)) (disk w) (entropy w)).

(** Streamlit runs the script again on every interaction; the session state
    and the file are what one run leaves to the next. *)
Fixpoint visit (steps : list (widgets * clock)) (w : world)
  : world * list (ended unit) :=
  match steps with
  | [] => (w, [])
  | (ui, t) :: steps =>
      let '(w, r) := script ui t w in
      let '(w, rs) := visit steps w in
      (w, r :: rs)
  end.

(** ** Vocabulary of the properties *)

(** The level that an outcome leads to. *)
Definition level_after (card : Flashcard) (was_correct : bool) : Z :=
  if was_correct
  then Z.min (level card + 1) (len INTERVALS - 1)
  else Z.max (level card - 1) 0.

(** A clock reading from which every interval can be added within the
    years of [datetime]. *)
Definition clock_reading (now : datetime) : Prop :=
  datetime_check now = true /\ toordinal now + 90 <= MAXORDINAL.

(** The invariant of the data model. *)
Definition card_invariant (card : Flashcard) : Prop :=
  0 <= level card <= len INTERVALS - 1 /\ 0 <= correct card <= reviews card.

(** How often [t] occurs in [l]. *)
Definition occurrences (t : string) (l : list string) : nat :=
  length (filter (λ x, x = t) l).


(** The file is one that the process may read and write, or create. *)
Definition accessible (f : file) : bool :=
  match f with
  | Absent | Holds _ => true
  | _ => false
  end.

(** The process may write the file, or create it. *)
Definition writable (f : file) : bool :=
  match f with
  | Absent | Holds _ | WriteOnly _ => true
  | _ => false
  end.

(** The due cards in the words of the specification: [select_due] at time
    [t] is the cards with [next_review <= t]. *)
Definition is_due (card : Flashcard) (now : datetime) : bool :=
  datetime_le (next_review card) now.

Definition select_due (cards : list Flashcard) (t : datetime) : list Flashcard :=
  filter (λ card, is_due card t = true) cards.

(** The average accuracy in the words of the specification: the mean over
    all cards of [correct / reviews], a card without reviews counting as 0,
    times 100; the quotients, the sum (taken from the first card to the
    last) and the mean in double precision, every operation correctly
    rounded. *)
Definition accuracy_or_zero (card : Flashcard) : float :=
  if reviews card =? 0
  then zero
  else SFdiv prec emax (exact_int (correct card)) (exact_int (reviews card)).

Definition mean_accuracy_percent (cards : list Flashcard) : float :=
  SFmul prec emax
    (SFdiv prec emax
       (fold_left (SFadd prec emax) (accuracy_or_zero <$> cards) zero)
       (float_of_int (len cards)))
    (float_of_int 100).

(** A float that is not negative and not a NaN. *)
Definition not_negative (x : float) : Prop :=
  match x with
  | S754_zero false | S754_infinity false | S754_finite false _ _ => True
  | _ => False
  end.

(** [x] is a sum of the elements of [l]: the value of additions in double
    precision that take every element of [l] once, in some order and
    grouping. *)
Inductive addition_of : list float -> float -> Prop :=
| addition_one (x : float) : addition_of [x] x
| addition_plus (l1 l2 : list float) (x1 x2 : float) :
    addition_of l1 x1 -> addition_of l2 x2 ->
    addition_of (l1 ++ l2) (SFadd prec emax x1 x2)
| addition_Permutation (l l' : list float) (x : float) :
    l ≡ₚ l' -> addition_of l x -> addition_of l' x.

(** What Streamlit lets the buttons return in one run: at most one of them
    is clicked. *)
Definition buttons (ui : widgets) : list bool :=
  [add_card_button ui; show_translation_button ui; remembered_button ui;
   forgot_button ui; submit_answer_button ui; next_question_button ui;
   previous_button ui; next_button ui].

Definition one_click (ui : widgets) : Prop :=
  (length (filter (λ b, b = true) (buttons ui)) <= 1)%nat.

(** The widget values of [ui] with no review button clicked. *)
Definition without_review (ui : widgets) : widgets :=
  mk_widgets (word_input ui) (translation_input ui) (add_card_button ui)
    (show_translation_button ui) false false (radio ui)
    (submit_answer_button ui) (next_question_button ui)
    (previous_button ui) (next_button ui).

(** The session state of a run that found no key set. *)
Definition default_session : gmap string value :=
  <["current_card" := VNone]> (
  <["cards_due" := VList []]> (
  <["progress" := VDict ∅]> (
  <["quiz_score" := VInt 0]> (
  <["total_reviews" := VInt 0]> (
  <["view_index" := VInt 0]> ∅))))).

(** What a submitted answer leaves in the session, [right] telling whether
    it was the correct one, [q] and [n] being the counters before. *)
Definition submitted (right : bool) (q n : Z) (s : gmap string value)
  : gmap string value :=
  <["current_card" := VNone]> (
  <["total_reviews" := VInt (n + 1)]> (
  if right then <["quiz_score" := VInt (q + 1)]> s else s)).

(** The index that the view tab leaves, from index [i]. *)
Definition shown_index (ui : widgets) (cards : list Flashcard) (i : Z) : Z :=
  if previous_button ui then Z.max 0 (i - 1)
  else if next_button ui then Z.min (len cards - 1) (i + 1)
  else i.

(** A card of the data model, with a datetime value as its review date:
    [save_cards] writes it so that [load_cards] reads it,
    [update_card_status] finds its interval, and its accuracy is at most
    1. *)
Definition card_ok (c : Flashcard) : Prop :=
  datetime_check (next_review c) = true /\ card_invariant c.

(** What [save_cards] writes for a list of cards. The cards are [stored]
    in a file that the process may read and write and that holds what
    [save_cards] wrote for them; a file that is not there, and that the
    process may create, stands for the empty list. *)
Definition snapshot (cards : list Flashcard) : text :=
  json_dump (JList (JObj <$> (to_dict <$> cards))).

Definition stored (f : file) (cards : list Flashcard) : Prop :=
  (f = Absent /\ cards = []) \/ f = Holds (snapshot cards).

(** The invariant of the page, for the cards that the file holds: the
    current card is [None] or a card with a word of the list; the score
    counts some of the answers; the view index is a position of the list. *)
Definition current_ok (v : value) (cards : list Flashcard) : Prop :=
  v = VNone
  \/ exists c, v = VCard c /\ word c ∈ word <$> cards
               /\ 0 <= level c <= len INTERVALS - 1.

Definition ready (s : gmap string value) (cards : list Flashcard) : Prop :=
  exists (current : value) (q n i : Z),
    s !! "current_card" = Some current /\ current_ok current cards
    /\ s !! "quiz_score" = Some (VInt q)
    /\ s !! "total_reviews" = Some (VInt n) /\ 0 <= q <= n
    /\ s !! "view_index" = Some (VInt i) /\ 0 <= i <= Z.max 0 (len cards - 1).

Definition located (cards : list Flashcard) (w : world) : Prop :=
  stored (disk w) cards /\ Forall card_ok cards /\ ready (session w) cards.

Definition page_ok (w : world) : Prop :=
  exists cards, located cards
    (mk_world (init_session_state (session w)) (disk w) (entropy w)).

(** A run that finished or ended in [st.rerun()], not in an exception. *)
Definition quiet {A : Type} (r : ended A) : Prop :=
  match r with
  | Finished _ | Stopped RerunException => True
  | Stopped _ => False
  end.

(** The clock readings of a run are datetime values, and every interval
    can be added to the one of a review. *)
Definition clock_ok (t : clock) : Prop :=
  datetime_check (at_add t) = true /\ clock_reading (at_review t).

(** An action that leaves the snapshot file as it is, however it ends. *)
Definition keeps_disk {A : Type} (m : action A) : Prop :=
  forall w, disk (m w).1 = disk w.

(** ** Sample data *)

(** A clock reading, five cards, a source of draws and three snapshot
    records: one written before the counters existed, one dated the 30th of
    February, one without its word. *)
Definition noon : datetime := mk_datetime 2024 2 27 12 0 0 250000.

Definition casa : Flashcard := new_card "casa" "house" noon.

Definition perro : Flashcard :=
  mk_Flashcard "perro" "dog" 3 (mk_datetime 2024 3 12 8 30 0 0) 7 5.

Definition gato : Flashcard := new_card "gato" "cat" noon.

Definition sol : Flashcard := new_card "sol" "sun" noon.

Definition luna : Flashcard := new_card "luna" "moon" noon.

(** "casa" after four reviews, two of them correct. *)
Definition half_known : Flashcard := set_correct 2 (set_reviews 4 casa).

Definition deck : list Flashcard := [casa; perro; gato; sol; luna].

Definition draws : rng := [3; 1; 4; 1; 5; 9]%nat.

Definition old_record : gmap string json :=
  <["word" := JStr "gato"]> (
  <["translation" := JStr "cat"]> (
  <["level" := JInt 2]> (
  <["next_review" := JStr "2024-03-01T09:15:00.500000"]> (
  <["correct" := JInt 4]> ∅)))).



(** A clock that reads noon at every call; a radio group left on its first
    option; widget values of runs in which nothing is clicked, both "Show
    Translation" and "I remembered it" are clicked, an answer is submitted,
    the view tab is paged forward, the translation is asked for, and a card
    is added; the snapshot of the deck. *)
Definition at_noon : clock := mk_clock noon noon (λ _, noon) noon.

Definition first_option (options : list string) : string :=
  default EmptyString (head options).

Definition idle : widgets :=
  mk_widgets EmptyString EmptyString false false false false first_option
    false false false false.

Definition remembering : widgets :=
  mk_widgets EmptyString EmptyString false true true false first_option
    false false false false.

Definition answering : widgets :=
  mk_widgets EmptyString EmptyString false false false false first_option
    true false false false.

Definition paging : widgets :=
  mk_widgets EmptyString EmptyString false false false false first_option
    false false false true.

Definition revealing : widgets :=
  mk_widgets EmptyString EmptyString false true false false first_option
    false false false false.

Definition adding : widgets :=
  mk_widgets "flor" "flower" true false false false first_option
    false false false false.

(** A click on "I remembered it", as it reaches the script: in a run of
    its own, in which "Show Translation" is not clicked. *)
Definition clicking_remembered : widgets :=
  mk_widgets EmptyString EmptyString false false true false first_option
    false false false false.

(** Two cards due at the same microsecond, and a clock that reaches that
    microsecond between the tests of the first and of the second. *)
Definition midnight : datetime := mk_datetime 2024 3 1 0 0 0 0.
Definition just_before_midnight : datetime := mk_datetime 2024 2 29 23 59 59 999999.

Definition uno : Flashcard := mk_Flashcard "uno" "one" 1 midnight 1 1.
Definition dos : Flashcard := mk_Flashcard "dos" "two" 1 midnight 1 1.

Definition ticking (i : nat) : datetime :=
  match i with
  | O => just_before_midnight
  | S _ => midnight
  end.

(** The last day of the calendar, and a card with more correct answers
    than a [float] can count. *)
Definition last_day : datetime := mk_datetime 9999 12 31 12 0 0 0.

Definition overcounted : Flashcard :=
  mk_Flashcard "mil" "thousand" 0 noon 1 (2 ^ 1100).

Definition shelf : file := Holds (snapshot deck).

(* ===================================================================== *)
(** * Part II: properties                                                 *)
(* ===================================================================== *)

(** ** ISO-8601 text is read back as written *)

Lemma digit_value_char (n : Z) :
  0 <= n < 10 -> digit_value (digit_char n) = Some n.
Proof.
  intros Hn. unfold digit_value, digit_char.
  rewrite nat_ascii_embedding by lia.
  destruct (Z.leb_spec 48 (Z.of_nat (48 + Z.to_nat n))) as [_ | ?]; [| lia].
  destruct (Z.leb_spec (Z.of_nat (48 + Z.to_nat n)) 57) as [_ | ?]; [| lia].
  cbn [andb]. f_equal. lia.
Qed.

Lemma get_put_digits_more (w : nat) :
  forall (k : nat) (n acc : Z) (rest : string),
    0 <= n < 10 ^ Z.of_nat w ->
    get_digits (w + k) acc (put_digits w n rest)
    = get_digits k (acc * 10 ^ Z.of_nat w + n) rest.
Proof.
  induction w as [| w IH]; intros k n acc rest Hn.
  - simpl in *. f_equal. lia.
  - rewrite Nat2Z.inj_succ, Z.pow_succ_r in Hn by lia.
    cbn [put_digits].
    replace (S w + k)%nat with (w + S k)%nat by lia.
    rewrite IH by (split; [apply Z.div_pos; lia | apply Z.div_lt_upper_bound; lia]).
    cbn [get_digits].
    rewrite digit_value_char by (apply Z.mod_pos_bound; lia).
    f_equal.
    rewrite Nat2Z.inj_succ, Z.pow_succ_r by lia.
    pose proof (Z.div_mod n 10). lia.
Qed.

Lemma get_put_digits (w : nat) (n : Z) (rest : string) :
  0 <= n < 10 ^ Z.of_nat w ->
  get_digits w 0 (put_digits w n rest) = Some (n, rest).
Proof.
  intros Hn.
  pose proof (get_put_digits_more w 0 n 0 rest Hn) as H.
  rewrite Nat.add_0_r in H. rewrite H. reflexivity.
Qed.

Lemma days_in_month_le_31 (y m : Z) : days_in_month y m <= 31.
Proof.
  unfold days_in_month, table.
  destruct ((m =? 2) && is_leap y); [lia |].
  generalize (Z.to_nat m). intros k.
  do 14 (destruct k as [| k]; [simpl; lia |]). simpl. lia.
Qed.

(** The ranges that [datetime_check] enforces. *)
Lemma datetime_check_bounds (d : datetime) :
  datetime_check d = true ->
  1 <= year d <= 9999 /\ 1 <= month d <= 12 /\ 1 <= day d <= 31
  /\ 0 <= hour d < 24 /\ 0 <= minute d < 60 /\ 0 <= second d < 60
  /\ 0 <= microsecond d < 1000000.
Proof.
  unfold datetime_check, MINYEAR, MAXYEAR. intros H.
  repeat (apply andb_prop in H; destruct H as [H ?]).
  pose proof (days_in_month_le_31 (year d) (month d)).
  lia.
Qed.

Lemma parse_isoformat_isoformat (d : datetime) :
  datetime_check d = true -> parse_isoformat (isoformat d) = Some d.
Proof.
  intros Hd.
  destruct (datetime_check_bounds d Hd) as (Hy & Hm & Hdd & Hh & Hmi & Hs & Hus).
  destruct d as [y m dd hh mi ss us].
  cbn [year month day hour minute second microsecond] in *.
  unfold parse_isoformat, isoformat.
  cbn [year month day hour minute second microsecond].
  do 6 (rewrite get_put_digits by (simpl; lia);
        cbn [mbind option_bind expect Ascii.eqb Bool.eqb]).
  destruct (Z.eqb_spec us 0) as [-> | Hne].
  - reflexivity.
  - cbn [parse_fraction Ascii.eqb Bool.eqb].
    rewrite get_put_digits by (simpl; lia). reflexivity.
Qed.

Lemma fromisoformat_isoformat (d : datetime) :
  datetime_check d = true -> fromisoformat (isoformat d) = Return d.
Proof.
  intros Hd. unfold fromisoformat.
  rewrite parse_isoformat_isoformat by exact Hd. rewrite Hd. reflexivity.
Qed.

(** ** The calendar: comparing datetimes is comparing instants *)

Lemma days_before_year_succ (y : Z) :
  days_before_year (y + 1) = days_before_year y + 365 + leap_day y.
Proof.
  unfold days_before_year, leap_day, is_leap.
  replace (y + 1 - 1) with y by lia.
  destruct (Z.eqb_spec (y mod 4) 0), (Z.eqb_spec (y mod 100) 0),
    (Z.eqb_spec (y mod 400) 0); cbn [andb orb negb];
    Z.to_euclidean_division_equations; lia.
Qed.

Lemma days_before_year_mono (y y' : Z) :
  y <= y' -> days_before_year y <= days_before_year y'.
Proof.
  intros H. pattern y'. apply (Zlt_lower_bound_ind _ y); [| exact H].
  intros x IH Hx. destruct (Z.eq_dec x y) as [-> | Hne]; [lia |].
  specialize (IH (x - 1) ltac:(lia)).
  pose proof (days_before_year_succ (x - 1)) as Hs.
  replace (x - 1 + 1) with x in Hs by lia.
  unfold leap_day in Hs. destruct (is_leap (x - 1)); lia.
Qed.

(** Day of the year of a checked date. *)
Lemma day_of_year_bounds (y m d : Z) :
  1 <= m <= 12 -> 1 <= d <= days_in_month y m ->
  1 <= days_before_month y m + d <= 365 + leap_day y.
Proof.
  unfold days_before_month, days_in_month, leap_day, table.
  intros Hm Hd.
  replace m with (Z.of_nat (Z.to_nat m)) in * by lia.
  generalize dependent (Z.to_nat m). intros k Hm Hd.
  do 13 (destruct k as [| k]; [destruct (is_leap y); simpl in *; lia |]).
  lia.
Qed.

Lemma day_of_year_mono (y m d m' d' : Z) :
  1 <= m <= 12 -> 1 <= d <= days_in_month y m ->
  1 <= m' <= 12 -> 1 <= d' ->
  m < m' -> days_before_month y m + d < days_before_month y m' + d'.
Proof.
  unfold days_before_month, days_in_month, table.
  intros Hm Hd Hm' Hd' Hlt.
  replace m with (Z.of_nat (Z.to_nat m)) in * by lia.
  replace m' with (Z.of_nat (Z.to_nat m')) in * by lia.
  generalize dependent (Z.to_nat m'). generalize dependent (Z.to_nat m).
  intros k Hk Hd k' Hk' Hlt.
  do 13 (destruct k as [| k]; [
    do 13 (destruct k' as [| k']; [destruct (is_leap y); simpl in *; lia |]); lia |]).
  lia.
Qed.

Lemma datetime_check_date (d : datetime) :
  datetime_check d = true ->
  1 <= month d <= 12 /\ 1 <= day d <= days_in_month (year d) (month d).
Proof.
  unfold datetime_check. intros H.
  repeat (apply andb_prop in H; destruct H as [H ?]). lia.
Qed.

(** The ordinal of a checked date grows with (year, month, day). *)
Lemma toordinal_lt (a b : datetime) :
  datetime_check a = true -> datetime_check b = true ->
  year a < year b
  \/ year a = year b
     /\ (month a < month b \/ month a = month b /\ day a < day b) ->
  toordinal a < toordinal b.
Proof.
  intros Ha Hb.
  destruct (datetime_check_date a Ha) as [Hma Hda].
  destruct (datetime_check_date b Hb) as [Hmb Hdb].
  unfold toordinal, ymd2ord.
  intros [Hy | [Hy [Hm | [Hm Hd]]]].
  - pose proof (day_of_year_bounds (year a) (month a) (day a) Hma Hda).
    pose proof (day_of_year_bounds (year b) (month b) (day b) Hmb Hdb).
    pose proof (days_before_year_succ (year a)).
    pose proof (days_before_year_mono (year a + 1) (year b)). lia.
  - rewrite Hy in *.
    pose proof (day_of_year_mono (year b) (month a) (day a) (month b) (day b)). lia.
  - rewrite Hy, Hm. lia.
Qed.

(** On checked datetimes the comparison of the fields is the comparison of
    the instants. *)
Lemma datetime_cmp_timestamp (a b : datetime) :
  datetime_check a = true -> datetime_check b = true ->
  datetime_cmp a b = (timestamp a ?= timestamp b).
Proof.
  intros Ha Hb.
  pose proof (toordinal_lt a b Ha Hb) as Hab.
  pose proof (toordinal_lt b a Hb Ha) as Hba.
  destruct (datetime_check_bounds a Ha) as (_ & _ & _ & ? & ? & ? & ?).
  destruct (datetime_check_bounds b Hb) as (_ & _ & _ & ? & ? & ? & ?).
  assert (Heq : year a = year b -> month a = month b -> day a = day b ->
                toordinal a = toordinal b)
    by (unfold toordinal; intros -> -> ->; reflexivity).
  unfold datetime_cmp, timestamp. symmetry.
  repeat match goal with
         | |- context [?x ?= ?y] =>
             lazymatch x with
             | context [toordinal] => fail
             | _ => destruct (Z.compare_spec x y)
             end
         end;
    first [ apply Z.compare_eq_iff | apply Z.compare_lt_iff | apply Z.compare_gt_iff ];
    lia.
Qed.

Lemma datetime_le_timestamp (a b : datetime) :
  datetime_check a = true -> datetime_check b = true ->
  datetime_le a b = true <-> timestamp a <= timestamp b.
Proof.
  intros Ha Hb. unfold datetime_le.
  rewrite (datetime_cmp_timestamp a b Ha Hb).
  destruct (Z.compare_spec (timestamp a) (timestamp b)); split; (lia || done).
Qed.

(** ** The calendar: ordinals and dates are inverse *)

Lemma all_from_spec (f : Z -> bool) (k : nat) :
  forall i, all_from f k i = true -> forall r, i <= r < i + Z.of_nat k -> f r = true.
Proof.
  induction k as [| k IH]; intros i H r Hr; [lia |].
  cbn [all_from] in H. destruct (f i) eqn:Hi; [| discriminate].
  destruct (Z.eq_dec r i) as [-> | Hne]; [exact Hi |].
  apply (IH (i + 1) H). lia.
Qed.

Lemma month_day_checked (leapyear : bool) (n : Z) :
  0 <= n < 365 + (if leapyear then 1 else 0) -> month_day_ok leapyear n = true.
Proof.
  intros Hn. destruct leapyear.
  - apply (all_from_spec (month_day_ok true) 366 0);
      [vm_compute; reflexivity | lia].
  - apply (all_from_spec (month_day_ok false) 365 0);
      [vm_compute; reflexivity | lia].
Qed.

(** The quotients of [ord2ymd]: 400-year, 100-year and 4-year cycles and
    years, and the day of the year that remains. *)
Lemma year_split (n0 : Z) :
  let n400 := n0 / DI400Y in let r400 := n0 mod DI400Y in
  let n100 := r400 / DI100Y in let r100 := r400 mod DI100Y in
  let n4 := r100 / DI4Y in let r4 := r100 mod DI4Y in
  let n1 := r4 / 365 in let r1 := r4 mod 365 in
  0 <= n100 <= 4 /\ 0 <= n4 <= 24 /\ 0 <= n1 <= 4 /\ 0 <= r1 < 365
  /\ (n100 = 4 -> n4 = 0 /\ n1 = 0 /\ r1 = 0)
  /\ (n1 = 4 -> r1 = 0 /\ n4 <= 23)
  /\ n0 = n400 * DI400Y + n100 * DI100Y + n4 * DI4Y + n1 * 365 + r1.
Proof.
  unfold DI400Y, DI100Y, DI4Y. cbv zeta.
  Z.to_euclidean_division_equations. lia.
Qed.

Lemma days_before_year_split (n400 n100 n4 n1 : Z) :
  0 <= n100 <= 3 -> 0 <= n4 <= 24 -> 0 <= n1 <= 3 ->
  days_before_year (n400 * 400 + 1 + n100 * 100 + n4 * 4 + n1)
  = n400 * DI400Y + n100 * DI100Y + n4 * DI4Y + n1 * 365.
Proof.
  unfold days_before_year, DI400Y, DI100Y, DI4Y. intros.
  Z.to_euclidean_division_equations. lia.
Qed.

Lemma is_leap_split (n400 n100 n4 n1 : Z) :
  0 <= n100 <= 3 -> 0 <= n4 <= 24 -> 0 <= n1 <= 3 ->
  is_leap (n400 * 400 + 1 + n100 * 100 + n4 * 4 + n1)
  = (n1 =? 3) && (negb (n4 =? 24) || (n100 =? 3)).
Proof.
  unfold is_leap. intros.
  repeat match goal with
         | |- context [?x =? ?y] => destruct (Z.eqb_spec x y)
         end; cbn [andb orb negb]; try reflexivity; exfalso;
    Z.to_euclidean_division_equations; lia.
Qed.

(** The last day of a leap cycle. *)
Lemma ymd2ord_cycle_end (n400 n100 n4 : Z) :
  0 <= n100 <= 3 -> 0 <= n4 <= 23 ->
  ymd2ord (n400 * 400 + n100 * 100 + n4 * 4 + 4) 12 31
  = n400 * DI400Y + n100 * DI100Y + n4 * DI4Y + 4 * 365 + 1
  /\ days_in_month (n400 * 400 + n100 * 100 + n4 * 4 + 4) 12 = 31.
Proof.
  intros. split; [| reflexivity].
  unfold ymd2ord, days_before_month.
  replace (n400 * 400 + n100 * 100 + n4 * 4 + 4)
    with (n400 * 400 + 1 + n100 * 100 + n4 * 4 + 3) by lia.
  rewrite days_before_year_split, is_leap_split by lia.
  destruct (Z.eqb_spec n4 24); [lia |].
  change (table DAYS_BEFORE_MONTH 12) with 334.
  cbn [andb orb negb Z.ltb Z.compare Pos.compare Pos.compare_cont Z.eqb Pos.eqb].
  unfold DI400Y, DI100Y, DI4Y. lia.
Qed.

Lemma ymd2ord_400_end (n400 : Z) :
  ymd2ord (n400 * 400 + 400) 12 31 = n400 * DI400Y + 4 * DI100Y + 1.
Proof.
  unfold ymd2ord, days_before_month.
  replace (n400 * 400 + 400)
    with (n400 * 400 + 1 + 3 * 100 + 24 * 4 + 3) by lia.
  rewrite days_before_year_split, is_leap_split by lia.
  change (table DAYS_BEFORE_MONTH 12) with 334.
  cbn [andb orb negb Z.ltb Z.compare Pos.compare Pos.compare_cont Z.eqb Pos.eqb].
  unfold DI400Y, DI100Y, DI4Y. lia.
Qed.

Lemma ord2ymd_month_day (n : Z) :
  ord2ymd n =
  let n0 := n - 1 in
  let n400 := n0 / DI400Y in let r400 := n0 mod DI400Y in
  let n100 := r400 / DI100Y in let r100 := r400 mod DI100Y in
  let n4 := r100 / DI4Y in let r4 := r100 mod DI4Y in
  let n1 := r4 / 365 in let r1 := r4 mod 365 in
  let y := n400 * 400 + 1 + n100 * 100 + n4 * 4 + n1 in
  if (n1 =? 4) || (n100 =? 4) then (y - 1, 12, 31)
  else
    let '(m, d) :=
      month_day ((n1 =? 3) && (negb (n4 =? 24) || (n100 =? 3))) r1 in
    (y, m, d).
Proof.
  unfold ord2ymd, month_day. cbv zeta.
  repeat case_match; simplify_eq; reflexivity.
Qed.

(** [ord2ymd] is the inverse of [ymd2ord], and its dates are checked dates. *)
Lemma ymd2ord_ord2ymd (n : Z) :
  let '(y, m, d) := ord2ymd n in
  ymd2ord y m d = n /\ 1 <= m <= 12 /\ 1 <= d <= days_in_month y m.
Proof.
  rewrite ord2ymd_month_day. cbv zeta.
  pose proof (year_split (n - 1)) as Hsplit. cbv zeta in Hsplit.
  set (n400 := (n - 1) / DI400Y) in *.
  set (r400 := (n - 1) mod DI400Y) in *.
  set (n100 := r400 / DI100Y) in *. set (r100 := r400 mod DI100Y) in *.
  set (n4 := r100 / DI4Y) in *. set (r4 := r100 mod DI4Y) in *.
  set (n1 := r4 / 365) in *. set (r1 := r4 mod 365) in *.
  destruct Hsplit as (H100 & H4 & H1 & Hr1 & Hend400 & Hend4 & Hn).
  clearbody n400 r400 n100 r100 n4 r4 n1 r1.
  destruct (Z.eqb_spec n1 4) as [E1 | E1]; cbn [orb].
  - destruct (Hend4 E1) as [Hr0 H23].
    assert (n100 <> 4) by (intros E; destruct (Hend400 E); lia).
    replace (n400 * 400 + 1 + n100 * 100 + n4 * 4 + n1 - 1)
      with (n400 * 400 + n100 * 100 + n4 * 4 + 4) by lia.
    destruct (ymd2ord_cycle_end n400 n100 n4) as [-> ->];
      unfold DI400Y, DI100Y, DI4Y in *; lia.
  - destruct (Z.eqb_spec n100 4) as [E100 | E100].
    + destruct (Hend400 E100) as (E4 & E1' & Hr0).
      replace (n400 * 400 + 1 + n100 * 100 + n4 * 4 + n1 - 1)
        with (n400 * 400 + 400) by lia.
      rewrite ymd2ord_400_end. split; [unfold DI400Y, DI100Y, DI4Y in *; lia |].
      split; [lia |].
      replace (days_in_month (n400 * 400 + 400) 12) with 31 by reflexivity. lia.
    + pose proof (month_day_checked
                    ((n1 =? 3) && (negb (n4 =? 24) || (n100 =? 3))) r1) as Hmd.
      unfold month_day_ok in Hmd.
      destruct (month_day _ r1) as [m d].
      unfold ymd2ord, days_before_month, days_in_month.
      rewrite days_before_year_split, is_leap_split by lia.
      destruct ((n1 =? 3) && (negb (n4 =? 24) || (n100 =? 3)));
        specialize (Hmd ltac:(lia));
        repeat (apply andb_prop in Hmd; destruct Hmd as [Hmd ?]);
        unfold DI400Y, DI100Y, DI4Y in *; lia.
Qed.

(** When the sum exists, it is the date moved by the days of [t], at the
    same time of day; and it exists within the calendar. *)
Lemma datetime_add_Return (d d' : datetime) (t : timedelta) :
  datetime_add d t = Return d' ->
  toordinal d' = toordinal d + days t
  /\ hour d' = hour d /\ minute d' = minute d /\ second d' = second d
  /\ microsecond d' = microsecond d
  /\ 1 <= month d' <= 12 /\ 1 <= day d' <= days_in_month (year d') (month d')
  /\ 1 <= toordinal d + days t <= MAXORDINAL.
Proof.
  unfold datetime_add.
  destruct (Z.leb_spec 1 (toordinal d + days t)); [| discriminate].
  destruct (Z.leb_spec (toordinal d + days t) MAXORDINAL); [| discriminate].
  cbn [andb].
  pose proof (ymd2ord_ord2ymd (toordinal d + days t)) as Hinv.
  destruct (ord2ymd (toordinal d + days t)) as [[y m] dd].
  intros [= <-]. unfold toordinal at 1.
  cbn [year month day hour minute second microsecond]. repeat split; tauto || lia.
Qed.

Lemma datetime_add_returns (d : datetime) (t : timedelta) :
  1 <= toordinal d + days t <= MAXORDINAL -> returns (datetime_add d t).
Proof.
  intros Hn. unfold datetime_add, returns.
  destruct (Z.leb_spec 1 (toordinal d + days t)); [| lia].
  destruct (Z.leb_spec (toordinal d + days t) MAXORDINAL); [| lia].
  cbn [andb]. destruct (ord2ymd _) as [[y m] dd]. by eexists.
Qed.

(** Past the last day of year 9999, or before the first of year 1, the sum
    is an [OverflowError]. *)
Lemma datetime_add_OverflowError (d : datetime) (t : timedelta) :
  toordinal d + days t < 1 \/ MAXORDINAL < toordinal d + days t ->
  datetime_add d t = Raise OverflowError.
Proof.
  intros Hn. unfold datetime_add.
  destruct (Z.leb_spec 1 (toordinal d + days t)),
    (Z.leb_spec (toordinal d + days t) MAXORDINAL); cbn [andb];
    reflexivity || lia.
Qed.

(** Adding [timedelta(days=n)] moves the instant by [n] days exactly. *)
Lemma timestamp_datetime_add (d d' : datetime) (t : timedelta) :
  datetime_add d t = Return d' ->
  timestamp d' = timestamp d + days t * 86400000000.
Proof.
  intros (Hord & Hh & Hmi & Hs & Hus & _)%datetime_add_Return.
  unfold timestamp. rewrite Hord, Hh, Hmi, Hs, Hus. lia.
Qed.

(** The sum of a checked datetime is a checked datetime. *)
Lemma datetime_add_check (d d' : datetime) (t : timedelta) :
  datetime_check d = true -> datetime_add d t = Return d' ->
  datetime_check d' = true.
Proof.
  intros Hd (Hord & Hh & Hmi & Hs & Hus & Hm & Hdd & Hn)%datetime_add_Return.
  destruct (datetime_check_bounds d Hd) as (_ & _ & _ & ? & ? & ? & ?).
  assert (Hy : 1 <= year d' <= 9999).
  { pose proof (day_of_year_bounds (year d') (month d') (day d') Hm Hdd) as Hdoy.
    pose proof (days_before_year_succ (year d')) as Hsucc.
    unfold toordinal at 1, ymd2ord in Hord. unfold MAXORDINAL in Hn.
    destruct (Z.le_gt_cases (year d') 0) as [Hlow |];
      [pose proof (days_before_year_mono (year d' + 1) 1 ltac:(lia)) as Hmono;
       change (days_before_year 1) with 0 in Hmono; lia |].
    destruct (Z.le_gt_cases 10000 (year d')) as [Hhigh |]; [| lia].
    pose proof (days_before_year_mono 10000 (year d') Hhigh) as Hmono.
    change (days_before_year 10000) with 3652059 in Hmono. lia. }
  unfold datetime_check, MINYEAR, MAXYEAR.
  repeat (apply andb_true_intro; split); lia.
Qed.

(** Two checked datetimes at the same instant are the same datetime: the
    instant and the check determine the value. *)
Lemma timestamp_inj (a b : datetime) :
  datetime_check a = true -> datetime_check b = true ->
  timestamp a = timestamp b -> a = b.
Proof.
  intros Ha Hb Hab.
  pose proof (datetime_cmp_timestamp a b Ha Hb) as Hcmp.
  rewrite Hab, Z.compare_refl in Hcmp. unfold datetime_cmp in Hcmp.
  destruct a, b. cbn [year month day hour minute second microsecond] in Hcmp.
  repeat match type of Hcmp with
         | match ?x ?= ?y with _ => _ end = Eq =>
             destruct (Z.compare_spec x y); try discriminate; subst
         end.
  apply Z.compare_eq in Hcmp. by subst.
Qed.

(** ** The outcome transition *)

(** What a call leaves in the counters and the level of any card, whether it
    returns or raises. *)
Lemma update_card_status_counters (card : Flashcard) (was_correct : bool)
    (now : datetime) :
  let card' := (update_card_status card was_correct now).1 in
  reviews card' = reviews card + 1
  /\ correct card' = (if was_correct then correct card + 1 else correct card)
  /\ level card' = level_after card was_correct
  /\ word card' = word card /\ translation card' = translation card.
Proof.
  unfold update_card_status, level_after.
  destruct was_correct;
    match goal with
    | |- context [match ?m with Return _ => _ | Raise _ => _ end] => destruct m
    end; cbn; repeat split; lia.
Qed.

(** Inside the table, indexing returns the entry. *)
Lemma list_getitem_in_range {A : Type} (l : list A) (i : Z) :
  0 <= i < len l -> exists x, list_getitem l i = Return x /\ l !! Z.to_nat i = Some x.
Proof.
  unfold list_getitem, len. intros Hi.
  destruct (Z.ltb_spec i 0) as [? | _]; [lia |].
  destruct (Z.leb_spec 0 i) as [_ | ?]; [| lia].
  destruct (Z.ltb_spec i (Z.of_nat (length l))) as [_ | ?]; [| lia].
  cbn [andb].
  destruct (lookup_lt_is_Some_2 l (Z.to_nat i)) as [x Hx]; [lia |].
  exists x. rewrite Hx. split; reflexivity.
Qed.

(** What indexing returns is an element of the list. *)
Lemma list_getitem_elem_of {A : Type} (l : list A) (i : Z) (x : A) :
  list_getitem l i = Return x -> x ∈ l.
Proof.
  unfold list_getitem. destruct ((0 <=? _) && _); [| discriminate].
  destruct (l !! _) as [y |] eqn:E; [| discriminate].
  intros [= <-]. by eapply list_elem_of_lookup_2.
Qed.

Lemma level_after_in_range (card : Flashcard) (was_correct : bool) :
  0 <= level card <= len INTERVALS - 1 ->
  0 <= level_after card was_correct <= len INTERVALS - 1.
Proof.
  unfold level_after, len. cbn [INTERVALS length].
  destruct was_correct; lia.
Qed.

Lemma INTERVALS_bounds (i : nat) (interval : Z) :
  INTERVALS !! i = Some interval -> 1 <= interval <= 90.
Proof.
  unfold INTERVALS. intros H.
  do 6 (destruct i as [| i]; [injection H as <-; lia |]). discriminate.
Qed.

Lemma INTERVALS_getitem_bounds (i interval : Z) :
  list_getitem INTERVALS i = Return interval -> 1 <= interval <= 90.
Proof.
  intros [k Hk]%list_getitem_elem_of%list_elem_of_lookup_1.
  by eapply INTERVALS_bounds.
Qed.

Lemma toordinal_pos (d : datetime) : datetime_check d = true -> 1 <= toordinal d.
Proof.
  intros Hd. destruct (datetime_check_date d Hd) as [Hm Hdd].
  destruct (datetime_check_bounds d Hd) as (Hy & _).
  pose proof (day_of_year_bounds (year d) (month d) (day d) Hm Hdd).
  pose proof (days_before_year_mono 1 (year d) ltac:(lia)) as Hmono.
  change (days_before_year 1) with 0 in Hmono.
  unfold toordinal, ymd2ord. lia.
Qed.

(** How a call ends, by the entry of [INTERVALS] at the new level and the
    sum of the clock reading and that interval. *)
Lemma update_card_status_run (card : Flashcard) (was_correct : bool)
    (now : datetime) :
  update_card_status card was_correct now
  = match d ← list_getitem INTERVALS (level_after card was_correct);
          datetime_add now (mk_timedelta d) with
    | Return next =>
        (mk_Flashcard (word card) (translation card)
           (level_after card was_correct) next (reviews card + 1)
           (if was_correct then correct card + 1 else correct card),
         Return tt)
    | Raise e =>
        (mk_Flashcard (word card) (translation card)
           (level_after card was_correct) (next_review card) (reviews card + 1)
           (if was_correct then correct card + 1 else correct card),
         Raise e)
    end.
Proof.
  unfold update_card_status, level_after.
  destruct was_correct; cbn [set_reviews set_correct set_level level].
  - replace (Z.min (len INTERVALS - 1) (level card + 1))
      with (Z.min (level card + 1) (len INTERVALS - 1)) by lia.
    by destruct (_ ≫= _).
  - replace (Z.max 0 (level card - 1)) with (Z.max (level card - 1) 0) by lia.
    by destruct (_ ≫= _).
Qed.

(** When [INTERVALS] has an entry at the new level and the sum exists, the
    call returns and the review date is the sum. *)
Lemma update_card_status_at (card : Flashcard) (was_correct : bool)
    (now next : datetime) (interval : Z) :
  list_getitem INTERVALS (level_after card was_correct) = Return interval ->
  datetime_add now (mk_timedelta interval) = Return next ->
  update_card_status card was_correct now
  = (mk_Flashcard (word card) (translation card)
       (level_after card was_correct) next (reviews card + 1)
       (if was_correct then correct card + 1 else correct card),
     Return tt).
Proof.
  intros Hget Hsum. rewrite update_card_status_run, Hget.
  cbn [mbind result_bind]. by rewrite Hsum.
Qed.

(** Days can be added to a datetime value as long as the sum is no later
    than the last day of year 9999; the sum is a datetime value, that many
    days later on the time line. *)
Lemma datetime_add_within (now : datetime) (interval : Z) :
  datetime_check now = true -> 0 <= interval ->
  toordinal now + interval <= MAXORDINAL ->
  exists next,
    datetime_add now (mk_timedelta interval) = Return next
    /\ datetime_check next = true
    /\ timestamp next = timestamp now + interval * 86400000000.
Proof.
  intros Hnow Hpos Hlate. pose proof (toordinal_pos now Hnow).
  destruct (datetime_add_returns now (mk_timedelta interval)) as [next Hnext];
    [cbn [days]; lia |].
  exists next. split; [exact Hnext |]. split; [by eapply datetime_add_check |].
  by rewrite (timestamp_datetime_add _ _ _ Hnext).
Qed.

(** At a clock reading, every interval of the table can be added. *)
Lemma clock_reading_add (now : datetime) (i interval : Z) :
  clock_reading now -> list_getitem INTERVALS i = Return interval ->
  exists next,
    datetime_add now (mk_timedelta interval) = Return next
    /\ datetime_check next = true
    /\ timestamp next = timestamp now + interval * 86400000000.
Proof.
  intros [Hnow Hlate] Hget.
  pose proof (INTERVALS_getitem_bounds _ _ Hget).
  apply datetime_add_within; [exact Hnow | lia | lia].
Qed.

(** Inside the range of the data model and at a clock reading, the call
    returns, and the review date is the interval of the new level after the
    clock reading. *)
Lemma update_card_status_returns (card : Flashcard) (was_correct : bool)
    (now : datetime) :
  0 <= level card <= len INTERVALS - 1 -> clock_reading now ->
  exists interval : Z,
    INTERVALS !! Z.to_nat (level_after card was_correct) = Some interval
    /\ list_getitem INTERVALS (level_after card was_correct) = Return interval
    /\ (update_card_status card was_correct now).2 = Return tt
    /\ datetime_check (next_review (update_card_status card was_correct now).1) = true
    /\ timestamp (next_review (update_card_status card was_correct now).1)
       = timestamp now + interval * 86400000000.
Proof.
  intros Hrange Hnow.
  pose proof (level_after_in_range card was_correct Hrange) as Hafter.
  destruct (list_getitem_in_range INTERVALS (level_after card was_correct))
    as (interval & Hget & Hlookup); [lia |].
  destruct (clock_reading_add now _ interval Hnow Hget) as (next & Hsum & Hc & Hs).
  exists interval. split; [exact Hlookup |]. split; [exact Hget |].
  rewrite (update_card_status_at card was_correct now next interval Hget Hsum).
  cbn [fst snd next_review]. by repeat split.
Qed.

(** C1. For every card and every clock reading [now],
    [update_card_status] leaves [reviews + 1]; on a correct outcome
    [correct + 1] and level [min(level + 1, N - 1)], on an incorrect one
    [correct] unchanged and level [max(level - 1, 0)]. In both cases,
    [INTERVALS] being read at the new level, the call returns with
    [next_review] a datetime value that is that interval, in days, after
    [now] on the time line (86400000000 microseconds a day), which
    determines it; this at every reading [now] that is a datetime value
    from which that day is no later than the last day of year 9999, the end
    of [datetime]. When that day is later, the sum does not exist: the call
    raises [OverflowError] and leaves [next_review] as it was. [INTERVALS]
    has an entry at the new level, of 1 to 90 days, whenever the level of
    the card is within [0, N - 1], the range of the data model. *)
Theorem update_card_status_transition (card : Flashcard) (was_correct : bool)
    (now : datetime) :
  let run := update_card_status card was_correct now in
  let card' := run.1 in
  reviews card' = reviews card + 1
  /\ correct card' = (if was_correct then correct card + 1 else correct card)
  /\ level card' =
       (if was_correct
        then Z.min (level card + 1) (len INTERVALS - 1)
        else Z.max (level card - 1) 0)
  /\ word card' = word card /\ translation card' = translation card
  /\ (forall interval : Z,
        list_getitem INTERVALS (level card') = Return interval ->
        datetime_check now = true ->
        toordinal now + interval <= MAXORDINAL ->
        run.2 = Return tt
        /\ datetime_check (next_review card') = true
        /\ timestamp (next_review card') = timestamp now + interval * 86400000000
        /\ forall d : datetime,
             datetime_check d = true ->
             timestamp d = timestamp now + interval * 86400000000 ->
             next_review card' = d)
  /\ (forall interval : Z,
        list_getitem INTERVALS (level card') = Return interval ->
        MAXORDINAL < toordinal now + interval ->
        run.2 = Raise OverflowError /\ next_review card' = next_review card)
  /\ (0 <= level card <= len INTERVALS - 1 ->
      exists interval : Z,
        list_getitem INTERVALS (level card') = Return interval
        /\ INTERVALS !! Z.to_nat (level card') = Some interval
        /\ 1 <= interval <= 90).
Proof.
  cbv zeta.
  destruct (update_card_status_counters card was_correct now)
    as (Hr & Hc & Hl & Hw & Ht).
  split; [exact Hr |]. split; [exact Hc |]. split; [exact Hl |].
  split; [exact Hw |]. split; [exact Ht |]. split; [| split].
  - intros interval Hget Hnow Hlate. rewrite Hl in Hget.
    pose proof (INTERVALS_getitem_bounds _ _ Hget).
    destruct (datetime_add_within now interval Hnow) as (next & Hsum & Hcheck & Hs);
      [lia | exact Hlate |].
    rewrite (update_card_status_at card was_correct now next interval Hget Hsum).
    cbn [fst snd next_review]. split; [reflexivity |]. split; [exact Hcheck |].
    split; [exact Hs |]. intros d Hd Hstamp. apply timestamp_inj; congruence.
  - intros interval Hget Hlate. rewrite Hl in Hget.
    rewrite update_card_status_run, Hget. cbn [mbind result_bind].
    rewrite datetime_add_OverflowError by (cbn [days]; lia). by split.
  - intros Hrange. rewrite Hl.
    pose proof (level_after_in_range card was_correct Hrange) as Hafter.
    destruct (list_getitem_in_range INTERVALS (level_after card was_correct))
      as (interval & Hget & Hlookup); [lia |].
    exists interval. split; [exact Hget |]. split; [exact Hlookup |].
    by eapply INTERVALS_bounds.
Qed.

Lemma update_card_status_transition_witness :
  ((update_card_status casa true noon).2 = Return tt
   /\ datetime_check (next_review (update_card_status casa true noon).1) = true
   /\ timestamp (next_review (update_card_status casa true noon).1)
      = timestamp noon + 3 * 86400000000
   /\ forall d : datetime,
        datetime_check d = true ->
        timestamp d = timestamp noon + 3 * 86400000000 ->
        next_review (update_card_status casa true noon).1 = d)
  /\ ((update_card_status casa true last_day).2 = Raise OverflowError
      /\ next_review (update_card_status casa true last_day).1 = next_review casa)
  /\ exists interval : Z,
       list_getitem INTERVALS (level (update_card_status casa true noon).1)
       = Return interval
       /\ INTERVALS !! Z.to_nat (level (update_card_status casa true noon).1)
          = Some interval
       /\ 1 <= interval <= 90.
Proof.
  destruct (update_card_status_transition casa true noon)
    as (_ & _ & _ & _ & _ & Hdate & _ & Hentry).
  destruct (update_card_status_transition casa true last_day)
    as (_ & _ & _ & _ & _ & _ & Hlate & _).
  split; [| split].
  - apply Hdate; [reflexivity | reflexivity | vm_compute; discriminate].
  - apply (Hlate 3); [reflexivity | reflexivity].
  - apply Hentry. vm_compute. split; discriminate.
Defined.

(** The scenario of the specification: "casa" at level 0, remembered at
    noon, is at level 1 and due three days later; then forgotten the next
    day, it is back at level 0 and due one day after that. *)
Example casa_remembered_then_forgotten :
  let next_day := mk_datetime 2024 2 28 9 0 0 0 in
  let remembered := (update_card_status casa true noon).1 in
  let forgotten := (update_card_status remembered false next_day).1 in
  level remembered = 1
  /\ next_review remembered = mk_datetime 2024 3 1 12 0 0 250000
  /\ level forgotten = 0
  /\ next_review forgotten = mk_datetime 2024 2 29 9 0 0 0
  /\ reviews forgotten = 2 /\ correct forgotten = 1.
Proof. repeat split. Qed.

(** Outside the range of the data model the index can miss the table: the
    call raises, having updated the counters and the level. *)
Example update_card_status_level_7 :
  update_card_status (mk_Flashcard "casa" "house" 7 noon 0 0) false noon
  = (mk_Flashcard "casa" "house" 6 noon 1 0, Raise IndexError).
Proof. reflexivity. Qed.

(** On the last day of year 9999 no interval can be added: the call raises,
    having updated the counters and the level. *)
Example update_card_status_last_day :
  update_card_status casa true last_day
  = (mk_Flashcard "casa" "house" 1 noon 1 1, Raise OverflowError).
Proof. reflexivity. Qed.

(** The review date is later than the clock reading by the interval of the
    new level, to the microsecond. *)
Lemma update_card_status_days_later (card : Flashcard) (was_correct : bool)
    (now : datetime) :
  0 <= level card <= len INTERVALS - 1 -> clock_reading now ->
  exists interval : Z,
    INTERVALS !! Z.to_nat (level_after card was_correct) = Some interval
    /\ timestamp (next_review (update_card_status card was_correct now).1)
       = timestamp now + interval * 86400000000.
Proof.
  intros Hrange Hnow.
  destruct (update_card_status_returns card was_correct now Hrange Hnow)
    as (interval & Hlookup & _ & _ & _ & Hstamp).
  by exists interval.
Qed.

(** At a clock reading, the review date that the call assigns is a checked
    datetime: what [save_cards] writes of it is read back. *)
Lemma update_card_status_checked (card : Flashcard) (was_correct : bool)
    (now : datetime) :
  0 <= level card <= len INTERVALS - 1 -> clock_reading now ->
  datetime_check (next_review (update_card_status card was_correct now).1) = true.
Proof.
  intros Hrange Hnow.
  by destruct (update_card_status_returns card was_correct now Hrange Hnow)
    as (interval & _ & _ & _ & Hcheck & _).
Qed.

(** ** The invariant of a reviewed card *)

Lemma review_preserves_invariant (card : Flashcard) (outcome : bool * datetime) :
  card_invariant card -> card_invariant (review card outcome).
Proof.
  unfold card_invariant, review. intros [Hl Hc].
  destruct outcome as [was_correct now]. cbn [fst snd].
  pose proof (update_card_status_counters card was_correct now) as Hstate.
  cbv zeta in Hstate. destruct Hstate as (Hr & Hc' & Hl' & _).
  pose proof (level_after_in_range card was_correct Hl).
  rewrite Hr, Hc', Hl'. destruct was_correct; lia.
Qed.

Lemma reviews_of_preserves_invariant (outcomes : list (bool * datetime)) :
  forall card, card_invariant card -> card_invariant (reviews_of card outcomes).
Proof.
  unfold reviews_of.
  induction outcomes as [| o outcomes IH]; intros card Hinv; cbn [fold_left].
  - exact Hinv.
  - apply IH, review_preserves_invariant, Hinv.
Qed.

Lemma new_card_invariant (w t : string) (now : datetime) :
  card_invariant (new_card w t now).
Proof.
  unfold card_invariant, new_card, Flashcard_init, len.
  cbn [level correct reviews INTERVALS length]. lia.
Qed.

(** C2. A card created as the form creates it (level 0, no reviews, no
    correct answers) has, after any finite sequence of
    [update_card_status] calls with arbitrary outcomes and clock readings,
    [0 <= level <= N - 1] and [correct <= reviews]. *)
Theorem reviewed_card_in_range (w t : string) (created : datetime)
    (outcomes : list (bool * datetime)) :
  let card := reviews_of (new_card w t created) outcomes in
  0 <= level card <= len INTERVALS - 1 /\ correct card <= reviews card.
Proof.
  cbv zeta.
  destruct (reviews_of_preserves_invariant outcomes _ (new_card_invariant w t created))
    as [Hl Hc].
  split; [exact Hl | lia].
Qed.

(** Every call in such a sequence returns when the clock reads a datetime
    at least 90 days before the end of year 9999: the level is always an
    index of the table. *)
Lemma reviewed_card_update_returns (w t : string) (created now : datetime)
    (outcomes : list (bool * datetime)) (was_correct : bool) :
  clock_reading now ->
  (update_card_status (reviews_of (new_card w t created) outcomes) was_correct now).2
  = Return tt.
Proof.
  intros Hnow.
  destruct (reviews_of_preserves_invariant outcomes _ (new_card_invariant w t created))
    as [Hl _].
  by destruct (update_card_status_returns _ was_correct now Hl Hnow)
    as (i & _ & _ & H & _).
Qed.

(** ** Due cards *)

Lemma due_objects_lookup (cards : list Flashcard) (now : nat -> datetime) (i : nat)
    (c : Flashcard) :
  (i, c) ∈ due_objects cards now
  <-> cards !! i = Some c /\ datetime_le (next_review c) (now i) = true.
Proof.
  unfold due_objects. rewrite list_elem_of_filter, elem_of_lookup_imap. cbn [fst snd].
  split.
  - intros (Hdue & j & x & [= -> ->] & Hj). by split.
  - intros [Hi Hdue]. split; [exact Hdue |]. by exists i, c.
Qed.

(** A card is selected when it sits at a position at which it is due. *)
Lemma due_cards_lookup (cards : list Flashcard) (now : nat -> datetime)
    (c : Flashcard) :
  c ∈ due_cards cards now
  <-> exists i, cards !! i = Some c /\ datetime_le (next_review c) (now i) = true.
Proof.
  unfold due_cards. rewrite list_elem_of_fmap. split.
  - intros ([i c'] & -> & H). exists i. by apply due_objects_lookup.
  - intros (i & H). exists (i, c). split; [done |]. by apply due_objects_lookup.
Qed.

(** The selection, from position [k] on. *)
Lemma due_objects_shift (now : nat -> datetime) (t : Flashcard -> bool) :
  forall (cards : list Flashcard) (k : nat),
    (forall i c, cards !! i = Some c ->
                 datetime_le (next_review c) (now (k + i)%nat) = t c) ->
    (filter (λ ic : nat * Flashcard,
               datetime_le (next_review ic.2) (now ic.1) = true)
       (imap (λ j, pair (k + j)%nat) cards)).*2
    = filter (λ c, t c = true) cards.
Proof.
  induction cards as [| c cards IH]; intros k Hk; [reflexivity |].
  cbn [imap]. rewrite !filter_cons. cbn [fst snd].
  assert (Hshift : imap ((λ j, pair (k + j)%nat) ∘ S) cards
                   = imap (λ j, pair (S k + j)%nat) cards)
    by (apply imap_ext; intros; cbn; f_equal; lia).
  rewrite Hshift.
  pose proof (Hk 0%nat c eq_refl) as H0.
  assert (Hrest : (filter (λ ic : nat * Flashcard,
                             datetime_le (next_review ic.2) (now ic.1) = true)
                     (imap (λ j, pair (S k + j)%nat) cards)).*2
                  = filter (λ c, t c = true) cards).
  { apply IH. intros i c' Hi. rewrite <- (Hk (S i) c' Hi). do 2 f_equal. lia. }
  destruct (decide (datetime_le (next_review c) (now (k + 0)%nat) = true)) as [Hd | Hd];
    rewrite H0 in Hd.
  - rewrite decide_True by exact Hd. cbn [fmap list_fmap snd]. by rewrite Hrest.
  - rewrite decide_False by exact Hd. exact Hrest.
Qed.

Lemma imap_pair_snd {A : Type} (l : list A) : (imap pair l).*2 = l.
Proof.
  rewrite fmap_imap, (imap_ext _ (const id) l) by done.
  rewrite imap_const. apply list_fmap_id.
Qed.

Lemma due_cards_sublist (cards : list Flashcard) (now : nat -> datetime) :
  due_cards cards now `sublist_of` cards.
Proof.
  unfold due_cards, due_objects. rewrite <- (imap_pair_snd cards) at 2.
  apply fmap_sublist, sublist_filter.
Qed.

(** When every card is tested as [select_due] tests it at [t], the
    selection is [select_due] at [t]. *)
Lemma due_cards_select_due (cards : list Flashcard) (now : nat -> datetime)
    (t : datetime) :
  (forall i c, cards !! i = Some c ->
               datetime_le (next_review c) (now i) = datetime_le (next_review c) t) ->
  due_cards cards now = select_due cards t.
Proof.
  intros H. unfold due_cards, due_objects, select_due, is_due.
  exact (due_objects_shift now (λ c, datetime_le (next_review c) t) cards 0%nat H).
Qed.

(** The statement "at every time [t] the due-card selection returns exactly
    the cards with [next_review <= t]" does not hold of a clock that moves
    while the cards are tested: of two cards due at midnight, the first
    tested a microsecond before midnight and the second at midnight, only
    the second is selected, which is the selection of [select_due] at no
    time [t]. *)
Lemma due_cards_between_readings :
  due_cards [uno; dos] ticking = [dos]
  /\ select_due [uno; dos] just_before_midnight = []
  /\ select_due [uno; dos] midnight = [uno; dos]
  /\ forall t : datetime, due_cards [uno; dos] ticking <> select_due [uno; dos] t.
Proof.
  split; [reflexivity |]. split; [reflexivity |]. split; [reflexivity |].
  intros t. unfold select_due, is_due. rewrite !filter_cons, filter_nil.
  change (next_review uno) with midnight. change (next_review dos) with midnight.
  destruct (decide (datetime_le midnight t = true)); discriminate.
Qed.

(** C3 (amended). The due-card selection of the review tab tests every
    card against the clock reading taken when that card is reached: a card
    is returned exactly when its [next_review] is not later than that
    reading, and the selection keeps the cards in the order of the list.
    It is the set of the cards with [next_review <= t] for a time [t]
    whenever every card is tested as at [t]: when the clock reads [t] at
    every card, and, for cards and readings that are datetime values, for
    every [t] between the first reading [t0] and the last [t1] when no
    review date lies after [t0] and not after [t1]. *)
Theorem due_cards_exact (cards : list Flashcard) (now : nat -> datetime) :
  (forall (i : nat) (card : Flashcard),
      (i, card) ∈ due_objects cards now
      <-> cards !! i = Some card /\ datetime_le (next_review card) (now i) = true)
  /\ due_cards cards now = (due_objects cards now).*2
  /\ due_cards cards now `sublist_of` cards
  /\ (forall t : datetime, due_cards cards (λ _, t) = select_due cards t)
  /\ (forall t0 t1 t : datetime,
        datetime_check t = true ->
        Forall (λ card, datetime_check (next_review card) = true) cards ->
        (forall i, (i < length cards)%nat ->
                   datetime_check (now i) = true
                   /\ timestamp t0 <= timestamp (now i) <= timestamp t1) ->
        timestamp t0 <= timestamp t <= timestamp t1 ->
        Forall (λ card, ~ (timestamp t0 < timestamp (next_review card)
                                      <= timestamp t1)) cards ->
        due_cards cards now = select_due cards t)
  /\ (forall t card,
        card ∈ select_due cards t
        <-> card ∈ cards /\ datetime_le (next_review card) t = true).
Proof.
  split; [intros i card; apply due_objects_lookup |]. split; [reflexivity |].
  split; [| split; [| split]].
  - apply due_cards_sublist.
  - intros t. by apply due_cards_select_due.
  - intros t0 t1 t Ht Hcards Hnow Hbetween Hnone.
    apply due_cards_select_due. intros i c Hi.
    destruct (Hnow i (lookup_lt_Some _ _ _ Hi)) as [Hcheck Hi01].
    rewrite Forall_forall in Hcards, Hnone.
    pose proof (Hcards c (list_elem_of_lookup_2 _ _ _ Hi)) as Hc.
    pose proof (Hnone c (list_elem_of_lookup_2 _ _ _ Hi)) as Hout.
    pose proof (datetime_le_timestamp (next_review c) (now i) Hc Hcheck) as H1.
    pose proof (datetime_le_timestamp (next_review c) t Hc Ht) as H2.
    destruct (datetime_le (next_review c) (now i)),
      (datetime_le (next_review c) t); try reflexivity.
    + assert (timestamp (next_review c) <= timestamp (now i)) by (by apply H1).
      assert (~ timestamp (next_review c) <= timestamp t)
        by (intros Hle%H2; discriminate).
      lia.
    + assert (timestamp (next_review c) <= timestamp t) by (by apply H2).
      assert (~ timestamp (next_review c) <= timestamp (now i))
        by (intros Hle%H1; discriminate).
      lia.
  - intros t card. unfold select_due, is_due. rewrite list_elem_of_filter. tauto.
Qed.

Lemma due_cards_exact_witness :
  due_cards deck (λ i, mk_datetime 2024 2 27 12 0 0 (250000 + Z.of_nat i))
  = select_due deck (mk_datetime 2024 2 27 12 0 0 250002).
Proof.
  destruct (due_cards_exact deck
              (λ i, mk_datetime 2024 2 27 12 0 0 (250000 + Z.of_nat i)))
    as (_ & _ & _ & _ & Hexact & _).
  apply (Hexact noon (mk_datetime 2024 2 27 12 0 0 250004)).
  - reflexivity.
  - repeat constructor.
  - intros i Hi. cbn [length deck] in Hi.
    do 5 (destruct i as [| i]; [vm_compute; repeat split; discriminate |]). lia.
  - vm_compute. split; discriminate.
  - repeat constructor; vm_compute; intros [? ?]; congruence.
Defined.

(** Among cards with checked review dates, those that [select_due] selects
    are those whose review instant is not after the instant of [t]. *)
Lemma select_due_chronological (cards : list Flashcard) (t : datetime)
    (card : Flashcard) :
  datetime_check t = true -> datetime_check (next_review card) = true ->
  card ∈ select_due cards t
  <-> card ∈ cards /\ timestamp (next_review card) <= timestamp t.
Proof.
  intros Hnow Hcard. unfold select_due, is_due.
  rewrite list_elem_of_filter, (datetime_le_timestamp _ _ Hcard Hnow). tauto.
Qed.

(** A card is among the due cards when it sits at a position at which its
    review instant is not after the instant of the reading. *)
Lemma due_cards_chronological (cards : list Flashcard) (now : nat -> datetime)
    (card : Flashcard) :
  (forall i, datetime_check (now i) = true) ->
  datetime_check (next_review card) = true ->
  card ∈ due_cards cards now
  <-> exists i, cards !! i = Some card
                /\ timestamp (next_review card) <= timestamp (now i).
Proof.
  intros Hnow Hcard. rewrite due_cards_lookup.
  split; intros (i & Hi & Hle); exists i; (split; [exact Hi |]);
    by apply (datetime_le_timestamp _ _ Hcard (Hnow i)).
Qed.


(** ** The snapshot: saving and loading *)

Section RoundTrip.
Variable now : datetime.

Lemma to_dict_word c : to_dict c !! "word" = Some (JStr (word c)).
Proof. unfold to_dict. by simplify_map_eq. Qed.
Lemma to_dict_translation c :
  to_dict c !! "translation" = Some (JStr (translation c)).
Proof. unfold to_dict. by simplify_map_eq. Qed.
Lemma to_dict_level c : to_dict c !! "level" = Some (JInt (level c)).
Proof. unfold to_dict. by simplify_map_eq. Qed.
Lemma to_dict_next_review c :
  to_dict c !! "next_review" = Some (JStr (isoformat (next_review c))).
Proof. unfold to_dict. by simplify_map_eq. Qed.
Lemma to_dict_reviews c : to_dict c !! "reviews" = Some (JInt (reviews c)).
Proof. unfold to_dict. by simplify_map_eq. Qed.
Lemma to_dict_correct c : to_dict c !! "correct" = Some (JInt (correct c)).
Proof. unfold to_dict. by simplify_map_eq. Qed.

(** A record is read back as the card it was written from. *)
Lemma from_dict_to_dict (c : Flashcard) :
  datetime_check (next_review c) = true ->
  from_dict now (JObj (to_dict c)) = Return c.
Proof.
  intros Hd. unfold from_dict, json_getitem, json_get.
  rewrite to_dict_word, to_dict_translation, to_dict_level,
    to_dict_next_review, to_dict_reviews, to_dict_correct.
  cbn [mbind result_bind fromisoformat_arg default].
  rewrite fromisoformat_isoformat by exact Hd.
  destruct c; reflexivity.
Qed.

Lemma comprehension_from_dict (cards : list Flashcard) :
  Forall (fun c => datetime_check (next_review c) = true) cards ->
  comprehension (from_dict now) (JObj <$> (to_dict <$> cards)) = Return cards.
Proof.
  induction 1 as [| c cards Hc _ IH]; [reflexivity |].
  cbn [fmap list_fmap comprehension].
  rewrite from_dict_to_dict by exact Hc.
  cbn [mbind result_bind]. cbn [fmap] in IH. rewrite IH. reflexivity.
Qed.
End RoundTrip.

(** C4. Loading after saving yields the list that was saved: for every list
    of cards (whose [next_review] are datetime values) saved to a file the
    process may read and write, or create, [load_cards] returns an equal
    list, every field of every card (the timestamp to the microsecond) and
    the order preserved. *)
Theorem load_save_round_trip (cards : list Flashcard) (f : file)
    (now : datetime) :
  accessible f = true ->
  Forall (fun c => datetime_check (next_review c) = true) cards ->
  exists f' : file,
    save_cards cards f = (f', Return tt) /\ load_cards now f' = Return cards.
Proof.
  intros Hf Hcards.
  exists (Holds (json_dump (JList (JObj <$> (to_dict <$> cards))))).
  split.
  - unfold save_cards, open_write. by destruct f.
  - unfold load_cards, load_cards_body.
    cbn [open_read json_dump json_load json_iter mbind result_bind].
    rewrite comprehension_from_dict by exact Hcards. reflexivity.
Qed.

Lemma load_save_round_trip_witness :
  exists f' : file,
    save_cards [casa; perro] Absent = (f', Return tt)
    /\ load_cards noon f' = Return [casa; perro].
Proof.
  apply (load_save_round_trip [casa; perro] Absent noon).
  - reflexivity.
  - repeat constructor.
Defined.

(** A record with its four fields, whose counters are absent or integers,
    is read; an absent counter is 0. *)
Lemma from_dict_reads (now : datetime) (o : gmap string json)
    (w t s : string) (l : Z) (d : datetime) (r c : option Z) :
  o !! "word" = Some (JStr w) ->
  o !! "translation" = Some (JStr t) ->
  o !! "level" = Some (JInt l) ->
  o !! "next_review" = Some (JStr s) ->
  fromisoformat s = Return d ->
  o !! "reviews" = JInt <$> r ->
  o !! "correct" = JInt <$> c ->
  from_dict now (JObj o)
  = Return (mk_Flashcard w t l d (default 0 r) (default 0 c)).
Proof.
  intros Hw Ht Hl Hs Hd Hr Hc.
  unfold from_dict, json_getitem, json_get.
  rewrite Hw, Ht, Hl, Hs, Hr, Hc.
  cbn [mbind result_bind fromisoformat_arg]. rewrite Hd.
  destruct r, c; reflexivity.
Qed.

(** C10. A snapshot record that lacks [reviews] or [correct] (and holds the
    four other fields, the counter it has being an integer) is read without
    error: the missing counter is 0 and [word], [translation], [level] and
    [next_review] are those of the record. *)
Theorem from_dict_missing_counters (now : datetime) (o : gmap string json)
    (w t s : string) (l : Z) (d : datetime) (r c : option Z) :
  o !! "word" = Some (JStr w) ->
  o !! "translation" = Some (JStr t) ->
  o !! "level" = Some (JInt l) ->
  o !! "next_review" = Some (JStr s) ->
  fromisoformat s = Return d ->
  o !! "reviews" = JInt <$> r ->
  o !! "correct" = JInt <$> c ->
  r = None \/ c = None ->
  exists card : Flashcard,
    from_dict now (JObj o) = Return card
    /\ word card = w /\ translation card = t /\ level card = l
    /\ next_review card = d
    /\ reviews card = default 0 r /\ correct card = default 0 c
    /\ (r = None -> reviews card = 0) /\ (c = None -> correct card = 0).
Proof.
  intros Hw Ht Hl Hs Hd Hr Hc _.
  eexists. split; [by eapply from_dict_reads |].
  cbn [word translation level next_review reviews correct].
  repeat split; by intros ->.
Qed.

Lemma from_dict_missing_counters_witness :
  exists card : Flashcard,
    from_dict noon (JObj old_record) = Return card
    /\ word card = "gato" /\ translation card = "cat" /\ level card = 2
    /\ next_review card = mk_datetime 2024 3 1 9 15 0 500000
    /\ reviews card = 0 /\ correct card = 4
    /\ (@None Z = None -> reviews card = 0) /\ (Some 4 = None -> correct card = 0).
Proof.
  apply (from_dict_missing_counters noon old_record "gato" "cat"
           "2024-03-01T09:15:00.500000" 2 (mk_datetime 2024 3 1 9 15 0 500000)
           None (Some 4));
    first [ reflexivity | left; reflexivity ].
Defined.

(** ** Drawing and shuffling *)

Lemma randbelow_lt (n : nat) (g : rng) : (0 < n)%nat -> ((randbelow n g).1 < n)%nat.
Proof.
  intros Hn. destruct g as [| x g]; cbn [randbelow fst]; [exact Hn |].
  apply Nat.mod_upper_bound. lia.
Qed.

Lemma sample_pool_length {A : Type} (k : nat) :
  forall (pool : list A) (g : rng),
    (k <= length pool)%nat -> length (sample_pool k pool g).1 = k.
Proof.
  induction k as [| k IH]; intros pool g Hk; [reflexivity |].
  cbn [sample_pool].
  pose proof (randbelow_lt (length pool) g ltac:(lia)) as Hj.
  destruct (randbelow (length pool) g) as [j g1]. cbn [fst] in Hj.
  destruct (lookup_lt_is_Some_2 pool j Hj) as [x ->].
  destruct (lookup_lt_is_Some_2 pool (length pool - 1)) as [y ->]; [lia |].
  specialize (IH (take (length pool - 1) (<[j:=y]> pool)) g1).
  destruct (sample_pool k _ g1) as [r g2]. cbn [fst length] in *.
  rewrite IH; [reflexivity |].
  rewrite length_take, length_insert. lia.
Qed.

(** Taking an element out of the pool: what is drawn and what stays make
    up the pool. *)
Lemma pool_vacancy_Permutation {A : Type} (pool : list A) (j : nat) (x y : A) :
  pool !! j = Some x -> pool !! (length pool - 1)%nat = Some y ->
  x :: take (length pool - 1) (<[j:=y]> pool) ≡ₚ pool.
Proof.
  intros Hx Hy.
  pose proof (lookup_lt_Some _ _ _ Hx) as Hj.
  remember (take (length pool - 1) pool) as l0 eqn:El0.
  assert (Hpool : pool = l0 ++ [y]).
  { subst l0. rewrite <- (take_S_r _ _ _ Hy).
    symmetry. apply take_ge. lia. }
  destruct (decide (j = length pool - 1)%nat) as [-> | Hne].
  - assert (x = y) as -> by congruence.
    rewrite list_insert_id, <- El0 by exact Hy.
    rewrite Hpool. apply Permutation_cons_append.
  - assert (Hx0 : l0 !! j = Some x)
      by (subst l0; rewrite lookup_take_lt by lia; exact Hx).
    rewrite take_insert_lt, <- El0 by lia.
    rewrite insert_take_drop by (eapply lookup_lt_Some, Hx0).
    rewrite Hpool. rewrite <- (take_drop_middle l0 j x Hx0) at 3.
    rewrite <- Permutation_cons_append, <- !Permutation_middle.
    apply Permutation_swap.
Qed.

(** The sample is drawn without replacement: its elements sit at distinct
    positions of the population. *)
Lemma sample_pool_submseteq {A : Type} (k : nat) :
  forall (pool : list A) (g : rng), (sample_pool k pool g).1 ⊆+ pool.
Proof.
  induction k as [| k IH]; intros pool g; cbn [sample_pool].
  - apply submseteq_nil_l.
  - destruct (randbelow (length pool) g) as [j g1].
    destruct (pool !! j) as [a |] eqn:Ha; [| apply submseteq_nil_l].
    destruct (pool !! (length pool - 1)%nat) as [b |] eqn:Hb; [| apply submseteq_nil_l].
    specialize (IH (take (length pool - 1) (<[j:=b]> pool)) g1).
    destruct (sample_pool k _ g1) as [r g2]. cbn [fst] in *.
    rewrite <- (pool_vacancy_Permutation pool j a b Ha Hb).
    by apply submseteq_skip.
Qed.

Lemma swap_Permutation {A : Type} (i j : nat) (x : list A) : swap i j x ≡ₚ x.
Proof.
  unfold swap.
  destruct (x !! i) as [a |] eqn:Ha; [| reflexivity].
  destruct (x !! j) as [b |] eqn:Hb; [| reflexivity].
  by apply Permutation_insert_swap.
Qed.

Lemma shuffle_loop_Permutation {A : Type} (i : nat) :
  forall (x : list A) (g : rng), (shuffle_loop i x g).1 ≡ₚ x.
Proof.
  induction i as [| i IH]; intros x g; cbn [shuffle_loop]; [reflexivity |].
  destruct (randbelow (S i + 1) g) as [j g1].
  rewrite IH. apply swap_Permutation.
Qed.

Lemma random_shuffle_Permutation {A : Type} (x : list A) (g : rng) :
  (random_shuffle x g).1 ≡ₚ x.
Proof. apply shuffle_loop_Permutation. Qed.

(** A list of one element is shuffled into itself. *)
Lemma random_shuffle_singleton {A : Type} (a : A) (g : rng) :
  random_shuffle [a] g = ([a], g).
Proof. reflexivity. Qed.

(** ** Quizzes *)

Section Quiz.
Variable cards : list Flashcard.
Variable current_word : string.

Let matching : list Flashcard := filter (λ card, word card = current_word) cards.
Let others : list Flashcard := filter (λ card, word card ≠ current_word) cards.

Lemma matching_others_length :
  (length matching + length others = length cards)%nat.
Proof.
  subst matching others. induction cards as [| c l IH]; [reflexivity |].
  rewrite !filter_cons.
  destruct (decide (word c = current_word)) as [Heq | Hne].
  - rewrite decide_False by tauto. cbn [length]. lia.
  - rewrite decide_True by exact Hne. cbn [length]. lia.
Qed.

(** No card has the word: [next] finds the generator empty. *)
Lemma create_quiz_absent (g : rng) :
  matching = [] -> create_quiz cards current_word g = Raise StopIteration.
Proof.
  subst matching. intros H. unfold create_quiz. rewrite H. reflexivity.
Qed.

(** Some card has the word: the quiz is about the first one, and its
    options are that card's translation and [min(3, len(others))]
    translations of other cards, in some order. *)
Lemma create_quiz_present (g : rng) (c : Flashcard) (rest : list Flashcard) :
  matching = c :: rest ->
  exists (drawn options : list string) (g' : rng),
    create_quiz cards current_word g = Return (options, translation c, g')
    /\ options ≡ₚ translation c :: drawn
    /\ length drawn = Nat.min 3 (length others)
    /\ drawn ⊆+ translation <$> others.
Proof.
  subst matching others. intros H. unfold create_quiz. rewrite H.
  cbn [next mbind result_bind].
  set (available := filter (λ card, word card ≠ current_word) cards).
  unfold random_sample, len. rewrite length_fmap.
  destruct (Z.leb_spec 0 (Z.min 3 (Z.of_nat (length available)))) as [_ | ?]; [| lia].
  destruct (Z.leb_spec (Z.min 3 (Z.of_nat (length available)))
              (Z.of_nat (length available))) as [_ | ?]; [| lia].
  cbn [andb mbind result_bind].
  replace (Z.to_nat (Z.min 3 (Z.of_nat (length available))))
    with (Nat.min 3 (length available)) by lia.
  pose proof (sample_pool_length (Nat.min 3 (length available))
                (translation <$> available) g) as Hlen.
  pose proof (sample_pool_submseteq (Nat.min 3 (length available))
                (translation <$> available) g) as Helem.
  destruct (sample_pool _ (translation <$> available) g) as [drawn g1].
  cbn [fst] in Hlen, Helem.
  pose proof (random_shuffle_Permutation ([translation c] ++ drawn) g1) as Hperm.
  destruct (random_shuffle ([translation c] ++ drawn) g1) as [options g2].
  cbn [fst] in Hperm.
  exists drawn, options, g2. split; [reflexivity |].
  split; [exact Hperm |]. split; [| exact Helem].
  apply Hlen. rewrite length_fmap. lia.
Qed.

Lemma matching_nil_iff :
  matching = [] <-> Forall (λ card, word card ≠ current_word) cards.
Proof.
  subst matching. rewrite Forall_forall. split.
  - intros H c Hc Hw. by apply (filter_nil_not_elem_of _ _ c H Hw).
  - intros H.
    destruct (filter (λ card, word card = current_word) cards)
      as [| c l] eqn:E; [reflexivity |].
    assert (Hc : c ∈ filter (λ card, word card = current_word) cards)
      by (rewrite E; left).
    apply list_elem_of_filter in Hc as [Hw Hc]. destruct (H c Hc Hw).
Qed.

Lemma matching_head (c : Flashcard) (rest : list Flashcard) :
  matching = c :: rest -> c ∈ cards /\ word c = current_word.
Proof.
  subst matching. intros E.
  assert (Hc : c ∈ filter (λ card, word card = current_word) cards)
    by (rewrite E; left).
  apply list_elem_of_filter in Hc. tauto.
Qed.
End Quiz.

Lemma NoDup_fmap_eq {A B : Type} (f : A -> B) (l : list A) (x y : A) :
  NoDup (f <$> l) -> x ∈ l -> y ∈ l -> f x = f y -> x = y.
Proof.
  induction l as [| a l IH]; intros Hnd Hx Hy Hf.
  - by apply elem_of_nil in Hx.
  - cbn [fmap list_fmap] in Hnd. apply NoDup_cons in Hnd as [Ha Hnd].
    apply elem_of_cons in Hx as [-> | Hx]; apply elem_of_cons in Hy as [-> | Hy].
    + reflexivity.
    + destruct Ha. rewrite Hf. by apply list_elem_of_fmap_2.
    + destruct Ha. rewrite <- Hf. by apply list_elem_of_fmap_2.
    + by apply IH.
Qed.

(** C5. When exactly one card of the collection has the target word,
    [create_quiz] returns that card's translation as the answer and
    [1 + min(3, number of other cards)] options; the options hold the
    answer exactly once when the translations of the collection are all
    distinct; and for a collection of one card the options are just the
    answer, without error. *)
Theorem create_quiz_options (cards : list Flashcard) (current_word : string)
    (g : rng) :
  length (filter (λ card, word card = current_word) cards) = 1%nat ->
  exists (c : Flashcard) (options : list string) (g' : rng),
    c ∈ cards /\ word c = current_word
    /\ create_quiz cards current_word g = Return (options, translation c, g')
    /\ length options = (1 + Nat.min 3 (length cards - 1))%nat
    /\ (NoDup (translation <$> cards) -> occurrences (translation c) options = 1%nat)
    /\ (length cards = 1%nat -> options = [translation c]).
Proof.
  intros Hone.
  pose proof (matching_others_length cards current_word) as Hsplit.
  cbv zeta in Hsplit. rewrite Hone in Hsplit.
  destruct (filter (λ card, word card = current_word) cards) as [| c rest] eqn:E;
    [discriminate |].
  destruct (matching_head cards current_word c rest E) as [Hc Hw].
  destruct (create_quiz_present cards current_word g c rest E)
    as (drawn & options & g' & Hrun & Hperm & Hlen & Hdrawn).
  exists c, options, g'. repeat split; try assumption.
  - rewrite Hperm. cbn [length]. rewrite Hlen. f_equal. f_equal. lia.
  - intros Hnd. unfold occurrences. rewrite Hperm, filter_cons_True by reflexivity.
    cbn [length]. f_equal.
    destruct (filter (λ x, x = translation c) drawn) as [| x l] eqn:Ex; [reflexivity |].
    assert (Hx : x ∈ filter (λ x, x = translation c) drawn) by (rewrite Ex; left).
    apply list_elem_of_filter in Hx as [-> Hx].
    apply (elem_of_submseteq _ _ _ Hx), list_elem_of_fmap in Hdrawn
      as (c2 & Ht & Hc2).
    apply list_elem_of_filter in Hc2 as [Hw2 Hc2].
    destruct Hw2. rewrite <- Hw. f_equal.
    symmetry. by apply (NoDup_fmap_eq translation cards).
  - intros Hsingle. apply Permutation_singleton_r.
    rewrite Hperm. destruct drawn as [| x l]; [reflexivity |].
    cbn [length] in Hlen. lia.
Qed.

Lemma create_quiz_options_witness :
  exists (c : Flashcard) (options : list string) (g' : rng),
    c ∈ deck /\ word c = "gato"
    /\ create_quiz deck "gato" draws = Return (options, translation c, g')
    /\ length options = (1 + Nat.min 3 (length deck - 1))%nat
    /\ (NoDup (translation <$> deck)
        -> occurrences (translation c) options = 1%nat)
    /\ (length deck = 1%nat -> options = [translation c]).
Proof.
  apply (create_quiz_options deck "gato" draws). reflexivity.
Defined.

Lemma submseteq_NoDup {A : Type} (l k : list A) : l ⊆+ k -> NoDup k -> NoDup l.
Proof.
  intros [k' Hk]%submseteq_Permutation. rewrite Hk. by intros [? _]%NoDup_app.
Qed.

(** When the translations of the collection are all distinct, so are the
    options of a quiz. *)
Lemma create_quiz_distinct_options (cards : list Flashcard)
    (current_word : string) (g g' : rng) (options : list string)
    (answer : string) :
  NoDup (translation <$> cards) ->
  create_quiz cards current_word g = Return (options, answer, g') ->
  NoDup options.
Proof.
  intros Hnd Hrun.
  destruct (filter (λ card, word card = current_word) cards) as [| c rest] eqn:E.
  - rewrite (create_quiz_absent cards current_word g E) in Hrun. discriminate.
  - destruct (create_quiz_present cards current_word g c rest E)
      as (drawn & options' & g1 & Hrun' & Hperm & _ & Hdrawn).
    rewrite Hrun' in Hrun. injection Hrun as -> _ _.
    rewrite Hperm. eapply submseteq_NoDup; [| exact Hnd].
    rewrite <- (filter_app_complement (λ card, word card = current_word) cards), E.
    rewrite fmap_app. cbn [fmap list_fmap]. apply submseteq_skip.
    by apply submseteq_inserts_l.
Qed.

(** The statement "[create_quiz] fails with [NotFoundError] when no card
    has the target word" does not hold: the failure is the [StopIteration]
    of [next]. *)
Lemma create_quiz_absent_StopIteration :
  Forall (λ card, word card ≠ "casa") [perro; gato]
  /\ create_quiz [perro; gato] "casa" draws = Raise StopIteration
  /\ create_quiz [perro; gato] "casa" draws <> Raise NotFoundError.
Proof.
  split; [repeat constructor; discriminate |]. split; [reflexivity | discriminate].
Qed.

(** C6 (amended). [create_quiz] fails exactly when no card of the collection
    has the target word, and then with the [StopIteration] that [next]
    raises on a generator without elements; when some card has the word it
    returns. *)
Theorem create_quiz_fails_iff_absent (cards : list Flashcard)
    (current_word : string) (g : rng) :
  (raises (create_quiz cards current_word g)
   <-> Forall (λ card, word card ≠ current_word) cards)
  /\ (create_quiz cards current_word g = Raise StopIteration
      <-> Forall (λ card, word card ≠ current_word) cards)
  /\ (returns (create_quiz cards current_word g)
      <-> Exists (λ card, word card = current_word) cards).
Proof.
  destruct (filter (λ card, word card = current_word) cards) as [| c rest] eqn:E.
  - pose proof (create_quiz_absent cards current_word g E) as Hrun.
    pose proof (proj1 (matching_nil_iff cards current_word) E) as Hall.
    pose proof (Forall_not_Exists _ _ Hall) as Hnone.
    rewrite Hrun. unfold raises, returns.
    split; [| split]; split.
    + intros _. exact Hall.
    + intros _. by eexists.
    + intros _. exact Hall.
    + intros _. reflexivity.
    + intros [a Ha]. discriminate.
    + intros Hex. contradiction.
  - destruct (create_quiz_present cards current_word g c rest E)
      as (drawn & options & g' & Hrun & _).
    destruct (matching_head cards current_word c rest E) as [Hc Hw].
    assert (Hex : Exists (λ card, word card = current_word) cards)
      by (apply Exists_exists; eauto).
    rewrite Hrun. unfold raises, returns.
    split; [| split]; split.
    + intros [e He]. discriminate.
    + intros Hall. by apply Forall_not_Exists in Hall.
    + intros Hraise. discriminate.
    + intros Hall. by apply Forall_not_Exists in Hall.
    + intros _. exact Hex.
    + intros _. by eexists.
Qed.

(** ** Adding a card *)

(** The statement "adding a card with an empty word or translation fails
    with [ValidationError], reported to the caller" does not hold: with an
    empty word the handler returns, and it shows no error message. *)
Lemma add_card_empty_word_not_reported :
  (add_card "" "house" noon [casa] Absent).2 = Return tt
  /\ (add_card "" "house" noon [casa] Absent).2 <> Raise ValidationError
  /\ ~ (raises (add_card "" "house" noon [casa] Absent).2
        \/ exists body,
             error body ∈ (add_card "" "house" noon [casa] Absent).1.2).
Proof.
  split; [reflexivity |]. split; [discriminate |].
  cbn. intros [[e He] | [body Hbody]].
  - discriminate.
  - by apply elem_of_nil in Hbody.
Qed.

(** C7 (amended). Adding a card with an empty word or an empty translation
    is ignored without any report: the handler returns, shows no message
    (neither an error nor the success message), appends no card and does not
    write the snapshot, so the card list and the file are unchanged. *)
Theorem add_card_empty_ignored (w t : string) (now : datetime)
    (cards : list Flashcard) (f : file) :
  w = EmptyString \/ t = EmptyString ->
  add_card w t now cards f = (cards, f, [], Return tt).
Proof.
  intros [-> | ->]; unfold add_card; cbn [truthy andb]; [reflexivity |].
  rewrite andb_false_r. reflexivity.
Qed.

Lemma add_card_empty_ignored_witness :
  add_card "casa" "" noon [perro] (Holds Garbled)
  = ([perro], Holds Garbled, [], Return tt).
Proof.
  apply (add_card_empty_ignored "casa" "" noon [perro] (Holds Garbled)).
  right. reflexivity.
Defined.

(** With both fields filled in and a file that the process may read and
    write, the card is appended with the defaults of a new card and the
    whole list is saved. *)
Lemma add_card_appends (w t : string) (now : datetime)
    (cards : list Flashcard) (f : file) :
  w <> EmptyString -> t <> EmptyString -> accessible f = true ->
  add_card w t now cards f
  = (cards ++ [mk_Flashcard w t 0 now 0 0],
     Holds (snapshot (cards ++ [mk_Flashcard w t 0 now 0 0])),
     [success "Card added successfully!"], Return tt).
Proof.
  intros Hw Ht Hf. unfold add_card.
  destruct w; [contradiction |]. destruct t; [contradiction |].
  cbn [truthy andb]. unfold save_cards, open_write, new_card, Flashcard_init.
  cbn [default]. by destruct f.
Qed.

(** ** Loading a snapshot *)


(** A computation that returned has gone through both of its steps. *)
Lemma bind_Return {A B : Type} (m : result A) (k : A -> result B) (b : B) :
  m ≫= k = Return b -> exists a, m = Return a /\ k a = Return b.
Proof. destruct m as [a | e]; [by exists a | discriminate]. Qed.

Lemma json_getitem_Return (data v : json) (key : string) :
  json_getitem data key = Return v -> exists o, data = JObj o /\ o !! key = Some v.
Proof.
  destruct data as [| | | | | | o]; try discriminate. cbn [json_getitem].
  destruct (o !! key) as [x |] eqn:E; [| discriminate]. intros [= <-]. by exists o.
Qed.

(** What a record holds when [from_dict] returns a card, and the card. *)
Lemma from_dict_Return_inv (now : datetime) (data : json) (card : Flashcard) :
  from_dict now data = Return card ->
  exists (o : gmap string json) (s : string),
    data = JObj o
    /\ o !! "word" = Some (JStr (word card))
    /\ o !! "translation" = Some (JStr (translation card))
    /\ o !! "level" = Some (JInt (level card))
    /\ o !! "next_review" = Some (JStr s)
    /\ fromisoformat s = Return (next_review card)
    /\ default (JInt 0) (o !! "reviews") = JInt (reviews card)
    /\ default (JInt 0) (o !! "correct") = JInt (correct card).
Proof.
  unfold from_dict. intros H.
  apply bind_Return in H as (w & (o & -> & Hw)%json_getitem_Return & H).
  apply bind_Return in H as (t & (? & [= <-] & Ht)%json_getitem_Return & H).
  apply bind_Return in H as (l & (? & [= <-] & Hl)%json_getitem_Return & H).
  apply bind_Return in H as (s & (? & [= <-] & Hs)%json_getitem_Return & H).
  apply bind_Return in H as (s' & Hs' & H).
  apply bind_Return in H as (d & Hd & H).
  apply bind_Return in H as (r & [= <-] & H).
  apply bind_Return in H as (c & [= <-] & H).
  apply bind_Return in H as (w' & Hw' & H).
  apply bind_Return in H as (t' & Ht' & H).
  apply bind_Return in H as (l' & Hl' & H).
  apply bind_Return in H as (r' & Hr' & H).
  apply bind_Return in H as (c' & Hc' & H).
  destruct w; try discriminate. destruct t; try discriminate.
  destruct l; try discriminate. destruct s; try discriminate.
  destruct (default (JInt 0) (o !! "reviews")) eqn:Er; try discriminate.
  destruct (default (JInt 0) (o !! "correct")) eqn:Ec; try discriminate.
  cbn in Hs', Hw', Ht', Hl', Hr', Hc'. simplify_eq.
  exists o, s'. by repeat split.
Qed.

(** The card that [from_dict] returns has a datetime value as its review
    date, and is the same at every clock reading: the default that
    [__init__] takes from the clock is overwritten. *)
Lemma from_dict_Return (now : datetime) (data : json) (card : Flashcard) :
  from_dict now data = Return card ->
  datetime_check (next_review card) = true
  /\ forall now', from_dict now' data = Return card.
Proof.
  intros (o & s & -> & Hw & Ht & Hl & Hs & Hd & Hr & Hc)%from_dict_Return_inv.
  split.
  - unfold fromisoformat in Hd. destruct (parse_isoformat s) as [d |]; [| discriminate].
    destruct (datetime_check d) eqn:E; [by simplify_eq |].
    by destruct (date_check d && end_of_day d).
  - intros now'. unfold from_dict, json_getitem, json_get.
    rewrite Hw, Ht, Hl, Hs. cbn [mbind result_bind fromisoformat_arg].
    rewrite Hd, Hr, Hc. by destruct card.
Qed.





(** No exception of [from_dict] is the one that [load_cards] catches. *)
Lemma comprehension_not_caught {A B : Type} (f : A -> result B) (l : list A) :
  (forall x, f x <> Raise FileNotFoundError) ->
  comprehension f l <> Raise FileNotFoundError.
Proof.
  intros Hf. induction l as [| a l IH]; cbn [comprehension]; [discriminate |].
  specialize (Hf a). destruct (f a) as [b | e]; cbn [mbind result_bind];
    [| congruence].
  destruct (comprehension f l) as [bs | e]; cbn [mbind result_bind];
    [discriminate | congruence].
Qed.

Lemma fromisoformat_not_caught (s : string) :
  fromisoformat s <> Raise FileNotFoundError.
Proof.
  unfold fromisoformat. destruct (parse_isoformat s) as [d |]; [| discriminate].
  destruct (datetime_check d); [discriminate |].
  destruct (date_check d && end_of_day d); discriminate.
Qed.

Lemma from_dict_not_caught (now : datetime) (data : json) :
  from_dict now data <> Raise FileNotFoundError.
Proof.
  unfold from_dict, json_getitem, json_get.
  destruct data as [| | | | | | o]; try discriminate.
  destruct (o !! "word") as [w |]; cbn [mbind result_bind]; [| discriminate].
  destruct (o !! "translation") as [t |]; cbn [mbind result_bind]; [| discriminate].
  destruct (o !! "level") as [l |]; cbn [mbind result_bind]; [| discriminate].
  destruct (o !! "next_review") as [s |]; cbn [mbind result_bind]; [| discriminate].
  destruct s; cbn [mbind result_bind fromisoformat_arg]; try discriminate.
  match goal with
  | |- context [fromisoformat ?s] =>
      pose proof (fromisoformat_not_caught s); destruct (fromisoformat s)
  end; cbn [mbind result_bind]; [| congruence].
  destruct w; cbn [mbind result_bind as_str]; try discriminate.
  destruct t; cbn [mbind result_bind as_str]; try discriminate.
  destruct l; cbn [mbind result_bind as_int]; try discriminate.
  destruct (default (JInt 0) (o !! "reviews"));
    cbn [mbind result_bind as_int]; try discriminate.
  destruct (default (JInt 0) (o !! "correct"));
    cbn [mbind result_bind as_int]; discriminate.
Qed.






(** ** Double precision: what does not overflow, and signs *)

Lemma digits2_pos_bound (p : positive) :
  2 ^ (Zpos (digits2_pos p) - 1) <= Zpos p < 2 ^ Zpos (digits2_pos p).
Proof.
  induction p as [p IH | p IH |]; cbn [digits2_pos].
  - rewrite Pos2Z.inj_succ.
    replace (Z.succ (Z.pos (digits2_pos p)) - 1) with (Z.pos (digits2_pos p)) by lia.
    rewrite Z.pow_succ_r by lia.
    assert (2 ^ Z.pos (digits2_pos p) = 2 * 2 ^ (Z.pos (digits2_pos p) - 1)) as E.
    { rewrite <- Z.pow_succ_r by lia. f_equal. lia. }
    lia.
  - rewrite Pos2Z.inj_succ.
    replace (Z.succ (Z.pos (digits2_pos p)) - 1) with (Z.pos (digits2_pos p)) by lia.
    rewrite Z.pow_succ_r by lia.
    assert (2 ^ Z.pos (digits2_pos p) = 2 * 2 ^ (Z.pos (digits2_pos p) - 1)) as E.
    { rewrite <- Z.pow_succ_r by lia. f_equal. lia. }
    lia.
  - cbn. lia.
Qed.

Lemma Zdigits2_le (m k : Z) : 0 <= k -> 0 <= m < 2 ^ k -> Zdigits2 m <= k.
Proof.
  intros Hk [Hm Hlt]. destruct m as [| p | p]; cbn [Zdigits2]; [lia | | lia].
  pose proof (digits2_pos_bound p) as [Hlow _].
  destruct (Z.le_gt_cases (Zpos (digits2_pos p)) k) as [| Hgt]; [assumption |].
  assert (2 ^ k <= 2 ^ (Zpos (digits2_pos p) - 1)) by (apply Z.pow_le_mono_r; lia).
  lia.
Qed.

Lemma Zdigits2_nonneg (m : Z) : 0 <= Zdigits2 m.
Proof. destruct m; cbn; lia. Qed.

Lemma shr_1_m (mrs : shr_record) :
  0 <= shr_m mrs -> 0 <= shr_m (shr_1 mrs) <= shr_m mrs.
Proof.
  destruct mrs as [m r s]. cbn [shr_m]. intros Hm.
  destruct m as [| [p | p |] | p]; cbn; lia.
Qed.

Lemma iter_pos_shr_1_m (p : positive) :
  forall mrs, 0 <= shr_m mrs ->
              0 <= shr_m (SpecFloat.iter_pos shr_1 p mrs) <= shr_m mrs.
Proof.
  induction p as [p IH | p IH |]; intros mrs Hm; cbn [SpecFloat.iter_pos].
  - pose proof (shr_1_m mrs Hm) as H1.
    pose proof (IH (shr_1 mrs) ltac:(lia)) as H2.
    pose proof (IH (SpecFloat.iter_pos shr_1 p (shr_1 mrs)) ltac:(lia)). lia.
  - pose proof (IH mrs Hm) as H1.
    pose proof (IH (SpecFloat.iter_pos shr_1 p mrs) ltac:(lia)). lia.
  - apply shr_1_m, Hm.
Qed.

Lemma shr_record_of_loc_m (m : Z) (l : location) : shr_m (shr_record_of_loc m l) = m.
Proof. destruct l as [| []]; reflexivity. Qed.

(** What [shr_fexp] returns: a mantissa that is not larger, and the
    exponent it was given or the one of the format. *)
Lemma shr_fexp_bounds (m e : Z) (l : location) :
  0 <= m ->
  0 <= shr_m (shr_fexp prec emax m e l).1 <= m
  /\ (shr_fexp prec emax m e l).2 = Z.max e (fexp prec emax (Zdigits2 m + e)).
Proof.
  intros Hm. unfold shr_fexp, shr.
  destruct (fexp prec emax (Zdigits2 m + e) - e) as [| p | p] eqn:E; cbn [fst snd].
  - rewrite shr_record_of_loc_m. lia.
  - pose proof (iter_pos_shr_1_m p (shr_record_of_loc m l)) as H.
    rewrite shr_record_of_loc_m in H. specialize (H Hm). lia.
  - rewrite shr_record_of_loc_m. lia.
Qed.

Lemma round_nearest_even_bounds (m : Z) (l : location) :
  m <= round_nearest_even m l <= m + 1.
Proof.
  unfold round_nearest_even. destruct l as [| []]; try lia.
  destruct (Z.even m); lia.
Qed.

(** Rounding a number that is not negative gives a float that is not
    negative. *)
Lemma binary_round_aux_not_negative (m e : Z) (l : location) :
  0 <= m -> not_negative (binary_round_aux prec emax false m e l).
Proof.
  intros Hm. unfold binary_round_aux.
  pose proof (shr_fexp_bounds m e l Hm) as [Hm1 _].
  destruct (shr_fexp prec emax m e l) as [mrs1 e1]. cbn [fst snd] in *.
  pose proof (round_nearest_even_bounds (shr_m mrs1) (loc_of_shr_record mrs1)) as Hr.
  set (m2 := round_nearest_even (shr_m mrs1) (loc_of_shr_record mrs1)) in *.
  pose proof (shr_fexp_bounds m2 e1 loc_Exact ltac:(lia)) as [Hm3 _].
  destruct (shr_fexp prec emax m2 e1 loc_Exact) as [mrs3 e3]. cbn [fst snd] in *.
  destruct (shr_m mrs3) as [| p | p]; [exact I | | lia].
  by destruct (e3 <=? emax - prec).
Qed.

(** A number below [2^k] with an exponent [e] rounds to a float, not to an
    infinity, when [k] and [e] are within the range of the format. *)
Lemma binary_round_aux_finite (s : bool) (m e : Z) (l : location) (k : Z) :
  0 <= m < 2 ^ k -> 0 <= k -> e <= emax - prec ->
  k + 1 + Z.max e (fexp prec emax (k + e)) <= emax ->
  forall s', binary_round_aux prec emax s m e l <> S754_infinity s'.
Proof.
  intros [Hm Hlt] Hk He Hke s'. unfold binary_round_aux.
  pose proof (shr_fexp_bounds m e l Hm) as [Hm1 He1].
  destruct (shr_fexp prec emax m e l) as [mrs1 e1]. cbn [fst snd] in *.
  pose proof (round_nearest_even_bounds (shr_m mrs1) (loc_of_shr_record mrs1)) as Hr.
  set (m2 := round_nearest_even (shr_m mrs1) (loc_of_shr_record mrs1)) in *.
  pose proof (shr_fexp_bounds m2 e1 loc_Exact ltac:(lia)) as [Hm3 He3].
  destruct (shr_fexp prec emax m2 e1 loc_Exact) as [mrs3 e3]. cbn [fst snd] in *.
  destruct (shr_m mrs3) as [| p | p]; try discriminate.
  assert (Hd : Zdigits2 m <= k) by (apply Zdigits2_le; lia).
  assert (Hd2 : Zdigits2 m2 <= k + 1).
  { apply Zdigits2_le; [lia |]. rewrite Z.pow_add_r by lia. lia. }
  pose proof (Zdigits2_nonneg m). pose proof (Zdigits2_nonneg m2).
  assert (e3 <= emax - prec).
  { subst e3 e1. unfold fexp, emin, emax, prec in *. lia. }
  destruct (Z.leb_spec e3 (emax - prec)); [discriminate | lia].
Qed.

Lemma div_le_pow (a b s : Z) :
  0 < a <= b -> 0 <= s -> 0 <= (a * 2 ^ s) / b < 2 ^ (s + 1).
Proof.
  intros Hab Hs. assert (0 < 2 ^ s) by (apply Z.pow_pos_nonneg; lia).
  split; [apply Z.div_pos; nia |].
  apply Z.div_lt_upper_bound; [lia |]. rewrite Z.pow_add_r by lia. nia.
Qed.

(** The quotient of two positive integers, the first not larger than the
    second, is a float that is not negative. *)
Lemma SFdiv_fraction (a b : positive) :
  (a <= b)%positive ->
  not_negative (SFdiv prec emax (S754_finite false a 0) (S754_finite false b 0))
  /\ forall s', SFdiv prec emax (S754_finite false a 0) (S754_finite false b 0)
                <> S754_infinity s'.
Proof.
  intros Hab. unfold SFdiv, SFdiv_core_binary.
  set (d1 := Zdigits2 (Zpos a)). set (d2 := Zdigits2 (Zpos b)).
  assert (Hd : d1 <= d2).
  { subst d1 d2. pose proof (digits2_pos_bound b) as [_ Hb].
    apply Zdigits2_le; [cbn; lia |]. cbn [Zdigits2]. lia. }
  assert (Hd1 : 0 < d1) by (subst d1; cbn; lia).
  assert (Hd2 : 0 < d2) by (subst d2; cbn; lia).
  replace (d1 + 0 - (d2 + 0)) with (d1 - d2) by lia.
  set (e' := Z.min (fexp prec emax (d1 - d2)) (0 - 0)).
  assert (He' : - 1074 <= e' <= - 53)
    by (subst e'; unfold fexp, emin, emax, prec; lia).
  assert (Hs : 0 - 0 - e' = - e') by lia. rewrite Hs.
  destruct (- e') as [| p | p] eqn:Ep; try lia.
  rewrite Z.shiftl_mul_pow2 by lia.
  pose proof (div_le_pow (Zpos a) (Zpos b) (Zpos p) ltac:(lia) ltac:(lia)) as Hq.
  unfold Z.div in Hq.
  destruct (Z.div_eucl (Zpos a * 2 ^ Zpos p) (Zpos b)) as [q r]. cbn [fst] in Hq.
  cbn [xorb]. split.
  - apply binary_round_aux_not_negative. lia.
  - apply (binary_round_aux_finite _ q e' _ (Zpos p + 1));
      unfold fexp, emin, emax, prec in *; lia.
Qed.

(** An accuracy is computed without an exception: with
    [0 <= a <= b] and [0 < b], [a / b] returns the correctly rounded
    quotient, which is not negative. *)
Lemma int_truediv_fraction (a b : Z) :
  0 <= a <= b -> 0 < b ->
  int_truediv a b = Return (SFdiv prec emax (exact_int a) (exact_int b))
  /\ not_negative (SFdiv prec emax (exact_int a) (exact_int b)).
Proof.
  intros Ha Hb. unfold int_truediv.
  destruct (Z.eqb_spec b 0) as [? | _]; [lia |].
  destruct b as [| b | b]; try lia. destruct a as [| a | a]; try lia.
  - by split.
  - cbn [exact_int]. destruct (SFdiv_fraction a b ltac:(lia)) as [Hsign Hfinite].
    split; [| exact Hsign].
    destruct (SFdiv prec emax _ _) as [| s' | |]; try reflexivity.
    by destruct (Hfinite s').
Qed.

Lemma float_add_not_negative (x y : float) :
  not_negative x -> not_negative y -> not_negative (float_add x y).
Proof.
  unfold float_add, SFadd.
  destruct x as [[] | [] | | [] mx ex], y as [[] | [] | | [] my ey]; try done.
  intros _ _. cbn [cond_Zopp]. unfold binary_normalize.
  match goal with |- context [(Z.pos ?a + Z.pos ?b)] =>
    change (Z.pos a + Z.pos b) with (Z.pos (a + b)) end.
  unfold binary_round. destruct (shl_align _ _ _) as [mz ez].
  by apply binary_round_aux_not_negative.
Qed.

(** Adding to a zero: the negative zero is neutral; the positive one is
    neutral for every float other than the negative zero. *)
Lemma float_add_negative_zero (x : float) : float_add negative_zero x = x.
Proof. by destruct x as [[] | [] | | [] mx ex]. Qed.

Lemma float_add_zero (x : float) : not_negative x -> float_add zero x = x.
Proof. by destruct x as [[] | [] | | [] mx ex]. Qed.

Lemma fold_left_float_add_not_negative (l : list float) :
  forall x, not_negative x -> Forall not_negative l ->
            not_negative (fold_left float_add l x).
Proof.
  induction l as [| y l IH]; intros x Hx Hl; [exact Hx |].
  apply Forall_cons in Hl as [Hy Hl]. cbn [fold_left].
  apply IH; [by apply float_add_not_negative | exact Hl].
Qed.

(** ** The sum of numpy takes every element once *)

Lemma addition_of_not_negative (l : list float) (x : float) :
  addition_of l x -> Forall not_negative l -> not_negative x.
Proof.
  induction 1 as [x | l1 l2 x1 x2 _ IH1 _ IH2 | l l' x Hp _ IH]; intros Hl.
  - by inversion Hl.
  - apply Forall_app in Hl as [H1 H2]. apply float_add_not_negative; auto.
  - apply IH. by rewrite Hp.
Qed.

Lemma addition_of_fold_left (l : list float) :
  forall (l0 : list float) (x : float),
    addition_of l0 x -> addition_of (l0 ++ l) (fold_left float_add l x).
Proof.
  induction l as [| y l IH]; intros l0 x Hx; cbn [fold_left].
  - by rewrite app_nil_r.
  - replace (l0 ++ y :: l) with ((l0 ++ [y]) ++ l) by (by rewrite <- app_assoc).
    apply IH. apply addition_plus; [exact Hx | constructor].
Qed.

(** Up to seven elements, added one after the other. *)
Lemma addition_of_short (l : list float) :
  l <> [] -> addition_of l (fold_left float_add l negative_zero).
Proof.
  destruct l as [| x l]; [done |]. intros _. cbn [fold_left].
  rewrite float_add_negative_zero.
  apply (addition_of_fold_left l [x] x). constructor.
Qed.

(** The accumulators of a block: each is a sum of the elements that it
    took, and together they took every element of the groups. *)
Lemma accumulate_addition_of (a : list float) :
  forall (ls : list (list float)) (r : list float),
    length r = 8%nat -> Forall2 addition_of ls r ->
    exists ls',
      Forall2 addition_of ls' (accumulate r a).1
      /\ length (accumulate r a).1 = 8%nat
      /\ concat ls' ++ (accumulate r a).2 ≡ₚ concat ls ++ a.
Proof.
  induction a as [a IH] using (induction_ltof1 _ (@length float)).
  unfold ltof in IH. intros ls r Hlen Hr.
  destruct a as [| a0 [| a1 [| a2 [| a3 [| a4 [| a5 [| a6 [| a7 rest]]]]]]]];
    try (exists ls; cbn [accumulate fst snd]; by repeat split).
  cbn [accumulate].
  do 8 (destruct r as [| ? r]; [discriminate |]). destruct r; [| discriminate].
  do 8 (destruct ls as [| ? ls]; [by apply Forall2_length in Hr |]).
  destruct ls; [| by apply Forall2_length in Hr].
  repeat (apply Forall2_cons in Hr as [? Hr]).
  cbn [zip_with].
  edestruct (IH rest) as (ls' & Hls' & Hlen' & Hperm);
    [cbn [length]; lia | | | exists ls'; split; [exact Hls' |]; split; [exact Hlen' |]].
  - reflexivity.
  - repeat (apply Forall2_cons; split;
            [apply addition_plus; [eassumption | apply addition_one] |]).
    apply Forall2_nil_2.
  - rewrite Hperm. cbn [concat]. rewrite !app_nil_r. solve_Permutation.
Qed.

Lemma add_up_addition_of (ls : list (list float)) (r : list float) :
  length r = 8%nat -> Forall2 addition_of ls r -> addition_of (concat ls) (add_up r).
Proof.
  intros Hlen Hr.
  do 8 (destruct r as [| ? r]; [discriminate |]). destruct r; [| discriminate].
  do 8 (destruct ls as [| ? ls]; [by apply Forall2_length in Hr |]).
  destruct ls; [| by apply Forall2_length in Hr].
  repeat (apply Forall2_cons in Hr as [? Hr]).
  cbn [add_up concat]. rewrite app_nil_r. unfold float_add.
  eapply addition_Permutation;
    [| apply addition_plus;
       (apply addition_plus; apply addition_plus; eassumption)].
  solve_Permutation.
Qed.

(** A block of at least eight elements. *)
Lemma sum_block_addition_of (a : list float) :
  (8 <= length a)%nat -> addition_of a (sum_block a).
Proof.
  intros Hlen. unfold sum_block.
  destruct (accumulate_addition_of (drop 8 a) ((λ x, [x]) <$> take 8 a) (take 8 a))
    as (ls' & Hls' & Hlen' & Hperm).
  - rewrite length_take. lia.
  - apply Forall2_fmap_l, Forall_Forall2_diag, Forall_forall. intros x _. constructor.
  - destruct (accumulate (take 8 a) (drop 8 a)) as [r rest]. cbn [fst snd] in *.
    apply (addition_Permutation (concat ls' ++ rest)).
    + rewrite Hperm. rewrite <- (take_drop 8 a) at 3.
      apply Permutation_app_tail.
      generalize (take 8 a). intros l. induction l as [| x l IH]; [done |].
      cbn. by rewrite IH.
    + apply addition_of_fold_left. by apply add_up_addition_of.
Qed.

(** The sum that numpy computes takes every element once. *)
Lemma pairwise_sum_halving_addition_of (depth : nat) :
  forall a : list float, a <> [] -> addition_of a (pairwise_sum_halving depth a).
Proof.
  induction depth as [| depth IH]; intros a Hne; cbn [pairwise_sum_halving];
    destruct (Nat.ltb_spec (length a) 8) as [Hshort | Hlong];
    try (by apply addition_of_short);
    destruct (Nat.leb_spec (length a) PW_BLOCKSIZE) as [Hblock | Hmore];
    try (by apply sum_block_addition_of).
  unfold PW_BLOCKSIZE in Hmore.
  set (n2 := (length a / 2 - (length a / 2) mod 8)%nat).
  assert (Hn2 : (0 < n2 < length a)%nat).
  { subst n2. pose proof (Nat.mod_upper_bound (length a / 2) 8 ltac:(lia)).
    pose proof (Nat.div_mod_eq (length a) 2).
    pose proof (Nat.mod_upper_bound (length a) 2 ltac:(lia)). lia. }
  rewrite <- (take_drop n2 a) at 1. unfold float_add at 1.
  apply addition_plus; apply IH; intros E; apply (f_equal length) in E;
    rewrite ?length_take, ?length_drop in E; cbn [length] in E; lia.
Qed.

(** The array is halved fewer times than it has elements: the bound on the
    halvings is never reached. *)
Lemma pairwise_sum_halving_depth (depth : nat) :
  forall (depth' : nat) (a : list float),
    (length a <= depth)%nat -> (length a <= depth')%nat ->
    pairwise_sum_halving depth a = pairwise_sum_halving depth' a.
Proof.
  induction depth as [| depth IH]; intros [| depth'] a Hd Hd';
    cbn [pairwise_sum_halving];
    destruct (Nat.ltb_spec (length a) 8) as [Hshort | Hlong]; try reflexivity;
    destruct (Nat.leb_spec (length a) PW_BLOCKSIZE) as [Hblock | Hmore];
    try reflexivity; unfold PW_BLOCKSIZE in Hmore; try lia.
  set (n2 := (length a / 2 - (length a / 2) mod 8)%nat).
  assert (Hn2 : (0 < n2 < length a)%nat).
  { subst n2. pose proof (Nat.mod_upper_bound (length a / 2) 8 ltac:(lia)).
    pose proof (Nat.div_mod_eq (length a) 2).
    pose proof (Nat.mod_upper_bound (length a) 2 ltac:(lia)). lia. }
  f_equal; apply IH; rewrite ?length_take, ?length_drop; lia.
Qed.

Lemma pairwise_sum_addition_of (a : list float) :
  a <> [] -> addition_of a (pairwise_sum a).
Proof. apply pairwise_sum_halving_addition_of. Qed.

(** Up to seven elements are added from the first to the last. *)
Lemma pairwise_sum_short (a : list float) :
  (length a < 8)%nat -> pairwise_sum a = fold_left float_add a negative_zero.
Proof.
  intros Hlen. unfold pairwise_sum.
  generalize (length a) at 1. intros depth.
  destruct depth; cbn [pairwise_sum_halving];
    destruct (Nat.ltb_spec (length a) 8); (reflexivity || lia).
Qed.

Lemma fold_left_float_add_zero (l : list float) :
  l <> [] -> Forall not_negative l ->
  fold_left float_add l negative_zero = fold_left float_add l zero.
Proof.
  destruct l as [| x l]; [done |]. intros _ [Hx _]%Forall_cons. cbn [fold_left].
  by rewrite float_add_negative_zero, float_add_zero.
Qed.

(** The sum of numpy, of elements that are not negative. *)
Lemma np_sum_addition_of (l : list float) :
  l <> [] -> Forall not_negative l ->
  addition_of l (np_sum l)
  /\ ((length l < 8)%nat -> np_sum l = fold_left float_add l zero).
Proof.
  intros Hne Hl. pose proof (pairwise_sum_addition_of l Hne) as Hsum.
  unfold np_sum.
  rewrite float_add_zero by (by eapply addition_of_not_negative).
  split; [exact Hsum |]. intros Hlen.
  by rewrite pairwise_sum_short, fold_left_float_add_zero.
Qed.

(** ** Study statistics *)

(** With counters of the data model the accuracies are computed without
    an exception, and none is negative. *)
Lemma card_accuracy_or_zero (card : Flashcard) :
  0 <= correct card <= reviews card ->
  card_accuracy card = Return (accuracy_or_zero card)
  /\ not_negative (accuracy_or_zero card).
Proof.
  unfold card_accuracy, accuracy_or_zero. intros H.
  destruct (Z.ltb_spec 0 (reviews card)), (Z.eqb_spec (reviews card) 0); try lia.
  - by apply int_truediv_fraction.
  - by split.
Qed.

Lemma card_accuracies_or_zero (cards : list Flashcard) :
  Forall (λ card, 0 <= correct card <= reviews card) cards ->
  comprehension card_accuracy cards = Return (accuracy_or_zero <$> cards)
  /\ Forall not_negative (accuracy_or_zero <$> cards).
Proof.
  induction 1 as [| x l Hx _ [IH1 IH2]]; [by split |].
  cbn [fmap list_fmap comprehension].
  destruct (card_accuracy_or_zero x Hx) as [-> Hsign].
  cbn [mbind result_bind]. cbn [fmap] in IH1. rewrite IH1.
  split; [reflexivity | by constructor].
Qed.

(** 25.0 as a double: [25 * 2^48 * 2^-48]. *)
Example float_25 :
  float_of_int 25 = S754_finite false 7036874417766400 (-48)
  /\ 7036874417766400 = 25 * 2 ^ 48.
Proof. split; reflexivity. Qed.

(** A card with more correct answers than a float can count: the division
    raises and the statistics are not drawn. *)
Example average_accuracy_OverflowError :
  avg_accuracy <$> study_statistics [casa; overcounted] = Some (Raise OverflowError)
  /\ statistics_block [casa; overcounted] = Raise OverflowError.
Proof. split; reflexivity. Qed.

(** C9. The statistics block computes the average accuracy as the mean over
    all cards of the per-card accuracy ([correct / reviews], and 0 for a card
    without reviews) times 100, in double precision: for cards with
    [0 <= correct <= reviews], a sum of the accuracies of all the cards,
    each taken once, divided by the number of cards and multiplied by 100,
    every operation correctly rounded; up to seven cards are added from the
    first to the last, more in the order of numpy. For two cards, one with
    4 reviews of which 2 correct and one without reviews, it is 25.0. *)
Theorem average_accuracy_mean :
  (forall cards : list Flashcard,
      cards <> [] ->
      Forall (λ card, 0 <= correct card <= reviews card) cards ->
      exists total : float,
        addition_of (accuracy_or_zero <$> cards) total
        /\ avg_accuracy <$> study_statistics cards
           = Some (Return (SFmul prec emax
                             (SFdiv prec emax total (float_of_int (len cards)))
                             (float_of_int 100)))
        /\ ((length cards < 8)%nat ->
            avg_accuracy <$> study_statistics cards
            = Some (Return (mean_accuracy_percent cards))))
  /\ (forall c1 c2 : Flashcard,
        reviews c1 = 4 -> correct c1 = 2 -> reviews c2 = 0 ->
        avg_accuracy <$> study_statistics [c1; c2] = Some (Return (float_of_int 25))).
Proof.
  split.
  - intros cards Hne Hcards.
    destruct (card_accuracies_or_zero cards Hcards) as [Hlist Hsign].
    assert (Hne' : accuracy_or_zero <$> cards <> []) by (by destruct cards).
    destruct (np_sum_addition_of _ Hne' Hsign) as [Hsum Hshort].
    assert (Havg : avg_accuracy <$> study_statistics cards
                   = Some (Return (SFmul prec emax
                                     (SFdiv prec emax (np_sum (accuracy_or_zero <$> cards))
                                        (float_of_int (len cards)))
                                     (float_of_int 100)))).
    { destruct cards as [| c cards]; [done |].
      unfold study_statistics. cbn [fmap option_fmap option_map avg_accuracy].
      unfold average_accuracy. rewrite Hlist. cbn [mbind result_bind].
      unfold np_mean, len. by rewrite length_fmap. }
    exists (np_sum (accuracy_or_zero <$> cards)).
    split; [exact Hsum |]. split; [exact Havg |].
    intros Hlen. rewrite Havg, Hshort by (by rewrite length_fmap). reflexivity.
  - intros c1 c2 Hr1 Hc1 Hr2.
    cbn [study_statistics fmap option_fmap option_map avg_accuracy].
    unfold average_accuracy. cbn [comprehension].
    unfold card_accuracy. rewrite Hr1, Hc1, Hr2. reflexivity.
Qed.

Lemma average_accuracy_mean_witness :
  (exists total : float,
     addition_of (accuracy_or_zero <$> [half_known; perro; gato]) total
     /\ avg_accuracy <$> study_statistics [half_known; perro; gato]
        = Some (Return (SFmul prec emax
                          (SFdiv prec emax total
                             (float_of_int (len [half_known; perro; gato])))
                          (float_of_int 100)))
     /\ ((length [half_known; perro; gato] < 8)%nat ->
         avg_accuracy <$> study_statistics [half_known; perro; gato]
         = Some (Return (mean_accuracy_percent [half_known; perro; gato]))))
  /\ avg_accuracy <$> study_statistics [half_known; gato]
     = Some (Return (float_of_int 25)).
Proof.
  destruct average_accuracy_mean as [Hmean Hscenario]. split.
  - apply Hmean; [discriminate | repeat constructor; vm_compute; discriminate].
  - apply Hscenario; reflexivity.
Defined.

(* ===================================================================== *)
(** * Part III: further properties of the program                         *)
(* ===================================================================== *)

(** Properties that the code shows beyond those of Part II: of the
    functions on their own, of the handlers of the page, and of whole runs
    of the script on the session state and the snapshot file. *)

(** ** Sequences of reviews *)

(** What one review leaves of a card. *)
Lemma review_level (card : Flashcard) (o : bool * datetime) :
  level (review card o) = level_after card o.1
  /\ reviews (review card o) = reviews card + 1
  /\ correct (review card o) = (if o.1 then correct card + 1 else correct card)
  /\ word (review card o) = word card
  /\ translation (review card o) = translation card.
Proof.
  unfold review.
  pose proof (update_card_status_counters card o.1 o.2) as H. cbv zeta in H.
  tauto.
Qed.

(** X1. The counters of a card count its reviews: after any sequence of
    [update_card_status] calls, on any card and at any clock readings,
    [reviews] has grown by the number of calls and [correct] by the number
    of calls with a correct outcome; the word and the translation are as
    they were. *)
Theorem reviews_of_counters (outcomes : list (bool * datetime)) (card : Flashcard) :
  reviews (reviews_of card outcomes) = reviews card + len outcomes
  /\ correct (reviews_of card outcomes)
     = correct card + len (filter (λ o, o.1 = true) outcomes)
  /\ word (reviews_of card outcomes) = word card
  /\ translation (reviews_of card outcomes) = translation card.
Proof.
  unfold reviews_of. revert card.
  induction outcomes as [| o outcomes IH]; intros card.
  - unfold len. cbn. repeat split; lia.
  - cbn [fold_left].
    destruct (IH (review card o)) as (Hr & Hc & Hw & Ht).
    destruct (review_level card o) as (_ & Hr1 & Hc1 & Hw1 & Ht1).
    rewrite Hr, Hc, Hw, Ht, Hr1, Hc1, Hw1, Ht1. rewrite filter_cons.
    unfold len. destruct o as [[] now]; cbn [fst length];
      [rewrite decide_True by done | rewrite decide_False by done];
      cbn [length]; repeat split; lia.
Qed.

(** X2. A run of equal outcomes moves the level of a card by one step per
    review until it reaches the end of the table and leaves it there: from
    a level within [0, N - 1], [k] correct outcomes in a row lead to level
    [min(level + k, N - 1)] and [k] incorrect ones to [max(level - k, 0)]. *)
Theorem reviews_of_streak (outcomes : list (bool * datetime)) (was_correct : bool)
    (card : Flashcard) :
  0 <= level card <= len INTERVALS - 1 ->
  Forall (λ o, o.1 = was_correct) outcomes ->
  level (reviews_of card outcomes)
  = if was_correct
    then Z.min (level card + len outcomes) (len INTERVALS - 1)
    else Z.max (level card - len outcomes) 0.
Proof.
  unfold reviews_of. intros Hl Hall. revert card Hl.
  induction Hall as [| o outcomes Ho _ IH]; intros card Hl.
  - unfold len in *. cbn [fold_left length] in *. destruct was_correct; lia.
  - cbn [fold_left].
    pose proof (review_level card o) as (Hlevel & _).
    pose proof (level_after_in_range card o.1 Hl) as Hin.
    rewrite <- Hlevel in Hin. rewrite (IH _ Hin), Hlevel, Ho.
    unfold level_after, len in *. cbn [length INTERVALS] in *.
    destruct was_correct; lia.
Qed.

Lemma reviews_of_streak_witness :
  level (reviews_of perro [(true, noon); (true, noon); (true, noon)])
  = Z.min (level perro + len [(true, noon); (true, noon); (true, noon)])
      (len INTERVALS - 1).
Proof.
  apply (reviews_of_streak [(true, noon); (true, noon); (true, noon)] true perro).
  - vm_compute. split; discriminate.
  - repeat constructor.
Defined.

(** X3. A card that was reviewed is due again exactly when the interval of
    its new level has passed: with a level within [0, N - 1] before the
    review at clock reading [now], the card that [update_card_status]
    leaves is among the due cards of a list at a reading [later] if and
    only if it is in the list and [later] is at least that interval, in
    days, after [now]; at [now] itself it is not due. When the clock moves
    while the cards are tested, the reading that counts is the one taken at
    the card. *)
Theorem reviewed_card_due_again (card : Flashcard) (was_correct : bool)
    (now later : datetime) (cards : list Flashcard) :
  0 <= level card <= len INTERVALS - 1 -> clock_reading now ->
  datetime_check later = true ->
  exists interval : Z,
    INTERVALS !! Z.to_nat (level_after card was_correct) = Some interval
    /\ 1 <= interval <= 90
    /\ ((update_card_status card was_correct now).1 ∈ due_cards cards (λ _, later)
        <-> (update_card_status card was_correct now).1 ∈ cards
            /\ timestamp now + interval * 86400000000 <= timestamp later)
    /\ (forall readings : nat -> datetime,
          (forall i, datetime_check (readings i) = true) ->
          (update_card_status card was_correct now).1 ∈ due_cards cards readings
          <-> exists i,
                cards !! i = Some (update_card_status card was_correct now).1
                /\ timestamp now + interval * 86400000000 <= timestamp (readings i))
    /\ (update_card_status card was_correct now).1 ∉ due_cards cards (λ _, now).
Proof.
  intros Hl Hnow Hlater.
  destruct (update_card_status_days_later card was_correct now Hl Hnow)
    as (interval & Hlookup & Hstamp).
  pose proof (update_card_status_checked card was_correct now Hl Hnow) as Hchecked.
  pose proof (INTERVALS_bounds _ _ Hlookup) as Hbounds.
  exists interval. split; [exact Hlookup |]. split; [exact Hbounds |].
  split; [| split].
  - rewrite (due_cards_chronological cards (λ _, later) _ (λ _, Hlater) Hchecked), Hstamp.
    rewrite list_elem_of_lookup. split.
    + intros (i & Hi & Hle). split; [by exists i | done].
    + intros [[i Hi] Hle]. by exists i.
  - intros readings Hreadings.
    by rewrite (due_cards_chronological cards readings _ Hreadings Hchecked), Hstamp.
  - destruct Hnow as [Hnow _].
    rewrite (due_cards_chronological cards (λ _, now) _ (λ _, Hnow) Hchecked), Hstamp.
    intros (i & _ & Hle). lia.
Qed.

Lemma reviewed_card_due_again_witness :
  exists interval : Z,
    INTERVALS !! Z.to_nat (level_after casa true) = Some interval
    /\ 1 <= interval <= 90
    /\ ((update_card_status casa true noon).1
          ∈ due_cards [(update_card_status casa true noon).1; perro]
              (λ _, mk_datetime 2024 3 1 12 0 0 250000)
        <-> (update_card_status casa true noon).1
              ∈ [(update_card_status casa true noon).1; perro]
            /\ timestamp noon + interval * 86400000000
               <= timestamp (mk_datetime 2024 3 1 12 0 0 250000))
    /\ (forall readings : nat -> datetime,
          (forall i, datetime_check (readings i) = true) ->
          (update_card_status casa true noon).1
            ∈ due_cards [(update_card_status casa true noon).1; perro] readings
          <-> exists i,
                [(update_card_status casa true noon).1; perro] !! i
                = Some (update_card_status casa true noon).1
                /\ timestamp noon + interval * 86400000000 <= timestamp (readings i))
    /\ (update_card_status casa true noon).1
         ∉ due_cards [(update_card_status casa true noon).1; perro] (λ _, noon).
Proof.
  apply (reviewed_card_due_again casa true noon
           (mk_datetime 2024 3 1 12 0 0 250000)).
  - vm_compute. split; discriminate.
  - split; [reflexivity | vm_compute; discriminate].
  - reflexivity.
Defined.

(** ** Adding a card and reading it back *)

Lemma datetime_le_refl (d : datetime) : datetime_le d d = true.
Proof. unfold datetime_le, datetime_cmp. by rewrite !Z.compare_refl. Qed.

(** What [save_cards] writes is read back, whatever the clock reads. *)
Lemma load_snapshot (now : datetime) (cards : list Flashcard) :
  Forall (fun c => datetime_check (next_review c) = true) cards ->
  load_cards now (Holds (snapshot cards)) = Return cards.
Proof.
  intros Hc. unfold load_cards, load_cards_body, snapshot.
  cbn [open_read json_dump json_load json_iter mbind result_bind].
  by rewrite comprehension_from_dict.
Qed.

(** X4. A card added through the form is kept and is due at once: with a
    word and a translation that are not empty and a file that the process
    may read and write, or create, the handler appends a card at level 0
    without reviews whose review date is the clock reading, shows the
    success message, and leaves a file from which [load_cards] returns the
    list with the new card at its end; the new card is among the due cards
    at that clock reading, and at every reading of the clock that is not
    earlier when the card is tested. *)
Theorem add_card_persists (w t : string) (now later : datetime)
    (cards : list Flashcard) (f : file) :
  w <> EmptyString -> t <> EmptyString -> accessible f = true ->
  Forall (fun c => datetime_check (next_review c) = true) cards ->
  datetime_check now = true ->
  exists f' : file,
    add_card w t now cards f
    = (cards ++ [mk_Flashcard w t 0 now 0 0], f',
       [success "Card added successfully!"], Return tt)
    /\ load_cards later f' = Return (cards ++ [mk_Flashcard w t 0 now 0 0])
    /\ mk_Flashcard w t 0 now 0 0
         ∈ due_cards (cards ++ [mk_Flashcard w t 0 now 0 0]) (λ _, now)
    /\ forall readings : nat -> datetime,
         datetime_le now (readings (length cards)) = true ->
         mk_Flashcard w t 0 now 0 0
           ∈ due_cards (cards ++ [mk_Flashcard w t 0 now 0 0]) readings.
Proof.
  intros Hw Ht Hf Hc Hnow.
  exists (Holds (snapshot (cards ++ [mk_Flashcard w t 0 now 0 0]))).
  split; [by apply add_card_appends |]. split; [| split].
  - apply load_snapshot, Forall_app. split; [exact Hc |]. by apply Forall_singleton.
  - apply due_cards_lookup. exists (length cards).
    split; [by apply list_lookup_middle | apply datetime_le_refl].
  - intros readings Hle. apply due_cards_lookup. exists (length cards).
    split; [by apply list_lookup_middle | exact Hle].
Qed.

Lemma add_card_persists_witness :
  exists f' : file,
    add_card "sol" "sun" noon [casa; perro] Absent
    = ([casa; perro] ++ [mk_Flashcard "sol" "sun" 0 noon 0 0], f',
       [success "Card added successfully!"], Return tt)
    /\ load_cards (mk_datetime 2024 3 1 12 0 0 250000) f'
       = Return ([casa; perro] ++ [mk_Flashcard "sol" "sun" 0 noon 0 0])
    /\ mk_Flashcard "sol" "sun" 0 noon 0 0
         ∈ due_cards ([casa; perro] ++ [mk_Flashcard "sol" "sun" 0 noon 0 0])
             (λ _, noon)
    /\ forall readings : nat -> datetime,
         datetime_le noon (readings (length [casa; perro])) = true ->
         mk_Flashcard "sol" "sun" 0 noon 0 0
           ∈ due_cards ([casa; perro] ++ [mk_Flashcard "sol" "sun" 0 noon 0 0])
               readings.
Proof.
  apply (add_card_persists "sol" "sun" noon (mk_datetime 2024 3 1 12 0 0 250000)
           [casa; perro] Absent); try discriminate.
  - reflexivity.
  - repeat constructor.
  - reflexivity.
Defined.

Lemma comprehension_Forall {A B : Type} (P : B -> Prop) (f : A -> result B)
    (l : list A) (ys : list B) :
  (forall x y, f x = Return y -> P y) ->
  comprehension f l = Return ys -> Forall P ys.
Proof.
  intros Hf. revert ys. induction l as [| x l IH]; intros ys; cbn [comprehension].
  - intros [= <-]. constructor.
  - destruct (f x) as [y | e] eqn:Ex; cbn [mbind result_bind]; [| discriminate].
    destruct (comprehension f l) as [ys' | e]; cbn [mbind result_bind mret result_ret];
      [| discriminate].
    intros [= <-]. constructor; [by eapply Hf | by apply IH].
Qed.

Lemma comprehension_ext {A B : Type} (f f' : A -> result B) (l : list A)
    (ys : list B) :
  (forall x y, f x = Return y -> f' x = Return y) ->
  comprehension f l = Return ys -> comprehension f' l = Return ys.
Proof.
  intros Hf. revert ys. induction l as [| x l IH]; intros ys; cbn [comprehension];
    [done |].
  destruct (f x) as [y | e] eqn:Ex; cbn [mbind result_bind]; [| discriminate].
  rewrite (Hf x y Ex). cbn [mbind result_bind].
  destruct (comprehension f l) as [ys' | e]; cbn [mbind result_bind]; [| discriminate].
  rewrite (IH ys' eq_refl). done.
Qed.

(** What [load_cards] returns does not depend on the clock, and its review
    dates are datetime values; it returns from a file that can be read, and
    the empty list when there is no file. *)
Lemma load_cards_Return (now : datetime) (f : file) (cards : list Flashcard) :
  load_cards now f = Return cards ->
  ((f = Absent \/ f = Uncreatable) /\ cards = [] \/ exists t, f = Holds t \/ f = ReadOnly t)
  /\ Forall (fun c => datetime_check (next_review c) = true) cards
  /\ forall now', load_cards now' f = Return cards.
Proof.
  assert (Htext : forall t,
             load_cards now (Holds t) = Return cards ->
             Forall (fun c => datetime_check (next_review c) = true) cards
             /\ forall now', load_cards now' (Holds t) = Return cards).
  { intros [| j]; unfold load_cards, load_cards_body;
      cbn [open_read json_load mbind result_bind]; [discriminate |].
    destruct (json_iter j) as [items | e] eqn:Ej; cbn [mbind result_bind].
    - pose proof (comprehension_not_caught (from_dict now) items
                    (from_dict_not_caught now)) as Hnot.
      destruct (comprehension (from_dict now) items) as [cs | e] eqn:E.
      + intros [= <-]. split.
        * eapply comprehension_Forall; [| exact E].
          intros x y Hxy. by apply from_dict_Return in Hxy as [? _].
        * intros now'.
          rewrite (comprehension_ext (from_dict now) (from_dict now') items cs);
            [reflexivity | | exact E].
          intros x y Hxy. by apply from_dict_Return in Hxy as [_ ?].
      + destruct e; try discriminate. contradiction.
    - destruct j; cbn in Ej; try discriminate; injection Ej as <-; discriminate. }
  destruct f as [| | t | t | t |]; try discriminate.
  - intros [= <-]. split; [left; split; [by left | done] |]. by split.
  - intros H. destruct (Htext t H) as [Hc Hany]. split; [right; exists t; by left |].
    by split.
  - intros H. destruct (Htext t H) as [Hc Hany]. split; [right; exists t; by right |].
    by split.
  - intros [= <-]. split; [left; split; [by right | done] |]. by split.
Qed.

(** Saving what was loaded: the file is as it was or holds the snapshot of
    the cards, and the same cards are loaded from it. *)
Lemma save_cards_loaded (now : datetime) (f : file) (cards : list Flashcard) :
  load_cards now f = Return cards ->
  ((save_cards cards f).1 = f \/ (save_cards cards f).1 = Holds (snapshot cards))
  /\ ((save_cards cards f).2 = Return tt <-> writable f = true)
  /\ ((save_cards cards f).2 <> Return tt -> (save_cards cards f).1 = f)
  /\ forall later, load_cards later (save_cards cards f).1 = Return cards.
Proof.
  intros Hload. destruct (load_cards_Return _ _ _ Hload) as (Hf & Hc & Hany).
  unfold save_cards, open_write.
  destruct Hf as [[[-> | ->] ->] | [t [-> | ->]]]; cbn [fst snd writable].
  - split; [by right |]. split; [done |]. split; [done |].
    intros later. by apply load_snapshot.
  - split; [by left |]. split; [done |]. split; [done |]. exact Hany.
  - split; [by right |]. split; [done |]. split; [done |].
    intros later. by apply load_snapshot.
  - split; [by left |]. split; [done |]. split; [done |]. exact Hany.
Qed.

(** X5. Saving what was loaded changes nothing that is loaded: whenever
    [load_cards] returns a list from a file, whatever the file holds (no
    file at all, records without counters, records with further fields),
    [save_cards] of that list returns exactly when the process may write
    the file, or create it; when it raises, as on a file that can only be
    read, the file is as it was; and in both cases [load_cards] returns the
    same list from the file that the call leaves. *)
Theorem load_save_load (now later : datetime) (f : file) (cards : list Flashcard) :
  load_cards now f = Return cards ->
  ((save_cards cards f).2 = Return tt <-> writable f = true)
  /\ ((save_cards cards f).2 <> Return tt ->
      (save_cards cards f).2 = Raise PermissionError /\ (save_cards cards f).1 = f)
  /\ load_cards later (save_cards cards f).1 = Return cards.
Proof.
  intros Hload.
  destruct (save_cards_loaded now f cards Hload) as (_ & Hw & Hfail & Hlater).
  split; [exact Hw |]. split; [| apply Hlater].
  intros Hne. split; [| by apply Hfail].
  unfold save_cards, open_write in *. by destruct f.
Qed.

Lemma load_save_load_witness :
  ((save_cards [mk_Flashcard "gato" "cat" 2 (mk_datetime 2024 3 1 9 15 0 500000) 0 4]
      (ReadOnly (Encoded (JList [JObj old_record])))).2 = Return tt
   <-> writable (ReadOnly (Encoded (JList [JObj old_record]))) = true)
  /\ ((save_cards [mk_Flashcard "gato" "cat" 2 (mk_datetime 2024 3 1 9 15 0 500000) 0 4]
         (ReadOnly (Encoded (JList [JObj old_record])))).2 <> Return tt ->
      (save_cards [mk_Flashcard "gato" "cat" 2 (mk_datetime 2024 3 1 9 15 0 500000) 0 4]
         (ReadOnly (Encoded (JList [JObj old_record])))).2 = Raise PermissionError
      /\ (save_cards [mk_Flashcard "gato" "cat" 2 (mk_datetime 2024 3 1 9 15 0 500000) 0 4]
            (ReadOnly (Encoded (JList [JObj old_record])))).1
         = ReadOnly (Encoded (JList [JObj old_record])))
  /\ load_cards (mk_datetime 2024 3 1 12 0 0 250000)
       (save_cards [mk_Flashcard "gato" "cat" 2 (mk_datetime 2024 3 1 9 15 0 500000) 0 4]
          (ReadOnly (Encoded (JList [JObj old_record])))).1
     = Return [mk_Flashcard "gato" "cat" 2 (mk_datetime 2024 3 1 9 15 0 500000) 0 4].
Proof.
  apply (load_save_load noon (mk_datetime 2024 3 1 12 0 0 250000)
           (ReadOnly (Encoded (JList [JObj old_record])))).
  reflexivity.
Defined.

(** ** Quizzes when words repeat *)

(** X6. [create_quiz] asks about the first card that has the word: when no
    card before [c] in the list has the word of [c], the answer is the
    translation of [c], whatever cards follow, also cards with the same
    word; the answer is among the options, there are between one and four
    options, and every option other than the answer is the translation of
    a card of the list with another word. *)
Theorem create_quiz_first_match (before after : list Flashcard) (c : Flashcard)
    (g : rng) :
  Forall (λ card, word card ≠ word c) before ->
  exists (options : list string) (g' : rng),
    create_quiz (before ++ c :: after) (word c) g
    = Return (options, translation c, g')
    /\ translation c ∈ options
    /\ (1 <= length options <= 4)%nat
    /\ forall o, o ∈ options ->
         o = translation c
         \/ exists card, card ∈ before ++ c :: after
                         /\ word card ≠ word c /\ translation card = o.
Proof.
  intros Hbefore.
  assert (E : filter (λ card, word card = word c) (before ++ c :: after)
              = c :: filter (λ card, word card = word c) after).
  { rewrite filter_app, filter_cons_True by reflexivity.
    replace (filter (λ card, word card = word c) before) with (@nil Flashcard);
      [reflexivity |].
    symmetry. by apply (matching_nil_iff before (word c)). }
  destruct (create_quiz_present _ _ g _ _ E)
    as (drawn & options & g' & Hrun & Hperm & Hlen & Hdrawn).
  exists options, g'. split; [exact Hrun |]. split; [| split].
  - rewrite Hperm. by left.
  - rewrite Hperm. cbn [length]. lia.
  - intros o Ho. rewrite Hperm in Ho. apply elem_of_cons in Ho as [-> | Ho];
      [by left | right].
    pose proof (elem_of_submseteq _ _ _ Ho Hdrawn) as Hin.
    apply list_elem_of_fmap in Hin as (card & Heq & Hcard).
    apply list_elem_of_filter in Hcard as [Hw Hcard]. by exists card.
Qed.

Lemma create_quiz_first_match_witness :
  exists (options : list string) (g' : rng),
    create_quiz ([casa; perro] ++ gato :: [sol; mk_Flashcard "gato" "tomcat" 0 noon 0 0])
      (word gato) draws
    = Return (options, translation gato, g')
    /\ translation gato ∈ options
    /\ (1 <= length options <= 4)%nat
    /\ forall o, o ∈ options ->
         o = translation gato
         \/ exists card,
              card ∈ [casa; perro] ++ gato :: [sol; mk_Flashcard "gato" "tomcat" 0 noon 0 0]
              /\ word card ≠ word gato /\ translation card = o.
Proof.
  apply (create_quiz_first_match [casa; perro]
           [sol; mk_Flashcard "gato" "tomcat" 0 noon 0 0] gato draws).
  repeat constructor; discriminate.
Defined.

(** X7. When the words of the list are all different, the quiz about a
    card of the list has that card's translation as its answer, and the
    answer is among the options: the question that the quiz tab asks about
    the card it shows is answered by the translation of that card. *)
Theorem create_quiz_of_card (cards : list Flashcard) (card : Flashcard) (g : rng) :
  NoDup (word <$> cards) -> card ∈ cards ->
  exists (options : list string) (g' : rng),
    create_quiz cards (word card) g = Return (options, translation card, g')
    /\ translation card ∈ options.
Proof.
  intros Hnd Hcard.
  apply list_elem_of_split in Hcard as (before & after & ->).
  assert (Hbefore : Forall (λ c, word c ≠ word card) before).
  { rewrite fmap_app in Hnd. apply NoDup_app in Hnd as (_ & Hdisj & _).
    apply Forall_forall. intros c Hc Hw. apply (Hdisj (word c)).
    - by apply list_elem_of_fmap_2.
    - rewrite Hw. cbn [fmap list_fmap]. by left. }
  assert (E : filter (λ c, word c = word card) (before ++ card :: after)
              = card :: filter (λ c, word c = word card) after).
  { rewrite filter_app, filter_cons_True by reflexivity.
    replace (filter (λ c, word c = word card) before) with (@nil Flashcard);
      [reflexivity |].
    symmetry. by apply (matching_nil_iff before (word card)). }
  destruct (create_quiz_present _ _ g _ _ E)
    as (drawn & options & g' & Hrun & Hperm & _).
  exists options, g'. split; [exact Hrun |]. rewrite Hperm. by left.
Qed.

Lemma create_quiz_of_card_witness :
  exists (options : list string) (g' : rng),
    create_quiz deck (word perro) draws = Return (options, translation perro, g')
    /\ translation perro ∈ options.
Proof.
  apply (create_quiz_of_card deck perro draws).
  - vm_compute.
    repeat (apply NoDup_cons; split;
            [intros H;
             repeat (apply elem_of_cons in H as [H | H]; [discriminate H |]);
             by apply elem_of_nil in H |]).
    apply NoDup_nil_2.
  - right. left.
Defined.

(** ** Totals and the chart of the statistics block *)

Lemma fold_left_add (l : list Z) (a : Z) :
  fold_left Z.add l a = a + fold_left Z.add l 0.
Proof.
  revert a. induction l as [| x l IH]; intros a; cbn [fold_left]; [lia |].
  rewrite (IH (a + x)), (IH (0 + x)). lia.
Qed.

Lemma sum_Z_cons (x : Z) (l : list Z) : sum_Z (x :: l) = x + sum_Z l.
Proof. unfold sum_Z. cbn [fold_left]. rewrite fold_left_add. lia. Qed.

Lemma sum_Z_app (l k : list Z) : sum_Z (l ++ k) = sum_Z l + sum_Z k.
Proof.
  induction l as [| x l IH]; [reflexivity |].
  cbn [app]. rewrite !sum_Z_cons, IH. lia.
Qed.

Lemma sum_Z_insert (l : list Z) (i : nat) (x y : Z) :
  l !! i = Some x -> sum_Z (<[i := y]> l) = sum_Z l - x + y.
Proof.
  revert i. induction l as [| a l IH]; intros [| i] H; try done.
  - cbn in H. injection H as ->. cbn [insert list_insert]. rewrite !sum_Z_cons. lia.
  - cbn in H. change (<[S i := y]> (a :: l)) with (a :: <[i := y]> l).
    rewrite !sum_Z_cons, (IH i H). lia.
Qed.

Lemma sum_Z_nonneg (l : list Z) :
  Forall (λ x, 0 <= x) l -> 0 <= sum_Z l /\ (0 < sum_Z l <-> Exists (λ x, 0 < x) l).
Proof.
  induction 1 as [| x l Hx _ [IH1 IH2]].
  - split; [done |]. split; [done | by intros ?%Exists_nil].
  - rewrite sum_Z_cons, Exists_cons. split; [lia |]. split.
    + intros H. destruct (decide (0 < x)); [by left | right]. apply IH2. lia.
    + intros [H | H]; [lia |]. apply IH2 in H. lia.
Qed.

Lemma study_statistics_totals_Some (cards : list Flashcard) :
  cards <> [] ->
  total_reviews <$> study_statistics cards = Some (sum_Z (reviews <$> cards))
  /\ total_cards <$> study_statistics cards = Some (len cards).
Proof. by destruct cards. Qed.

(** X8. The totals of the statistics block follow the operations: after
    [update_card_status] on a card of the list, with any outcome, "Total
    Reviews" is one more and "Total Cards" is the same; after a new card is
    appended, "Total Cards" is one more and "Total Reviews" is the same. *)
Theorem study_statistics_totals (cards : list Flashcard) (p : nat)
    (c : Flashcard) (was_correct : bool) (now : datetime) (w t : string) :
  cards !! p = Some c ->
  total_reviews
    <$> study_statistics (<[p := (update_card_status c was_correct now).1]> cards)
  = (λ n, n + 1) <$> (total_reviews <$> study_statistics cards)
  /\ total_cards
       <$> study_statistics (<[p := (update_card_status c was_correct now).1]> cards)
     = total_cards <$> study_statistics cards
  /\ total_reviews <$> study_statistics (cards ++ [new_card w t now])
     = total_reviews <$> study_statistics cards
  /\ total_cards <$> study_statistics (cards ++ [new_card w t now])
     = (λ n, n + 1) <$> (total_cards <$> study_statistics cards).
Proof.
  intros Hp.
  destruct (update_card_status_counters c was_correct now) as (Hr & _).
  set (c' := (update_card_status c was_correct now).1) in *.
  assert (Hne : cards <> []) by (by intros ->).
  assert (Hne' : <[p := c']> cards <> [])
    by (intros E; apply (f_equal length) in E; rewrite length_insert in E;
        by destruct cards).
  assert (Hne'' : cards ++ [new_card w t now] <> []) by (by destruct cards).
  destruct (study_statistics_totals_Some _ Hne) as [-> ->].
  destruct (study_statistics_totals_Some _ Hne') as [-> ->].
  destruct (study_statistics_totals_Some _ Hne'') as [-> ->].
  cbn [fmap option_fmap option_map]. repeat split; f_equal.
  - rewrite list_fmap_insert.
    rewrite (sum_Z_insert _ p (reviews c)); [lia |].
    by rewrite list_lookup_fmap, Hp.
  - unfold len. by rewrite length_insert.
  - rewrite fmap_app, sum_Z_app. cbn. lia.
  - unfold len. rewrite length_app. cbn. lia.
Qed.

Lemma study_statistics_totals_witness :
  total_reviews
    <$> study_statistics (<[1%nat := (update_card_status perro false noon).1]>
                            [half_known; perro])
  = (λ n, n + 1) <$> (total_reviews <$> study_statistics [half_known; perro])
  /\ total_cards
       <$> study_statistics (<[1%nat := (update_card_status perro false noon).1]>
                               [half_known; perro])
     = total_cards <$> study_statistics [half_known; perro]
  /\ total_reviews <$> study_statistics ([half_known; perro] ++ [new_card "sol" "sun" noon])
     = total_reviews <$> study_statistics [half_known; perro]
  /\ total_cards <$> study_statistics ([half_known; perro] ++ [new_card "sol" "sun" noon])
     = (λ n, n + 1) <$> (total_cards <$> study_statistics [half_known; perro]).
Proof.
  apply (study_statistics_totals [half_known; perro] 1 perro false noon "sol" "sun").
  reflexivity.
Defined.

(** With counters of the data model every bar is computed. *)
Lemma bars_Return (cards : list Flashcard) :
  Forall (λ card, 0 <= correct card <= reviews card) cards ->
  exists bars : list (string * float),
    comprehension bar cards = Return bars
    /\ bars.*1 = word <$> cards
    /\ Forall2 (λ bar card, reviews card = 0 -> bar.2 = float_of_int 0) bars cards.
Proof.
  induction 1 as [| c cards Hc _ (bars & Hbars & Hwords & Hzero)].
  - exists []. by repeat split.
  - assert (Hbar : exists b, bar c = Return b /\ b.1 = word c
                             /\ (reviews c = 0 -> b.2 = float_of_int 0)).
    { unfold bar. destruct (Z.ltb_spec 0 (reviews c)) as [Hpos | Hnone].
      - destruct (int_truediv_fraction (correct c) (reviews c) Hc Hpos) as [-> _].
        eexists. split; [reflexivity |]. split; [reflexivity | lia].
      - eexists. split; [reflexivity |]. by split. }
    destruct Hbar as (b & Hb & Hword & Hnone).
    exists (b :: bars). cbn [comprehension]. rewrite Hb, Hbars.
    split; [reflexivity |]. split; [cbn; by rewrite Hword, Hwords |].
    by constructor.
Qed.

(** With counters of the data model the statistics block does not raise. *)
Lemma statistics_block_returns (cards : list Flashcard) :
  Forall (λ card, 0 <= correct card <= reviews card) cards ->
  statistics_block cards = Return tt.
Proof.
  intros Hcards. unfold statistics_block, study_statistics.
  destruct cards as [| c0 cards']; [reflexivity |]. set (cards := c0 :: cards') in *.
  cbn [avg_accuracy]. unfold average_accuracy.
  destruct (card_accuracies_or_zero cards Hcards) as [-> _].
  cbn [mbind result_bind]. unfold performance_chart. subst cards.
  destruct (0 <? _); [| reflexivity].
  destruct (bars_Return _ Hcards) as (bars & -> & _). reflexivity.
Qed.

(** X9. With counters of the data model ([0 <= correct <= reviews] on every
    card) the statistics block does not raise, and the performance chart is
    drawn exactly when some card has been reviewed; it then has one bar per
    card, in the order of the list and under the word of the card, and the
    bar of a card without reviews is 0. *)
Theorem performance_chart_drawn (cards : list Flashcard) :
  Forall (λ card, 0 <= correct card <= reviews card) cards ->
  statistics_block cards = Return tt
  /\ exists chart : option (list (string * float)),
       performance_chart cards = Return chart
       /\ (is_Some chart <-> Exists (λ card, 0 < reviews card) cards)
       /\ forall bars, chart = Some bars ->
            bars.*1 = word <$> cards
            /\ Forall2 (λ bar card, reviews card = 0 -> bar.2 = float_of_int 0)
                 bars cards.
Proof.
  intros Hcards. split; [by apply statistics_block_returns |].
  assert (Hsum : 0 < sum_Z (reviews <$> cards) <-> Exists (λ card, 0 < reviews card) cards).
  { destruct (sum_Z_nonneg (reviews <$> cards)) as [_ ->].
    - rewrite Forall_fmap. eapply Forall_impl; [exact Hcards |]. cbn. intros; lia.
    - by rewrite Exists_fmap. }
  destruct (bars_Return cards Hcards) as (bars & Hbars & Hwords & Hzero).
  unfold performance_chart.
  destruct cards as [| c0 cards']; [| set (cards := c0 :: cards') in *].
  - exists None. split; [reflexivity |].
    split; [split; [by intros [? [=]] | by intros ?%Exists_nil] | done].
  - destruct (Z.ltb_spec 0 (sum_Z (reviews <$> cards))) as [Hlt | Hge].
    + exists (Some bars). rewrite Hbars. split; [reflexivity |]. split.
      * split; [intros _; by apply Hsum | by eexists].
      * intros ? [= <-]. by split.
    + exists None. split; [reflexivity |]. split.
      * split; [by intros [? [=]] | intros H; apply Hsum in H; lia].
      * done.
Qed.

Lemma performance_chart_drawn_witness :
  statistics_block [half_known; gato] = Return tt
  /\ exists chart : option (list (string * float)),
       performance_chart [half_known; gato] = Return chart
       /\ (is_Some chart <-> Exists (λ card, 0 < reviews card) [half_known; gato])
       /\ forall bars, chart = Some bars ->
            bars.*1 = word <$> [half_known; gato]
            /\ Forall2 (λ bar card, reviews card = 0 -> bar.2 = float_of_int 0)
                 bars [half_known; gato].
Proof.
  apply (performance_chart_drawn [half_known; gato]).
  repeat constructor; vm_compute; discriminate.
Defined.

(** ** The session state *)

Lemma set_if_absent_union (key : string) (v : value) (s : gmap string value) :
  set_if_absent key v s = s ∪ {[key := v]}.
Proof.
  unfold set_if_absent. apply map_eq. intros k.
  rewrite lookup_union.
  destruct (s !! key) as [x |] eqn:E.
  - destruct (decide (k = key)) as [-> | Hne].
    + rewrite E, lookup_singleton_eq. reflexivity.
    + rewrite lookup_singleton_ne by done. by destruct (s !! k).
  - destruct (decide (k = key)) as [-> | Hne].
    + rewrite lookup_insert_eq, E, lookup_singleton_eq. reflexivity.
    + rewrite lookup_insert_ne, lookup_singleton_ne by done. by destruct (s !! k).
Qed.

Lemma init_session_state_union (s : gmap string value) :
  init_session_state s = s ∪ default_session.
Proof.
  unfold init_session_state. rewrite !set_if_absent_union.
  rewrite <- !(assoc_L (∪)). f_equal.
Qed.

Lemma init_session_state_lookup (s : gmap string value) (key : string) (v : value) :
  s !! key = Some v -> init_session_state s !! key = Some v.
Proof. intros H. rewrite init_session_state_union. by apply lookup_union_Some_l. Qed.

(** X10. The initialisation at the head of the script fills in defaults and
    resets nothing: the session state it leaves is the one it found, with
    the six defaults ([None], an empty list, an empty dict and three zeros)
    under the keys that were not set; run again, it changes nothing, so the
    score, the number of answers and the view index survive every rerun. *)
Theorem init_session_state_defaults (s : gmap string value) :
  init_session_state s = s ∪ default_session
  /\ init_session_state (init_session_state s) = init_session_state s.
Proof.
  split; [apply init_session_state_union |].
  rewrite !init_session_state_union, <- (assoc_L (∪)).
  f_equal; apply (idemp_L (∪)).
Qed.

(** ** Running the actions of the script *)

Lemma getattr_Some (key : string) (v : value) (w : world) :
  session w !! key = Some v -> getattr key w = (w, Finished v).
Proof. unfold getattr. intros ->. reflexivity. Qed.

(** An action that returned has gone through each of its steps; one that
    stopped has stopped in one of them. *)
Lemma bind_run {A B : Type} (m : action A) (k : A -> action B)
    (w w' : world) (r : ended B) :
  (m ≫= k) w = (w', r) ->
  (exists w1 a, m w = (w1, Finished a) /\ k a w1 = (w', r))
  \/ (exists why, m w = (w', Stopped why) /\ r = Stopped why).
Proof.
  unfold mbind, action_bind. destruct (m w) as [w1 [a | why]]; intros H.
  - left. by exists w1, a.
  - right. exists why. by simplify_eq.
Qed.

Ltac run_in H :=
  try unfold mbind, action_bind, mret, action_ret in H;
  cbn [lift value_int value_card] in H.
Ltac read_in H Hkey := rewrite (getattr_Some _ _ _ Hkey) in H; run_in H.
Ltac run := unfold mbind, action_bind, mret, action_ret; cbn [lift value_int value_card].

(** The first step of the run [H], which either finished in world [w] with
    value [a] or stopped. *)
Ltac step H w a Hm :=
  apply bind_run in H as [(w & a & Hm & H) | (? & Hm & ->)].

(** The first step reads a key that the session is known to hold. *)
Ltac step_read H Hkey :=
  let w := fresh "w" in let v := fresh "v" in let Hget := fresh "Hget" in
  apply bind_run in H as [(w & v & Hget & H) | (? & Hget & ->)];
  rewrite (getattr_Some _ _ _ Hkey) in Hget; [injection Hget as <- <- | discriminate].

Lemma iadd_int (key : string) (z n : Z) (w : world) :
  session w !! key = Some (VInt z) ->
  iadd key n w
  = (mk_world (<[key := VInt (z + n)]> (session w)) (disk w) (entropy w),
     Finished tt).
Proof.
  intros H. unfold iadd. run. rewrite (getattr_Some _ _ _ H). reflexivity.
Qed.

Lemma previous_card_run (i : Z) (w : world) :
  session w !! "view_index" = Some (VInt i) ->
  previous_card w
  = (mk_world (<["view_index" := VInt (Z.max 0 (i - 1))]> (session w))
       (disk w) (entropy w),
     Stopped RerunException).
Proof.
  intros H. unfold previous_card. run. rewrite (getattr_Some _ _ _ H).
  reflexivity.
Qed.

Lemma next_card_run (cards : list Flashcard) (i : Z) (w : world) :
  session w !! "view_index" = Some (VInt i) ->
  next_card cards w
  = (mk_world (<["view_index" := VInt (Z.min (len cards - 1) (i + 1))]> (session w))
       (disk w) (entropy w),
     Stopped RerunException).
Proof.
  intros H. unfold next_card. run. rewrite (getattr_Some _ _ _ H).
  reflexivity.
Qed.

(** How a division of integers ends. *)
Lemma int_truediv_cases (a b : Z) :
  (int_truediv a b = Raise ZeroDivisionError <-> b = 0)
  /\ (b <> 0 -> returns (int_truediv a b) \/ int_truediv a b = Raise OverflowError).
Proof.
  unfold int_truediv, returns. destruct (Z.eqb_spec b 0) as [-> | Hb].
  - by split.
  - split.
    + split; [| done]. by destruct (SFdiv _ _ _ _).
    + intros _. destruct (SFdiv _ _ _ _); eauto.
Qed.

Lemma submit_answer_run (ui : widgets) (user_answer correct_answer : string)
    (q n : Z) (w : world) :
  session w !! "quiz_score" = Some (VInt q) ->
  session w !! "total_reviews" = Some (VInt n) ->
  submit_answer ui user_answer correct_answer w
  = (mk_world
       (submitted (bool_decide (user_answer = correct_answer)) q n (session w))
       (disk w) (entropy w),
     match int_truediv
             (if bool_decide (user_answer = correct_answer) then q + 1 else q)
             (n + 1) with
     | Raise e => Stopped (Exception e)
     | Return _ =>
         if next_question_button ui then Stopped RerunException else Finished tt
     end).
Proof.
  intros Hq Hn. unfold submit_answer, submitted. run.
  destruct (decide (user_answer = correct_answer)) as [Heq | Hne].
  - rewrite (bool_decide_eq_true_2 _ Heq).
    rewrite (iadd_int _ q 1 w Hq).
    erewrite (iadd_int _ n 1) by (cbn [session]; by simplify_map_eq).
    cbn [session disk entropy setattr].
    erewrite getattr_Some by (cbn [session]; by simplify_map_eq).
    erewrite getattr_Some by (cbn [session]; by simplify_map_eq).
    cbn [lift value_int]. unfold truediv, lift.
    destruct (int_truediv (q + 1) (n + 1)); [| reflexivity].
    unfold rerun. by destruct (next_question_button ui).
  - rewrite (bool_decide_eq_false_2 _ Hne).
    erewrite (iadd_int _ n 1) by (cbn [session]; by simplify_map_eq).
    cbn [session disk entropy setattr].
    erewrite getattr_Some by (cbn [session]; by simplify_map_eq).
    erewrite getattr_Some by (cbn [session]; by simplify_map_eq).
    cbn [lift value_int]. unfold truediv, lift.
    destruct (int_truediv q (n + 1)); [| reflexivity].
    unfold rerun. by destruct (next_question_button ui).
Qed.

(** [random.choice] of a sequence that is not empty returns one of its
    elements. *)
Lemma random_choice_elem {A : Type} (seq : list A) (g : rng) :
  seq <> [] ->
  exists (i : nat) (x : A) (g' : rng),
    random_choice seq g = Return (x, g') /\ seq !! i = Some x.
Proof.
  intros Hne. unfold random_choice. destruct seq as [| a seq']; [done |].
  set (seq := a :: seq') in *.
  pose proof (randbelow_lt (length seq) g ltac:(cbn; lia)) as Hlt.
  destruct (randbelow (length seq) g) as [i g']. cbn [fst] in Hlt.
  destruct (list_getitem_in_range seq (Z.of_nat i)) as (x & Hget & Hx);
    [unfold len; lia |].
  rewrite Hget. rewrite Nat2Z.id in Hx. by exists i, x, g'.
Qed.

Lemma create_quiz_returns (cards : list Flashcard) (current_word : string)
    (g : rng) :
  current_word ∈ word <$> cards ->
  exists options answer g',
    create_quiz cards current_word g = Return (options, answer, g').
Proof.
  intros (c & Hw & Hc)%list_elem_of_fmap.
  destruct (filter (λ card, word card = current_word) cards) as [| c0 rest] eqn:E.
  - apply matching_nil_iff in E. rewrite Forall_forall in E. by destruct (E c Hc).
  - destruct (create_quiz_present cards current_word g c0 rest E)
      as (drawn & options & g' & Hrun & _).
    by exists options, (translation c0), g'.
Qed.

(** ** The view tab *)

Lemma list_getitem_returns {A : Type} (l : list A) (i : Z) :
  returns (list_getitem l i) <-> - len l <= i < len l.
Proof.
  unfold list_getitem, returns, len. split.
  - intros [x Hx]. revert Hx.
    destruct (Z.ltb_spec i 0);
      match goal with |- context [(0 <=? ?j) && (?j <? ?n)] =>
        destruct (Z.leb_spec 0 j), (Z.ltb_spec j n) end;
      cbn [andb]; try discriminate; lia.
  - intros Hi.
    destruct (Z.ltb_spec i 0);
      match goal with |- context [(0 <=? ?j) && (?j <? ?n)] =>
        destruct (Z.leb_spec 0 j), (Z.ltb_spec j n) end; try lia; cbn [andb];
      match goal with |- context [l !! ?k] =>
        destruct (lookup_lt_is_Some_2 l k) as [x ->]; [lia | by exists x] end.
Qed.

Lemma list_getitem_IndexError {A : Type} (l : list A) (i : Z) :
  ~ returns (list_getitem l i) -> list_getitem l i = Raise IndexError.
Proof.
  unfold list_getitem, returns. intros Hno.
  destruct ((0 <=? _) && _); [| reflexivity].
  destruct (l !! _) as [x |]; [| reflexivity]. destruct Hno. by exists x.
Qed.

(** How the view tab ends when the card at the index exists. *)
Lemma view_tab_run (ui : widgets) (cards : list Flashcard) (i : Z) (w : world) :
  session w !! "view_index" = Some (VInt i) -> returns (list_getitem cards i) ->
  quiet (view_tab ui cards w).2
  /\ session (view_tab ui cards w).1 !! "view_index"
     = Some (VInt (shown_index ui cards i)).
Proof.
  intros Hi Hret.
  pose proof (proj1 (list_getitem_returns cards i) Hret) as Hin.
  destruct Hret as [card Hget].
  destruct (view_tab ui cards w) as [w' r] eqn:Hrun. cbn [fst snd].
  unfold view_tab in Hrun.
  destruct cards as [| c0 cards']; [unfold len in Hin; cbn in Hin; lia |].
  set (cards := c0 :: cards') in *.
  step_read Hrun Hi.
  step Hrun w1 z Hz; cbn in Hz; [injection Hz as <- <- | discriminate].
  step Hrun w2 c Hc; rewrite Hget in Hc; cbn in Hc;
    [injection Hc as <- <- | discriminate].
  unfold shown_index. destruct (previous_button ui).
  - step Hrun w3 u Hprev; rewrite (previous_card_run i w Hi) in Hprev;
      [discriminate | injection Hprev as <- <-].
    split; [exact I | cbn [session]; by simplify_map_eq].
  - step Hrun w3 u Hprev; unfold mret, action_ret in Hprev;
      [injection Hprev as <- <- | discriminate].
    destruct (next_button ui).
    + step Hrun w4 u2 Hnext; rewrite (next_card_run cards i w Hi) in Hnext;
        [discriminate | injection Hnext as <- <-].
      split; [exact I | cbn [session]; by simplify_map_eq].
    + step Hrun w4 u2 Hnext; unfold mret, action_ret in Hnext;
        [injection Hnext as <- <- | discriminate].
      unfold mret, action_ret in Hrun. injection Hrun as <- <-. by split.
Qed.

(** X11. Paging through the cards stays within the list: when the view
    index is a position of the list, the view tab shows the card there and
    ends without an exception; the index it leaves is one less after
    "Previous" and one more after "Next", except that it stays 0 at the
    first card and [len(cards) - 1] at the last; it is again a position of
    the list, whose card the next run shows. *)
Theorem view_tab_navigation (ui : widgets) (cards : list Flashcard) (i : Z)
    (w : world) :
  session w !! "view_index" = Some (VInt i) -> 0 <= i < len cards ->
  quiet (view_tab ui cards w).2
  /\ session (view_tab ui cards w).1 !! "view_index"
     = Some (VInt (shown_index ui cards i))
  /\ 0 <= shown_index ui cards i < len cards
  /\ i - 1 <= shown_index ui cards i <= i + 1
  /\ returns (list_getitem cards (shown_index ui cards i)).
Proof.
  intros Hi Hrange.
  assert (Hshown : 0 <= shown_index ui cards i < len cards
                   /\ i - 1 <= shown_index ui cards i <= i + 1)
    by (unfold shown_index; destruct (previous_button ui), (next_button ui); lia).
  destruct (view_tab_run ui cards i w Hi) as [Hq Hs];
    [apply list_getitem_returns; lia |].
  destruct Hshown as [Hin Hnear].
  repeat split; try done; try lia.
  apply list_getitem_returns. lia.
Qed.

Lemma view_tab_navigation_witness :
  quiet (view_tab paging deck (mk_world (<["view_index" := VInt 4]> default_session)
                                 shelf draws)).2
  /\ session (view_tab paging deck
                (mk_world (<["view_index" := VInt 4]> default_session) shelf draws)).1
       !! "view_index"
     = Some (VInt (shown_index paging deck 4))
  /\ 0 <= shown_index paging deck 4 < len deck
  /\ 4 - 1 <= shown_index paging deck 4 <= 4 + 1
  /\ returns (list_getitem deck (shown_index paging deck 4)).
Proof.
  apply (view_tab_navigation paging deck 4
           (mk_world (<["view_index" := VInt 4]> default_session) shelf draws)).
  - reflexivity.
  - vm_compute. split; [discriminate | reflexivity].
Defined.

(** X12. The view tab raises [IndexError] exactly when the view index is
    outside [-len(cards), len(cards)), which is when the list has become
    shorter than the index; it then leaves the session and the file as they
    were. An index within that range does not raise; a negative one counts
    from the end of the list. *)
Theorem view_tab_IndexError (ui : widgets) (cards : list Flashcard) (i : Z)
    (w : world) :
  cards <> [] -> session w !! "view_index" = Some (VInt i) ->
  ((view_tab ui cards w).2 = Stopped (Exception IndexError)
   <-> ~ (- len cards <= i < len cards))
  /\ (~ (- len cards <= i < len cards) -> (view_tab ui cards w).1 = w)
  /\ (- len cards <= i < len cards -> quiet (view_tab ui cards w).2).
Proof.
  intros Hne Hi.
  destruct (decide (- len cards <= i < len cards)) as [Hin | Hout].
  - destruct (view_tab_run ui cards i w Hi) as [Hq _];
      [by apply list_getitem_returns |].
    split; [| split]; [| done | done].
    split; [| done]. intros Hrun. rewrite Hrun in Hq. destruct Hq.
  - assert (Hrun : view_tab ui cards w = (w, Stopped (Exception IndexError))).
    { unfold view_tab. destruct cards as [| c0 cards']; [done |].
      unfold mbind, action_bind. rewrite (getattr_Some _ _ _ Hi).
      cbn [lift value_int]. rewrite list_getitem_IndexError; [reflexivity |].
      by rewrite list_getitem_returns. }
    rewrite Hrun. by repeat split.
Qed.

Lemma view_tab_IndexError_witness :
  ((view_tab idle [casa; perro]
      (mk_world (<["view_index" := VInt 4]> default_session) shelf draws)).2
   = Stopped (Exception IndexError)
   <-> ~ (- len [casa; perro] <= 4 < len [casa; perro]))
  /\ (~ (- len [casa; perro] <= 4 < len [casa; perro]) ->
      (view_tab idle [casa; perro]
         (mk_world (<["view_index" := VInt 4]> default_session) shelf draws)).1
      = mk_world (<["view_index" := VInt 4]> default_session) shelf draws)
  /\ (- len [casa; perro] <= 4 < len [casa; perro] ->
      quiet (view_tab idle [casa; perro]
               (mk_world (<["view_index" := VInt 4]> default_session) shelf draws)).2).
Proof.
  apply (view_tab_IndexError idle [casa; perro] 4
           (mk_world (<["view_index" := VInt 4]> default_session) shelf draws)).
  - discriminate.
  - reflexivity.
Defined.

(** ** The quiz tab *)

(** X13. A submitted answer is counted once: with integer counters in the
    session, the handler of "Submit Answer" adds one to [total_reviews],
    adds one to [quiz_score] exactly when the answer equals the correct
    one, clears the current card, and touches no other key and not the
    file. The division for the accuracy fails with [ZeroDivisionError],
    after the counters were updated, exactly when [total_reviews] was -1;
    otherwise the handler ends without an exception, unless the quotient is
    beyond the range of [float] ([OverflowError]), which it is not when
    [0 <= quiz_score <= total_reviews]. *)
Theorem submit_answer_counts (ui : widgets) (user_answer correct_answer : string)
    (q n : Z) (w : world) :
  session w !! "quiz_score" = Some (VInt q) ->
  session w !! "total_reviews" = Some (VInt n) ->
  session (submit_answer ui user_answer correct_answer w).1 !! "total_reviews"
  = Some (VInt (n + 1))
  /\ session (submit_answer ui user_answer correct_answer w).1 !! "quiz_score"
     = Some (VInt (if decide (user_answer = correct_answer) then q + 1 else q))
  /\ session (submit_answer ui user_answer correct_answer w).1 !! "current_card"
     = Some VNone
  /\ (forall key, key ∉ ["quiz_score"; "total_reviews"; "current_card"] ->
        session (submit_answer ui user_answer correct_answer w).1 !! key
        = session w !! key)
  /\ disk (submit_answer ui user_answer correct_answer w).1 = disk w
  /\ ((submit_answer ui user_answer correct_answer w).2
      = Stopped (Exception ZeroDivisionError)
      <-> n = -1)
  /\ (n <> -1 ->
      quiet (submit_answer ui user_answer correct_answer w).2
      \/ (submit_answer ui user_answer correct_answer w).2
         = Stopped (Exception OverflowError))
  /\ (0 <= q <= n -> quiet (submit_answer ui user_answer correct_answer w).2).
Proof.
  intros Hq Hn.
  rewrite (submit_answer_run ui user_answer correct_answer q n w Hq Hn).
  cbn [fst snd session disk]. unfold submitted.
  split; [by simplify_map_eq |]. split.
  { destruct (decide (user_answer = correct_answer)) as [Heq | Hne].
    - rewrite (bool_decide_eq_true_2 _ Heq). by simplify_map_eq.
    - rewrite (bool_decide_eq_false_2 _ Hne). by simplify_map_eq. }
  split; [by simplify_map_eq |]. split.
  { intros key Hkey.
    assert (key <> "quiz_score" /\ key <> "total_reviews" /\ key <> "current_card")
      as (? & ? & ?) by (repeat split; intros ->; apply Hkey; set_solver).
    destruct (bool_decide (user_answer = correct_answer)); by simplify_map_eq. }
  split; [reflexivity |].
  set (score := if bool_decide (user_answer = correct_answer) then q + 1 else q).
  assert (Hscore : q <= score <= q + 1)
    by (subst score; destruct (bool_decide _); lia).
  destruct (int_truediv_cases score (n + 1)) as [Hzero Hother].
  split; [| split].
  - rewrite <- (Z.add_move_0_r n 1), <- Hzero.
    destruct (int_truediv score (n + 1)) as [x | e].
    + split; [by destruct (next_question_button ui) | discriminate].
    + split; [by intros [= ->] | by intros [= ->]].
  - intros Hn1. destruct Hother as [[x ->] | ->]; [lia | | by right].
    left. by destruct (next_question_button ui).
  - intros Hqn.
    destruct (int_truediv_fraction score (n + 1)) as [-> _]; [lia | lia |].
    by destruct (next_question_button ui).
Qed.

Lemma submit_answer_counts_witness :
  session (submit_answer answering "cat" "cat" (mk_world default_session shelf draws)).1
    !! "total_reviews"
  = Some (VInt (0 + 1))
  /\ session (submit_answer answering "cat" "cat"
                (mk_world default_session shelf draws)).1 !! "quiz_score"
     = Some (VInt (if decide ("cat" = "cat") then 0 + 1 else 0))
  /\ session (submit_answer answering "cat" "cat"
                (mk_world default_session shelf draws)).1 !! "current_card"
     = Some VNone
  /\ (forall key, key ∉ ["quiz_score"; "total_reviews"; "current_card"] ->
        session (submit_answer answering "cat" "cat"
                   (mk_world default_session shelf draws)).1 !! key
        = session (mk_world default_session shelf draws) !! key)
  /\ disk (submit_answer answering "cat" "cat"
             (mk_world default_session shelf draws)).1
     = disk (mk_world default_session shelf draws)
  /\ ((submit_answer answering "cat" "cat" (mk_world default_session shelf draws)).2
      = Stopped (Exception ZeroDivisionError)
      <-> 0 = -1)
  /\ (0 <> -1 ->
      quiet (submit_answer answering "cat" "cat"
               (mk_world default_session shelf draws)).2
      \/ (submit_answer answering "cat" "cat"
            (mk_world default_session shelf draws)).2
         = Stopped (Exception OverflowError))
  /\ (0 <= 0 <= 0 ->
      quiet (submit_answer answering "cat" "cat"
               (mk_world default_session shelf draws)).2).
Proof.
  apply (submit_answer_counts answering "cat" "cat" 0 0
           (mk_world default_session shelf draws)); reflexivity.
Defined.

(** ** The review tab *)

Lemma save_stored (cards cards' : list Flashcard) (w : world) :
  stored (disk w) cards ->
  save cards' w
  = (mk_world (session w) (Holds (snapshot cards')) (entropy w), Finished tt).
Proof.
  unfold save, save_cards, open_write, snapshot.
  intros [[-> _] | ->]; reflexivity.
Qed.

(** What a review button does to a card with a level of the table, at a
    clock reading and on a file that the program wrote. *)
Lemma review_button_run (card : Flashcard) (position : option nat)
    (was_correct : bool) (cards stored_cards : list Flashcard) (now : datetime)
    (w : world) :
  0 <= level card <= len INTERVALS - 1 -> clock_reading now ->
  stored (disk w) stored_cards ->
  review_button card position was_correct cards now w
  = (mk_world (<["current_card" := VNone]> (session w))
       (Holds (snapshot match position with
                        | Some i => <[i := (update_card_status card was_correct now).1]> cards
                        | None => cards
                        end))
       (entropy w),
     Stopped RerunException).
Proof.
  intros Hl Hnow Hf. unfold review_button.
  destruct (update_card_status_returns card was_correct now Hl Hnow)
    as (interval & _ & _ & Hret & _).
  destruct (update_card_status card was_correct now) as [card' r].
  cbn [fst snd] in *. subst r. run. unfold setattr at 1.
  erewrite save_stored by (cbn [disk]; exact Hf).
  unfold setattr, rerun. cbn [session disk entropy].
  by rewrite insert_insert_eq.
Qed.

Lemma card_ok_reviewed (card : Flashcard) (was_correct : bool) (now : datetime) :
  card_invariant card -> clock_reading now ->
  card_ok (update_card_status card was_correct now).1.
Proof.
  intros Hinv Hnow. split.
  - apply update_card_status_checked; [by destruct Hinv | exact Hnow].
  - apply (review_preserves_invariant card (was_correct, now) Hinv).
Qed.

Lemma card_ok_checked (cards : list Flashcard) :
  Forall card_ok cards ->
  Forall (fun c => datetime_check (next_review c) = true) cards.
Proof. intros Hc. eapply Forall_impl; [exact Hc |]. by intros c [H _]. Qed.

Lemma card_ok_counters (cards : list Flashcard) :
  Forall card_ok cards ->
  Forall (λ card, 0 <= correct card <= reviews card) cards.
Proof. intros Hc. eapply Forall_impl; [exact Hc |]. by intros c (_ & _ & H). Qed.

Lemma load_stored (now : datetime) (f : file) (cards : list Flashcard) :
  stored f cards -> Forall card_ok cards -> load_cards now f = Return cards.
Proof.
  intros [[-> ->] | ->] Hc; [reflexivity |].
  by apply load_snapshot, card_ok_checked.
Qed.

(** X14. With no current card in the session and some card due, the review
    tab makes a due card of the list the current card, and nothing else:
    when the translation is not asked for, the tab ends with that card
    under [current_card], the other keys and the file as they were. The
    card is due at the reading that the clock gave when it was tested. *)
Theorem review_tab_picks (ui : widgets) (t : clock) (cards : list Flashcard)
    (w : world) :
  session w !! "current_card" = Some VNone ->
  due_cards cards (at_due t) <> [] ->
  show_translation_button ui = false ->
  exists (p : nat) (c : Flashcard) (g' : rng),
    cards !! p = Some c /\ c ∈ due_cards cards (at_due t)
    /\ datetime_le (next_review c) (at_due t p) = true
    /\ review_tab ui t cards w
       = (mk_world (<["current_card" := VCard c]> (session w)) (disk w) g',
          Finished tt).
Proof.
  intros Hcur Hdue Hshow.
  assert (Hne : due_objects cards (at_due t) <> [])
    by (intros E; unfold due_cards in Hdue; by rewrite E in Hdue).
  destruct (random_choice_elem _ (entropy w) Hne) as (j & [p c] & g' & Hch & Hj).
  apply list_elem_of_lookup_2, due_objects_lookup in Hj as [Hp Hle].
  exists p, c, g'. split; [exact Hp |].
  split; [apply due_cards_lookup; by exists p |]. split; [exact Hle |].
  unfold review_tab.
  destruct (due_objects cards (at_due t)) as [| d0 due'] eqn:Edue; [done |].
  rewrite <- Edue in Hch |- *. clear Edue.
  unfold mbind at 1, action_bind at 1. rewrite (getattr_Some _ _ _ Hcur).
  unfold mbind, action_bind, mret, action_ret, choice. rewrite Hch.
  unfold setattr at 1. cbn [session disk entropy fst snd].
  erewrite getattr_Some by (cbn [session]; by simplify_map_eq).
  cbn [lift value_card]. by rewrite Hshow.
Qed.

Lemma review_tab_picks_witness :
  exists (p : nat) (c : Flashcard) (g' : rng),
    deck !! p = Some c /\ c ∈ due_cards deck (at_due at_noon)
    /\ datetime_le (next_review c) (at_due at_noon p) = true
    /\ review_tab idle at_noon deck (mk_world default_session shelf draws)
       = (mk_world (<["current_card" := VCard c]>
                      (session (mk_world default_session shelf draws)))
            (disk (mk_world default_session shelf draws)) g',
          Finished tt).
Proof.
  apply (review_tab_picks idle at_noon deck (mk_world default_session shelf draws)).
  - reflexivity.
  - vm_compute. discriminate.
  - reflexivity.
Defined.

(** ** What a run writes *)

Lemma keeps_disk_bind {A B : Type} (m : action A) (k : A -> action B) :
  keeps_disk m -> (forall a, keeps_disk (k a)) -> keeps_disk (m ≫= k).
Proof.
  intros Hm Hk w. unfold mbind, action_bind.
  specialize (Hm w). destruct (m w) as [w1 [a | why]]; cbn [fst] in *.
  - by rewrite Hk.
  - exact Hm.
Qed.

Lemma keeps_disk_ret {A : Type} (a : A) : keeps_disk (mret a).
Proof. by intros w. Qed.

Lemma keeps_disk_lift {A : Type} (r : result A) : keeps_disk (lift r).
Proof. intros w. by destruct r. Qed.

Lemma keeps_disk_getattr (key : string) : keeps_disk (getattr key).
Proof. intros w. unfold getattr. apply keeps_disk_lift. Qed.

Lemma keeps_disk_setattr (key : string) (v : value) : keeps_disk (setattr key v).
Proof. by intros w. Qed.

Lemma keeps_disk_rerun : keeps_disk rerun.
Proof. by intros w. Qed.

Lemma keeps_disk_choice {A : Type} (seq : list A) : keeps_disk (choice seq).
Proof. intros w. unfold choice. by destruct (random_choice _ _) as [[x g] | e]. Qed.

Lemma keeps_disk_quiz (cards : list Flashcard) (current_word : string) :
  keeps_disk (quiz cards current_word).
Proof. intros w. unfold quiz. by destruct (create_quiz _ _ _) as [[[o a] g] | e]. Qed.

Lemma keeps_disk_truediv (a b : Z) : keeps_disk (truediv a b).
Proof. unfold truediv. apply keeps_disk_lift. Qed.

Lemma keeps_disk_load (now : datetime) : keeps_disk (load now).
Proof. intros w. unfold load. apply keeps_disk_lift. Qed.

Create HintDb keeps_disk.
#[local] Hint Resolve keeps_disk_ret keeps_disk_lift keeps_disk_getattr
  keeps_disk_setattr keeps_disk_rerun keeps_disk_choice keeps_disk_quiz
  keeps_disk_truediv keeps_disk_load : keeps_disk.

(** An action built from steps that keep the file keeps it. *)
Ltac keeps_disk :=
  repeat first
    [ apply keeps_disk_bind; [| intros ?]
    | progress auto with keeps_disk
    | case_match ].

Lemma keeps_disk_iadd (key : string) (n : Z) : keeps_disk (iadd key n).
Proof. unfold iadd. keeps_disk. Qed.

Lemma keeps_disk_submit_answer (ui : widgets) (user_answer correct_answer : string) :
  keeps_disk (submit_answer ui user_answer correct_answer).
Proof.
  pose proof keeps_disk_iadd. unfold submit_answer. keeps_disk.
Qed.

Lemma keeps_disk_quiz_tab (ui : widgets) (cards : list Flashcard) :
  keeps_disk (quiz_tab ui cards).
Proof.
  pose proof keeps_disk_submit_answer. unfold quiz_tab. keeps_disk.
Qed.

Lemma keeps_disk_view_tab (ui : widgets) (cards : list Flashcard) :
  keeps_disk (view_tab ui cards).
Proof. unfold view_tab, previous_card, next_card. keeps_disk. Qed.

Lemma keeps_disk_review_tab (ui : widgets) (t : clock) (cards : list Flashcard) :
  show_translation_button ui && (remembered_button ui || forgot_button ui) = false ->
  keeps_disk (review_tab ui t cards).
Proof.
  intros Hui. unfold review_tab.
  destruct (show_translation_button ui), (remembered_button ui),
    (forgot_button ui); try discriminate; keeps_disk.
Qed.

Lemma keeps_disk_main (ui : widgets) (t : clock) :
  add_card_button ui = false ->
  show_translation_button ui && (remembered_button ui || forgot_button ui) = false ->
  keeps_disk (main ui t).
Proof.
  intros Hadd Hreview.
  pose proof (keeps_disk_review_tab ui t) as Htab1.
  pose proof (keeps_disk_quiz_tab ui) as Htab2.
  pose proof (keeps_disk_view_tab ui) as Htab3.
  unfold main. rewrite Hadd. keeps_disk.
Qed.

(** X16. Only the form and the review buttons write the snapshot: a run in
    which "Add Card" is not clicked and no review button is clicked under a
    shown translation leaves the file exactly as it found it, whatever the
    session holds and however the run ends. In particular no answer in the
    quiz tab and no paging in the view tab changes a card. *)
Theorem script_keeps_disk (ui : widgets) (t : clock) (w : world) :
  add_card_button ui = false ->
  show_translation_button ui && (remembered_button ui || forgot_button ui) = false ->
  disk (script ui t w).1 = disk w.
Proof.
  intros Hadd Hreview. unfold script.
  set (w0 := mk_world _ _ _). change (disk w) with (disk w0).
  by apply keeps_disk_main.
Qed.

Lemma script_keeps_disk_witness :
  disk (script answering at_noon (mk_world ∅ shelf draws)).1
  = disk (mk_world ∅ shelf draws).
Proof.
  apply (script_keeps_disk answering at_noon (mk_world ∅ shelf draws));
    reflexivity.
Defined.

Lemma review_button_kept (card : Flashcard) (was_correct : bool)
    (cards : list Flashcard) (now : datetime) (w w' : world) (r : ended unit) :
  review_button card None was_correct cards now w = (w', r) ->
  r <> Finished tt
  /\ (disk w' = disk w \/ disk w' = (save_cards cards (disk w)).1).
Proof.
  unfold review_button.
  destruct (update_card_status card was_correct now) as [card' [[] | e]];
    unfold mbind, action_bind, setattr, save, lift, rerun;
    cbn [session disk entropy].
  - destruct (save_cards cards (disk w)) as [f [[] | e]];
      intros [= <- <-]; split; (discriminate || by right).
  - intros [= <- <-]. split; [discriminate | by left].
Qed.

(** The review tab of a run that found a card in the session. *)
Lemma review_tab_kept (ui : widgets) (t : clock) (cards : list Flashcard)
    (c : Flashcard) (w w' : world) (r : ended unit) :
  session w !! "current_card" = Some (VCard c) ->
  review_tab ui t cards w = (w', r) ->
  (r = Finished tt /\ w' = w)
  \/ (r <> Finished tt
      /\ (disk w' = disk w \/ disk w' = (save_cards cards (disk w)).1)).
Proof.
  intros Hcur Hrun. unfold review_tab in Hrun.
  destruct (due_objects cards (at_due t)) as [| d0 due'];
    [unfold mret, action_ret in Hrun; left; by simplify_eq |].
  step_read Hrun Hcur.
  step Hrun w1 position Hpick; unfold mret, action_ret in Hpick;
    [injection Hpick as <- <- | discriminate].
  step_read Hrun Hcur.
  step Hrun w2 card Hcard; cbn in Hcard; [injection Hcard as <- <- | discriminate].
  destruct (show_translation_button ui);
    [| unfold mret, action_ret in Hrun; left; by simplify_eq].
  step Hrun w3 u Hremembered.
  - destruct (remembered_button ui).
    + destruct u. by apply review_button_kept in Hremembered as [[] _].
    + unfold mret, action_ret in Hremembered. injection Hremembered as <- <-.
      step Hrun w4 u2 Hforgot.
      * destruct (forgot_button ui).
        -- destruct u2. by apply review_button_kept in Hforgot as [[] _].
        -- unfold mret, action_ret in Hforgot, Hrun. left. by simplify_eq.
      * destruct (forgot_button ui).
        -- apply review_button_kept in Hforgot. by right.
        -- unfold mret, action_ret in Hforgot. discriminate.
  - destruct (remembered_button ui).
    + apply review_button_kept in Hremembered. by right.
    + unfold mret, action_ret in Hremembered. discriminate.
Qed.

(** What one click leaves of the other buttons. *)
Lemma one_click_review (ui : widgets) :
  one_click ui -> remembered_button ui = true \/ forgot_button ui = true ->
  add_card_button ui = false /\ show_translation_button ui = false.
Proof.
  unfold one_click, buttons. intros Hone Hclick.
  destruct (add_card_button ui), (show_translation_button ui),
    (remembered_button ui), (forgot_button ui), (submit_answer_button ui),
    (next_question_button ui), (previous_button ui), (next_button ui);
    vm_compute in Hone; try lia; try done; by destruct Hclick.
Qed.

(** X15. A click on a review button is not recorded. Streamlit reports a
    click in the run that the click starts, and in that run no other button
    is clicked: "Show Translation" returns [False], the block under it is
    not reached, and [update_card_status] and [save_cards] are not called.
    The run is, step for step, the run in which no review button is
    clicked, and it leaves the file as it found it. *)
Theorem review_click_not_recorded (ui : widgets) (t : clock) (w : world) :
  one_click ui -> remembered_button ui = true \/ forgot_button ui = true ->
  script ui t w = script (without_review ui) t w
  /\ disk (script ui t w).1 = disk w.
Proof.
  intros Hone Hclick.
  destruct (one_click_review ui Hone Hclick) as [Hadd Hshow]. split.
  - unfold script, main, review_tab. cbn [without_review show_translation_button
      add_card_button word_input translation_input]. by rewrite Hshow.
  - unfold script. set (w0 := mk_world _ _ _). change (disk w) with (disk w0).
    apply keeps_disk_main; [exact Hadd | by rewrite Hshow].
Qed.

Lemma review_click_not_recorded_witness :
  script clicking_remembered at_noon (mk_world ∅ shelf draws)
  = script (without_review clicking_remembered) at_noon (mk_world ∅ shelf draws)
  /\ disk (script clicking_remembered at_noon (mk_world ∅ shelf draws)).1
     = disk (mk_world ∅ shelf draws).
Proof.
  apply (review_click_not_recorded clicking_remembered at_noon
           (mk_world ∅ shelf draws)).
  - vm_compute. lia.
  - by left.
Defined.

(** X17. A review of a card that the session kept from an earlier run is
    not recorded: when a run finds a card under [current_card] (and "Add
    Card" is not clicked), then whatever is clicked, the file is left as it
    was or rewritten with the cards exactly as [load_cards] returned them
    at the start of the run, so that [load_cards] returns the same cards
    after the run as before it. [update_card_status] is applied to the
    object of the session, which is none of the cards that the run loaded
    and saves. *)
Theorem script_kept_card_not_recorded (ui : widgets) (t : clock) (w : world)
    (c : Flashcard) (cards : list Flashcard) :
  session w !! "current_card" = Some (VCard c) ->
  add_card_button ui = false ->
  load_cards (at_load t) (disk w) = Return cards ->
  (disk (script ui t w).1 = disk w
   \/ disk (script ui t w).1 = Holds (snapshot cards))
  /\ forall later, load_cards later (disk (script ui t w).1) = Return cards.
Proof.
  intros Hcur Hadd Hload.
  destruct (load_cards_Return _ _ _ Hload) as (Hf & Hc & Hany).
  destruct (save_cards_loaded _ _ _ Hload) as (Hsaved & _ & _ & Hreload).
  assert (Hkept : disk (script ui t w).1 = disk w
                  \/ disk (script ui t w).1 = (save_cards cards (disk w)).1).
  { clear Hsaved Hreload Hf Hc Hany.
    destruct (script ui t w) as [w' r] eqn:Hrun. cbn [fst].
    unfold script, main in Hrun. set (w0 := mk_world _ _ _) in *.
    assert (Hcur0 : session w0 !! "current_card" = Some (VCard c))
      by (by apply init_session_state_lookup).
    change (disk w) with (disk w0) in Hload |- *. clearbody w0.
    step Hrun w1 cards0 Hl; unfold load in Hl; rewrite Hload in Hl;
      [injection Hl as <- <- | discriminate].
    rewrite Hadd in Hrun.
    step Hrun w2 cards1 Hs; unfold mret, action_ret in Hs;
      [injection Hs as <- <- | discriminate].
    step Hrun w2 u0 Hstat; unfold lift in Hstat;
      destruct (statistics_block cards); try discriminate;
      [injection Hstat as <- <- | left; by injection Hstat as <- _].
    step Hrun w3 u Htab1.
    - destruct u.
      apply (review_tab_kept _ _ _ c _ _ _ Hcur0) in Htab1 as [[_ ->] | [[] _]];
        [| reflexivity].
      left. step Hrun w4 u2 Htab2.
      + pose proof (keeps_disk_quiz_tab ui cards w0) as H2. rewrite Htab2 in H2.
        pose proof (keeps_disk_view_tab ui cards w4) as H3. rewrite Hrun in H3.
        cbn [fst] in *. congruence.
      + pose proof (keeps_disk_quiz_tab ui cards w0) as H2. by rewrite Htab2 in H2.
    - by apply (review_tab_kept _ _ _ c _ _ _ Hcur0) in Htab1 as [[[=] _] | [_ H]]. }
  split.
  - destruct Hkept as [-> | ->]; [by left |]. destruct Hsaved as [-> | ->]; tauto.
  - intros later. destruct Hkept as [-> | ->]; [apply Hany | apply Hreload].
Qed.

Lemma script_kept_card_not_recorded_witness :
  (disk (script remembering at_noon
           (mk_world {["current_card" := VCard perro]} shelf draws)).1
   = disk (mk_world {["current_card" := VCard perro]} shelf draws)
   \/ disk (script remembering at_noon
              (mk_world {["current_card" := VCard perro]} shelf draws)).1
      = Holds (snapshot deck))
  /\ forall later,
       load_cards later
         (disk (script remembering at_noon
                  (mk_world {["current_card" := VCard perro]} shelf draws)).1)
       = Return deck.
Proof.
  apply (script_kept_card_not_recorded remembering at_noon
           (mk_world {["current_card" := VCard perro]} shelf draws) perro deck);
    reflexivity.
Defined.

(** ** The invariant of the page *)

(** The invariant holds of a session in which the current card is replaced
    by an admissible one, whatever the generator. *)
Lemma located_current (cards : list Flashcard) (w : world) (v : value) (g : rng) :
  located cards w -> current_ok v cards ->
  located cards (mk_world (<["current_card" := v]> (session w)) (disk w) g).
Proof.
  intros (Hf & Hc & cur & q & n & i & Hcur & Hcurok & Hq & Hn & Hqn & Hi & Hr) Hv.
  split; [exact Hf |]. split; [exact Hc |].
  exists v, q, n, i. cbn [session]. by simplify_map_eq.
Qed.

Lemma ready_same_words (s : gmap string value) (cards cards' : list Flashcard) :
  word <$> cards ⊆ word <$> cards' -> len cards <= len cards' ->
  ready s cards -> ready s cards'.
Proof.
  intros Hw Hlen (cur & q & n & i & Hcur & Hcurok & Hq & Hn & Hqn & Hi & Hr).
  exists cur, q, n, i. repeat split; try done; try lia.
  destruct Hcurok as [-> | (c & -> & Hc & Hl)]; [by left | right].
  exists c. split; [done |]. split; [by apply Hw | done].
Qed.

Lemma ready_init (s : gmap string value) (cards : list Flashcard) :
  ready s cards -> ready (init_session_state s) cards.
Proof.
  intros (cur & q & n & i & Hcur & Hcurok & Hq & Hn & Hqn & Hi & Hr).
  exists cur, q, n, i.
  repeat split; try done; try lia; by apply init_session_state_lookup.
Qed.

Lemma view_tab_located (ui : widgets) (cards : list Flashcard) (w w' : world)
    (r : ended unit) :
  located cards w -> view_tab ui cards w = (w', r) ->
  quiet r /\ located cards w'.
Proof.
  intros Hloc Hrun.
  pose proof Hloc as (Hf & Hc & cur & q & n & i & Hcur & Hcurok & Hq & Hn & Hqn & Hi & Hrange).
  unfold view_tab in Hrun. run_in Hrun.
  destruct cards as [| c0 cards']; [simplify_eq; split; [exact I | done] |].
  set (cards := c0 :: cards') in *.
  assert (Hlen : 1 <= len cards) by (unfold len; cbn [length cards]; lia).
  read_in Hrun Hi.
  destruct (list_getitem_in_range cards i) as (card & Hget & _); [lia |].
  rewrite Hget in Hrun. run_in Hrun.
  destruct (previous_button ui).
  - rewrite (previous_card_run i w Hi) in Hrun. simplify_eq. split; [exact I |].
    split; [exact Hf |]. split; [exact Hc |].
    exists cur, q, n, (Z.max 0 (i - 1)). cbn [session]. simplify_map_eq.
    repeat split; try done; lia.
  - destruct (next_button ui).
    + rewrite (next_card_run cards i w Hi) in Hrun. simplify_eq. split; [exact I |].
      split; [exact Hf |]. split; [exact Hc |].
      exists cur, q, n, (Z.min (len cards - 1) (i + 1)). cbn [session].
      simplify_map_eq. repeat split; try done; lia.
    + simplify_eq. split; [exact I | done].
Qed.

Lemma quiz_tab_located (ui : widgets) (cards : list Flashcard) (w w' : world)
    (r : ended unit) :
  located cards w -> quiz_tab ui cards w = (w', r) ->
  quiet r /\ located cards w'.
Proof.
  intros Hloc Hrun.
  unfold quiz_tab in Hrun.
  destruct cards as [| c0 cards'];
    [unfold mret, action_ret in Hrun; simplify_eq; split; [exact I | done] |].
  set (cards := c0 :: cards') in *.
  pose proof Hloc as (Hf & Hc & cur & q & n & i & Hcur & Hcurok & Hq & Hn & Hqn & Hi & Hrange).
  step_read Hrun Hcur.
  (* the card of the question *)
  assert (exists w1 c,
             located cards w1
             /\ session w1 !! "current_card" = Some (VCard c)
             /\ word c ∈ word <$> cards
             /\ match cur with
                | VNone => c ← choice cards; setattr "current_card" (VCard c)
                | _ => mret tt
                end w = (w1, Finished tt)) as (w1 & c & Hloc1 & Hcur1 & Hword & Hpick).
  { destruct Hcurok as [-> | (c & -> & Hw & Hl)].
    - unfold choice. run.
      destruct (random_choice_elem cards (entropy w)) as (j & c & g' & Hch & Hj); [done |].
      rewrite Hch. unfold setattr. cbn [session disk entropy].
      apply list_elem_of_lookup_2 in Hj.
      assert (Hcok : current_ok (VCard c) cards).
      { right. exists c. split; [done |]. split; [by apply list_elem_of_fmap_2 |].
        rewrite Forall_forall in Hc. by destruct (Hc c Hj) as (_ & ? & _). }
      eexists _, c. split; [exact (located_current cards w (VCard c) g' Hloc Hcok) |].
      split; [cbn [session]; by simplify_map_eq |].
      split; [by apply list_elem_of_fmap_2 |]. reflexivity.
    - exists w, c. split; [done |]. split; [done |]. split; [done |]. reflexivity. }
  step Hrun w2 u Hpick'; rewrite Hpick in Hpick'; [injection Hpick' as <- <- | discriminate].
  clear Hloc Hpick Hf Hc Hcur Hcurok Hq Hn Hqn Hi Hrange cur q n i.
  pose proof Hloc1 as (Hf & Hc & cur & q & n & i & Hcur & Hcurok & Hq & Hn & Hqn & Hi & Hrange).
  step_read Hrun Hcur1.
  step Hrun w4 card Hcard; cbn in Hcard; [injection Hcard as <- <- | discriminate].
  destruct (create_quiz_returns cards (word c) (entropy w1) Hword)
    as (options & answer & g' & Hq').
  step Hrun w5 oa Hquiz; unfold quiz in Hquiz; rewrite Hq' in Hquiz;
    [injection Hquiz as <- <- | discriminate].
  destruct (submit_answer_button ui).
  - rewrite (submit_answer_run ui _ _ q n) in Hrun by done.
    cbn [session disk entropy] in Hrun.
    destruct (int_truediv_fraction
                (if bool_decide (radio ui options = answer) then q + 1 else q)
                (n + 1)) as [Hdiv _];
      [destruct (bool_decide _); lia | lia |].
    rewrite Hdiv in Hrun. clear Hdiv.
    assert (Hloc' : located cards w').
    { assert (w' = mk_world
                (submitted (bool_decide (radio ui options = answer)) q n (session w1))
                (disk w1) g') as -> by (by destruct (next_question_button ui); simplify_eq).
      split; [exact Hf |]. split; [exact Hc |]. unfold submitted.
      destruct (bool_decide (radio ui options = answer)).
      - exists VNone, (q + 1), (n + 1), i. cbn [session]. simplify_map_eq.
        repeat split; try done; try lia. by left.
      - exists VNone, q, (n + 1), i. cbn [session]. simplify_map_eq.
        repeat split; try done; try lia. by left. }
    split; [| exact Hloc']. by destruct (next_question_button ui); simplify_eq.
  - unfold mret, action_ret in Hrun. simplify_eq. split; [exact I | exact Hloc1].
Qed.

Lemma review_tab_located (ui : widgets) (t : clock) (cards : list Flashcard)
    (w w' : world) (r : ended unit) :
  clock_reading (at_review t) ->
  located cards w -> review_tab ui t cards w = (w', r) ->
  (r = Finished tt /\ located cards w')
  \/ (r = Stopped RerunException /\ exists cards', located cards' w').
Proof.
  intros Hnow Hloc Hrun. unfold review_tab in Hrun.
  destruct (due_objects cards (at_due t)) as [| d0 due'] eqn:Edue;
    [unfold mret, action_ret in Hrun; simplify_eq; by left |].
  rewrite <- Edue in Hrun.
  assert (Hne : due_objects cards (at_due t) <> []) by (by rewrite Edue).
  clear Edue d0 due'. set (due := due_objects cards (at_due t)) in *.
  pose proof Hloc as (Hf & Hc & cur & q & n & i & Hcur & Hcurok & Hq & Hn & Hqn & Hi & Hrange).
  step_read Hrun Hcur.
  (* the card under review and where it lives *)
  assert (exists w1 c position,
             located cards w1
             /\ session w1 !! "current_card" = Some (VCard c)
             /\ 0 <= level c <= len INTERVALS - 1
             /\ (forall j, position = Some j -> cards !! j = Some c)
             /\ match cur with
                | VNone =>
                    ic ← choice due;
                    _ ← setattr "current_card" (VCard ic.2);
                    mret (Some ic.1)
                | _ => mret None
                end w = (w1, Finished position))
    as (w1 & c & position & Hloc1 & Hcur1 & Hlevel & Hpos & Hpick).
  { destruct Hcurok as [-> | (c & -> & Hw & Hl)].
    - unfold choice. run.
      destruct (random_choice_elem due (entropy w)) as (j & [p c] & g' & Hch & Hj);
        [done |].
      rewrite Hch. unfold setattr. cbn [session disk entropy fst snd].
      apply list_elem_of_lookup_2, due_objects_lookup in Hj as [Hp _].
      pose proof (list_elem_of_lookup_2 _ _ _ Hp) as Hin.
      assert (Hcok : card_ok c) by (rewrite Forall_forall in Hc; by apply Hc).
      assert (Hcur_ok : current_ok (VCard c) cards).
      { right. exists c. split; [done |].
        split; [by apply list_elem_of_fmap_2 | by destruct Hcok as (_ & ? & _)]. }
      eexists _, c, (Some p).
      split; [exact (located_current cards w (VCard c) g' Hloc Hcur_ok) |].
      split; [cbn [session]; by simplify_map_eq |].
      split; [by destruct Hcok as (_ & ? & _) |].
      split; [by intros j' [= <-] | reflexivity].
    - exists w, c, None. split; [done |]. split; [done |]. split; [done |].
      split; [done | reflexivity]. }
  step Hrun w2 pos Hpick'; rewrite Hpick in Hpick';
    [injection Hpick' as <- <- | discriminate].
  clear Hloc Hpick Hf Hc Hcur Hcurok Hq Hn Hqn Hi Hrange cur q n i.
  pose proof Hloc1 as (Hf & Hc & cur & q & n & i & Hcur & Hcurok & Hq & Hn & Hqn & Hi & Hrange).
  step_read Hrun Hcur1.
  step Hrun w4 card Hcard; cbn in Hcard; [injection Hcard as <- <- | discriminate].
  (* what a review button leaves *)
  assert (Hbutton : forall was_correct w2 r2,
             review_button c position was_correct cards (at_review t) w1 = (w2, r2) ->
             r2 = Stopped RerunException /\ exists cards', located cards' w2).
  { intros was_correct w2 r2 Hb.
    rewrite (review_button_run c position was_correct cards cards (at_review t) w1
               Hlevel Hnow Hf) in Hb.
    injection Hb as <- <-. split; [reflexivity |].
    assert (Hc' : forall j, position = Some j ->
                    card_ok (update_card_status c was_correct (at_review t)).1).
    { intros j Hj. apply card_ok_reviewed; [| exact Hnow].
      rewrite Forall_forall in Hc.
      by destruct (Hc c (list_elem_of_lookup_2 _ _ _ (Hpos j Hj))). }
    assert (Hw' : word (update_card_status c was_correct (at_review t)).1 = word c).
    { pose proof (update_card_status_counters c was_correct (at_review t)) as Hs.
      cbv zeta in Hs. by destruct Hs as (_ & _ & _ & Hs & _). }
    set (c' := (update_card_status c was_correct (at_review t)).1) in *.
    exists (match position with Some j => <[j := c']> cards | None => cards end).
    split; [by right |]. split.
    - destruct position as [j |]; [| exact Hc]. apply Forall_insert; [exact Hc |].
      by apply (Hc' j).
    - cbn [session].
      assert (Hready : ready (<["current_card" := VNone]> (session w1)) cards).
      { exists VNone, q, n, i. simplify_map_eq. repeat split; try done; try lia.
        by left. }
      destruct position as [j |]; [| exact Hready].
      eapply ready_same_words; [| | exact Hready].
      + rewrite list_fmap_insert, Hw'.
        rewrite list_insert_id; [done |]. by rewrite list_lookup_fmap, (Hpos j eq_refl).
      + unfold len. by rewrite length_insert. }
  destruct (show_translation_button ui);
    [| unfold mret, action_ret in Hrun; simplify_eq; by left].
  step Hrun w5 u Hremembered.
  - destruct (remembered_button ui).
    + apply Hbutton in Hremembered as [[=] _].
    + unfold mret, action_ret in Hremembered. injection Hremembered as <- <-.
      step Hrun w6 u2 Hforgot.
      * destruct (forgot_button ui).
        -- apply Hbutton in Hforgot as [[=] _].
        -- unfold mret, action_ret in Hforgot, Hrun. simplify_eq. by left.
      * destruct (forgot_button ui).
        -- apply Hbutton in Hforgot as [[= ->] Hex]. by right.
        -- unfold mret, action_ret in Hforgot. discriminate.
  - destruct (remembered_button ui).
    + apply Hbutton in Hremembered as [[= ->] Hex]. by right.
    + unfold mret, action_ret in Hremembered. discriminate.
Qed.

Lemma add_located (word translation : string) (now : datetime)
    (cards : list Flashcard) (w w' : world) (r : ended (list Flashcard)) :
  datetime_check now = true ->
  located cards w -> add word translation now cards w = (w', r) ->
  exists cards', r = Finished cards' /\ located cards' w'.
Proof.
  intros Hnow (Hf & Hc & Hready) Hrun. unfold add in Hrun.
  destruct (truthy word && truthy translation) eqn:E.
  - apply andb_prop in E as [Hw Ht].
    assert (Hf' : accessible (disk w) = true) by (by destruct Hf as [[-> _] | ->]).
    rewrite (add_card_appends word translation now cards (disk w)) in Hrun;
      [| by intros -> | by intros -> | exact Hf'].
    cbn in Hrun. injection Hrun as <- <-.
    eexists. split; [reflexivity |].
    split; [by right |]. split.
    + apply Forall_app. split; [exact Hc |]. apply Forall_singleton.
      split; [exact Hnow |]. unfold card_invariant, len. cbn. lia.
    + cbn [session]. eapply ready_same_words; [| | exact Hready].
      * rewrite fmap_app. by apply list_subseteq_app_l.
      * unfold len. rewrite length_app. lia.
  - unfold add_card in Hrun. rewrite E in Hrun. cbn in Hrun.
    injection Hrun as <- <-. exists cards. split; [reflexivity |].
    destruct w. by split.
Qed.

(** A run keeps the invariant of the page and does not end in an
    exception. *)
Lemma script_page_ok (ui : widgets) (t : clock) (w : world) :
  clock_ok t -> page_ok w ->
  quiet (script ui t w).2 /\ page_ok (script ui t w).1.
Proof.
  intros [Hadd Hreview] [cards Hloc].
  assert (Hgen : forall w' r, script ui t w = (w', r) ->
             quiet r /\ exists cards', located cards' w').
  { intros w' r Hrun. unfold script, main in Hrun.
    set (w0 := mk_world _ _ _) in *.
    step Hrun w1 cards0 Hload.
    2: { unfold load in Hload.
         rewrite (load_stored _ _ cards) in Hload by apply Hloc. discriminate. }
    unfold load in Hload. rewrite (load_stored _ _ cards) in Hload by apply Hloc.
    injection Hload as <- <-.
    step Hrun w2 cards1 Hsidebar.
    2: { destruct (add_card_button ui); [| discriminate].
         apply (add_located _ _ _ _ _ _ _ Hadd Hloc) in Hsidebar as (? & [=] & _). }
    assert (Hloc2 : located cards1 w2).
    { destruct (add_card_button ui).
      - apply (add_located _ _ _ _ _ _ _ Hadd Hloc) in Hsidebar
          as (cards' & [= <-] & Hloc'). exact Hloc'.
      - unfold mret, action_ret in Hsidebar. by simplify_eq. }
    clear Hsidebar Hloc.
    assert (Hstats : statistics_block cards1 = Return tt)
      by (apply statistics_block_returns, card_ok_counters, Hloc2).
    rewrite Hstats in Hrun.
    step Hrun w2' u0 Hdrawn; cbn [lift] in Hdrawn;
      [injection Hdrawn as <- <- | discriminate].
    step Hrun w3 u Htab1.
    2: { apply (review_tab_located _ _ _ _ _ _ Hreview Hloc2) in Htab1
           as [[[=] _] | [[= ->] Hex]]. by split. }
    apply (review_tab_located _ _ _ _ _ _ Hreview Hloc2) in Htab1
      as [[_ Hloc3] | [[=] _]].
    step Hrun w4 u2 Htab2.
    2: { apply (quiz_tab_located _ _ _ _ _ Hloc3) in Htab2 as [Hq Hloc4].
         split; [exact Hq | by exists cards1]. }
    apply (quiz_tab_located _ _ _ _ _ Hloc3) in Htab2 as [_ Hloc4].
    apply (view_tab_located _ _ _ _ _ Hloc4) in Hrun as [Hq Hloc5].
    split; [exact Hq | by exists cards1]. }
  destruct (script ui t w) as [w' r]. destruct (Hgen w' r eq_refl) as [Hq [cards' Hloc']].
  split; [exact Hq |]. exists cards'.
  destruct Hloc' as (Hf & Hc & Hready). split; [exact Hf |]. split; [exact Hc |].
  by apply ready_init.
Qed.

(** A new session finds the invariant, on a file that is not there or that
    the program wrote. *)
Lemma page_ok_new_session (f : file) (cards : list Flashcard) (g : rng) :
  stored f cards -> Forall card_ok cards -> page_ok (mk_world ∅ f g).
Proof.
  intros Hf Hc. exists cards. split; [exact Hf |]. split; [exact Hc |].
  exists VNone, 0, 0, 0. cbn [session].
  repeat split; try done; try lia. by left.
Qed.

Lemma visit_page_ok (steps : list (widgets * clock)) :
  forall w, Forall (λ step, clock_ok step.2) steps -> page_ok w ->
  Forall quiet (visit steps w).2 /\ page_ok (visit steps w).1.
Proof.
  induction steps as [| [ui t] steps IH]; intros w Hclock Hw; cbn [visit].
  - by split.
  - apply Forall_cons in Hclock as [Ht Hclock]. cbn [snd] in Ht.
    pose proof (script_page_ok ui t w Ht Hw) as [Hq Hw'].
    destruct (script ui t w) as [w1 r]. cbn [fst snd] in *.
    specialize (IH w1 Hclock Hw'). destruct (visit steps w1) as [w2 rs].
    cbn [fst snd] in *. split; [constructor; tauto | tauto].
Qed.

(** X18. The page does not raise: in a new session, on a file that the
    process may read and write and that is not there or holds what
    [save_cards] wrote for cards of the data model (levels of the table,
    [0 <= correct <= reviews], datetime values as review dates), no run of
    the script ends in an exception of the modelled code ([OverflowError]
    of an accuracy or of a review date, [IndexError] of [INTERVALS] or of
    the viewed card, [StopIteration] of [create_quiz], [AttributeError] or
    [TypeError] of the session state, [ZeroDivisionError] of the accuracy,
    the exceptions of [load_cards] and [save_cards]), whatever is typed and
    clicked in any sequence of runs, whatever the generator draws and
    whenever the clock is read for the due cards, as long as the clock
    reading of the form is a datetime value and that of the reviews one at
    least 90 days before the end of year 9999. Every run finishes or ends
    in [st.rerun()]. *)
Theorem visit_never_raises (steps : list (widgets * clock)) (f : file)
    (cards : list Flashcard) (g : rng) :
  stored f cards -> Forall card_ok cards ->
  Forall (λ step, clock_ok step.2) steps ->
  Forall quiet (visit steps (mk_world ∅ f g)).2.
Proof.
  intros Hf Hc Hclock.
  by destruct (visit_page_ok steps (mk_world ∅ f g) Hclock
                 (page_ok_new_session f cards g Hf Hc)).
Qed.

Lemma visit_never_raises_witness :
  Forall quiet
    (visit [(idle, at_noon); (adding, at_noon); (revealing, at_noon);
            (remembering, at_noon); (answering, at_noon); (paging, at_noon)]
       (mk_world ∅ shelf draws)).2.
Proof.
  apply (visit_never_raises
           [(idle, at_noon); (adding, at_noon); (revealing, at_noon);
            (remembering, at_noon); (answering, at_noon); (paging, at_noon)]
           shelf deck draws).
  - right. reflexivity.
  - repeat constructor; vm_compute; discriminate.
  - repeat constructor; vm_compute; discriminate.
Defined.

(** Without the conditions of X18 a run can end in an exception: a card
    with more correct answers than a [float] can count stops every run in
    the statistics block, before the tabs. *)
Example script_OverflowError :
  (script idle at_noon (mk_world ∅ (Holds (snapshot [casa; overcounted])) draws)).2
  = Stopped (Exception OverflowError).
Proof. reflexivity. Qed.

(** X19. What the runs of a session leave behind is well formed: under the
    conditions of X18 and after any sequence of runs, [load_cards] returns
    a list of cards from the file, every card of the data model (a level of
    the table, [0 <= correct <= reviews]) with a datetime value as its
    review date; and the session state, as the next run initialises it,
    holds integer counters with [0 <= quiz_score <= total_reviews] and a
    view index that is 0 or a position of that list. *)
Theorem visit_invariant (steps : list (widgets * clock)) (f : file)
    (cards : list Flashcard) (g : rng) (now : datetime) :
  stored f cards -> Forall card_ok cards ->
  Forall (λ step, clock_ok step.2) steps ->
  exists (cards' : list Flashcard) (q n i : Z),
    load_cards now (disk (visit steps (mk_world ∅ f g)).1) = Return cards'
    /\ Forall (λ c, 0 <= level c <= len INTERVALS - 1) cards'
    /\ Forall (λ c, 0 <= correct c <= reviews c) cards'
    /\ Forall (λ c, datetime_check (next_review c) = true) cards'
    /\ init_session_state (session (visit steps (mk_world ∅ f g)).1) !! "quiz_score"
       = Some (VInt q)
    /\ init_session_state (session (visit steps (mk_world ∅ f g)).1) !! "total_reviews"
       = Some (VInt n)
    /\ 0 <= q <= n
    /\ init_session_state (session (visit steps (mk_world ∅ f g)).1) !! "view_index"
       = Some (VInt i)
    /\ 0 <= i <= Z.max 0 (len cards' - 1).
Proof.
  intros Hf Hc Hclock.
  destruct (visit_page_ok steps (mk_world ∅ f g) Hclock
              (page_ok_new_session f cards g Hf Hc))
    as [_ (cards' & Hf' & Hc' & Hready)].
  cbn [session disk] in *.
  destruct Hready as (cur & q & n & i & _ & _ & Hq & Hn & Hqn & Hi & Hrange).
  exists cards', q, n, i. split; [by apply load_stored |].
  split; [eapply Forall_impl; [exact Hc' |]; by intros c (_ & H & _) |].
  split; [by apply card_ok_counters |]. split; [by apply card_ok_checked |].
  repeat split; try done; lia.
Qed.

Lemma visit_invariant_witness :
  exists (cards' : list Flashcard) (q n i : Z),
    load_cards noon
      (disk (visit [(adding, at_noon); (answering, at_noon); (paging, at_noon);
                    (revealing, at_noon)]
               (mk_world ∅ shelf draws)).1)
    = Return cards'
    /\ Forall (λ c, 0 <= level c <= len INTERVALS - 1) cards'
    /\ Forall (λ c, 0 <= correct c <= reviews c) cards'
    /\ Forall (λ c, datetime_check (next_review c) = true) cards'
    /\ init_session_state
         (session (visit [(adding, at_noon); (answering, at_noon); (paging, at_noon);
                          (revealing, at_noon)]
                     (mk_world ∅ shelf draws)).1) !! "quiz_score"
       = Some (VInt q)
    /\ init_session_state
         (session (visit [(adding, at_noon); (answering, at_noon); (paging, at_noon);
                          (revealing, at_noon)]
                     (mk_world ∅ shelf draws)).1) !! "total_reviews"
       = Some (VInt n)
    /\ 0 <= q <= n
    /\ init_session_state
         (session (visit [(adding, at_noon); (answering, at_noon); (paging, at_noon);
                          (revealing, at_noon)]
                     (mk_world ∅ shelf draws)).1) !! "view_index"
       = Some (VInt i)
    /\ 0 <= i <= Z.max 0 (len cards' - 1).
Proof.
  apply (visit_invariant [(adding, at_noon); (answering, at_noon); (paging, at_noon);
                          (revealing, at_noon)]
           shelf deck draws noon).
  - right. reflexivity.
  - repeat constructor; vm_compute; discriminate.
  - repeat constructor; vm_compute; discriminate.
Defined.

(** The session of the witness, run: a card was added, then an answer was
    counted, the view moved to the second card, and a card was picked for
    review. *)
Example visit_sample :
  let end_state :=
    (visit [(adding, at_noon); (answering, at_noon); (paging, at_noon);
            (revealing, at_noon)]
       (mk_world ∅ shelf draws)).1 in
  load_cards noon (disk end_state) = Return (deck ++ [new_card "flor" "flower" noon])
  /\ session end_state !! "total_reviews" = Some (VInt 1)
  /\ session end_state !! "view_index" = Some (VInt 1)
  /\ exists c, session end_state !! "current_card" = Some (VCard c).
Proof. vm_compute. repeat split. by eexists. Qed.
